(** * claude-source-generator: the manifest-driven generation loop

    A shallow embedding of [src/index.ts] (class [SourceGenerator]), of its
    earlier single-shot variant, and of [src/batchDownload.ts], followed by
    the properties of the command protocol, of the manifest state machine
    and of the retry discipline around the generation call.

    The programs are asynchronous but strictly sequential (every promise is
    awaited before the next statement runs), so a program is a function
    from the state of the process to an outcome and a new state.  The
    state holds the fields of the [SourceGenerator] object, the disk, and
    the chronological list of calls made into the runtime (standard
    streams, [fs], the generation API, [process.exit]). *)

From Stdlib Require Import ZArith Ascii String.
From stdpp Require Import base option list strings gmap pretty.

#[local] Set Warnings "-register-all".

(** ** Values that cross the JSON boundary *)

(** A JSON value as [JSON.parse] returns it.  A number is carried by its
    decimal rendering; [JUndefined] is what reading an absent key gives. *)
Inductive JValue : Type :=
  | JString (s : string)
  | JNumber (repr : string)
  | JBool (b : bool)
  | JNull
  | JUndefined
  | JArray (items : list JValue)
  | JObject (fields : list (string * JValue)).

(** [typeof(v) !== 'string'] *)
Definition typeof_is_string (v : JValue) : bool :=
  match v with JString _ => true | _ => false end.

(** ** Strings *)

Definition dquote : string := String (ascii_of_nat 34) EmptyString.
Definition newline : string := String (ascii_of_nat 10) EmptyString.

(** [s.split(sep)] for a one-character separator: never the empty array. *)
Fixpoint split (sep : ascii) (s : string) : list string :=
  match s with
  | EmptyString => [EmptyString]
  | String c s' =>
      if Ascii.eqb c sep then EmptyString :: split sep s'
      else match split sep s' with
           | [] => [String c EmptyString]
           | w :: ws => String c w :: ws
           end
  end.

Definition hex_digit (n : nat) : ascii :=
  ascii_of_nat (if Nat.ltb n 10 then 48 + n else 87 + n).

(** One character inside a JSON string literal, as [JSON.stringify] writes it. *)
Definition escape_char (c : ascii) : string :=
  let n := nat_of_ascii c in
  if Nat.eqb n 34 then String (ascii_of_nat 92) dquote
  else if Nat.eqb n 92 then String c (String c EmptyString)
  else if Nat.eqb n 8 then String (ascii_of_nat 92) "b"
  else if Nat.eqb n 12 then String (ascii_of_nat 92) "f"
  else if Nat.eqb n 10 then String (ascii_of_nat 92) "n"
  else if Nat.eqb n 13 then String (ascii_of_nat 92) "r"
  else if Nat.eqb n 9 then String (ascii_of_nat 92) "t"
  else if Nat.ltb n 32 then
    String (ascii_of_nat 92)
      ("u00" +:+ String (hex_digit (n / 16)) (String (hex_digit (n mod 16)) EmptyString))
  else String c EmptyString.

Fixpoint escape (s : string) : string :=
  match s with
  | EmptyString => EmptyString
  | String c s' => escape_char c +:+ escape s'
  end.

Definition quote (s : string) : string := dquote +:+ escape s +:+ dquote.

(** [JSON.stringify(v)] without indentation.  In an object a key whose
    value is [undefined] is left out; in an array it is written [null]. *)
Fixpoint stringify (v : JValue) : string :=
  match v with
  | JString s => quote s
  | JNumber r => r
  | JBool true => "true"
  | JBool false => "false"
  | JNull => "null"
  | JUndefined => "null"
  | JArray items =>
      "[" +:+ String.concat "," (List.map stringify items) +:+ "]"
  | JObject fields =>
      "{" +:+ String.concat ","
                ((fix members (l : list (string * JValue)) : list string :=
                    match l with
                    | [] => []
                    | (k, x) :: l' =>
                        match x with
                        | JUndefined => members l'
                        | _ => (quote k +:+ ":" +:+ stringify x) :: members l'
                        end
                    end) fields) +:+ "}"
  end.

(** [JSON.stringify(v, null, 2)], [indent] being the indentation of the
    line on which the value starts. *)
Fixpoint stringify_indented (indent : string) (v : JValue) : string :=
  match v with
  | JString s => quote s
  | JNumber r => r
  | JBool true => "true"
  | JBool false => "false"
  | JNull => "null"
  | JUndefined => "null"
  | JArray [] => "[]"
  | JArray items =>
      "[" +:+ newline +:+
      String.concat ("," +:+ newline)
        (List.map (fun x => indent +:+ "  " +:+ stringify_indented (indent +:+ "  ") x) items) +:+
      newline +:+ indent +:+ "]"
  | JObject fields =>
      match (fix members (l : list (string * JValue)) : list string :=
               match l with
               | [] => []
               | (k, x) :: l' =>
                   match x with
                   | JUndefined => members l'
                   | _ => (indent +:+ "  " +:+ quote k +:+ ": " +:+
                           stringify_indented (indent +:+ "  ") x) :: members l'
                   end
               end) fields with
      | [] => "{}"
      | lines => "{" +:+ newline +:+ String.concat ("," +:+ newline) lines +:+
                 newline +:+ indent +:+ "}"
      end
  end.

(** [key in object] and [object.key] on a parsed object, whose keys are
    distinct. *)
Fixpoint property (key : string) (fields : list (string * JValue)) : option JValue :=
  match fields with
  | [] => None
  | (k, x) :: rest => if String.eqb k key then Some x else property key rest
  end.

(** ** Exceptions *)

(** A JavaScript [Error]: its [name], its [code] (set on the errors of
    [fs] and on the errors that Node raises itself), its [message], and
    whether it is one of the errors that Node raises itself, which print
    their code behind their name. *)
Record Exn : Type :=
  { exn_name : string; exn_code : option string; exn_message : string; exn_of_node : bool }.

(** [Error.prototype.toString] on a name and a message. *)
Definition name_and_message (name message : string) : string :=
  if String.eqb name "" then message
  else if String.eqb message "" then name
  else name +:+ ": " +:+ message.

(** [`${error}`] *)
Definition exn_text (e : Exn) : string :=
  match exn_of_node e, exn_code e with
  | true, Some code => exn_name e +:+ " [" +:+ code +:+ "]: " +:+ exn_message e
  | _, _ => name_and_message (exn_name e) (exn_message e)
  end.

Definition TypeError (message : string) : Exn :=
  {| exn_name := "TypeError"; exn_code := None; exn_message := message; exn_of_node := false |}.

Definition SyntaxError (message : string) : Exn :=
  {| exn_name := "SyntaxError"; exn_code := None; exn_message := message;
     exn_of_node := false |}.

(** [new Error(message)] *)
Definition Error (message : string) : Exn :=
  {| exn_name := "Error"; exn_code := None; exn_message := message; exn_of_node := false |}.

(** The error of a failed system call, as [fs] reports it. *)
Definition errno (code what syscall path : string) : Exn :=
  {| exn_name := "Error"; exn_code := Some code;
     exn_message := code +:+ ": " +:+ what +:+ ", " +:+ syscall +:+ " '" +:+ path +:+ "'";
     exn_of_node := false |}.

(** What the system has to say about an error code. *)
Definition describe (code : string) : string :=
  if String.eqb code "ENOENT" then "no such file or directory"
  else if String.eqb code "ENOTDIR" then "not a directory"
  else if String.eqb code "EISDIR" then "illegal operation on a directory"
  else if String.eqb code "EEXIST" then "file already exists"
  else "unknown error".

Definition fs_error (code syscall path : string) : Exn :=
  errno code (describe code) syscall path.

(** A string as [util.inspect] prints it in a message: in single quotes,
    the control characters, the quote and the backslash escaped, and cut
    after 128 characters.  (A string with a single quote in it, which
    [util.inspect] puts in other quotes, is printed with the quote
    escaped.) *)
Definition inspect_char (c : ascii) : string :=
  let n := nat_of_ascii c in
  if Nat.eqb n 8 then "\b"
  else if Nat.eqb n 9 then "\t"
  else if Nat.eqb n 10 then "\n"
  else if Nat.eqb n 12 then "\f"
  else if Nat.eqb n 13 then "\r"
  else if Nat.eqb n 39 then "\'"
  else if Nat.eqb n 92 then "\\"
  else if Nat.ltb n 32 || Nat.eqb n 127 then
    "\x" +:+ String (ascii_of_nat (if Nat.ltb (n / 16) 10 then 48 + n / 16 else 55 + n / 16))
                (String (ascii_of_nat (if Nat.ltb (n mod 16) 10 then 48 + n mod 16
                                       else 55 + n mod 16)) EmptyString)
  else String c EmptyString.

Fixpoint inspect_chars (s : string) : string :=
  match s with
  | EmptyString => EmptyString
  | String c s' => inspect_char c +:+ inspect_chars s'
  end.

Definition inspect (s : string) : string :=
  let quoted := "'" +:+ inspect_chars s +:+ "'" in
  if Nat.ltb 128 (String.length quoted) then String.substring 0 128 quoted +:+ "..."
  else quoted.

(** The error of [fs] for a path with a null byte in it. *)
Definition invalid_path (p : string) : Exn :=
  {| exn_name := "TypeError"; exn_code := Some "ERR_INVALID_ARG_VALUE";
     exn_message :=
       "The argument 'path' must be a string, Uint8Array, or URL without null bytes. Received " +:+
       inspect p;
     exn_of_node := true |}.

(** The error of reading from a descriptor that is open on a directory:
    no path is reported. *)
Definition read_error : Exn :=
  {| exn_name := "Error"; exn_code := Some "EISDIR";
     exn_message := "EISDIR: illegal operation on a directory, read";
     exn_of_node := false |}.

(** ** Paths *)

Definition slash : ascii := ascii_of_nat 47.

(** The backward scan of [path.dirname]: [rev_tail] is the path without
    its first character, last character first.  The result is what
    precedes the separator at which the scan stops. *)
Fixpoint dirname_scan (rev_tail : list ascii) (matchedSlash : bool) : option (list ascii) :=
  match rev_tail with
  | [] => None
  | c :: rest =>
      if Ascii.eqb c slash then
        if matchedSlash then dirname_scan rest true else Some rest
      else dirname_scan rest false
  end.

(** [path.dirname(p)] of the POSIX flavour of Node's [path] module. *)
Definition dirname (p : string) : string :=
  match list_ascii_of_string p with
  | [] => "."
  | c0 :: tail =>
      let hasRoot := Ascii.eqb c0 slash in
      match dirname_scan (rev tail) true with
      | None => if hasRoot then "/" else "."
      | Some [] => if hasRoot then "//" else string_of_list_ascii [c0]
      | Some rest => string_of_list_ascii (c0 :: rev rest)
      end
  end.

(** The key under which the disk holds what a path names: the components
    of the path after the empty ones and [.] are dropped and [..] has
    cancelled its parent.  The process is taken to run with the root
    directory as working directory, so that the relative and the absolute
    spelling of a path name the same file.  This is where a walk along the
    path arrives when it arrives; whether it does is up to the disk
    ([walk], [place]). *)
Definition resolve_step (above : list string) (segment : string) : list string :=
  if String.eqb segment "" then above
  else if String.eqb segment "." then above
  else if String.eqb segment ".." then removelast above
  else above ++ [segment].

Definition resolve (p : string) : list string :=
  foldl resolve_step [] (split slash p).

(** The components of a path: what stands between its separators, without
    the empty strings that doubled, leading and trailing separators leave. *)
Definition components (p : string) : list string :=
  List.filter (fun segment => negb (String.eqb segment "")) (split slash p).

(** The path has a null byte in it. *)
Definition has_null (p : string) : bool :=
  existsb (fun c => Nat.eqb (nat_of_ascii c) 0) (list_ascii_of_string p).

(** The path ends with a separator. *)
Definition trailing_slash (p : string) : bool :=
  match rev (list_ascii_of_string p) with
  | c :: _ => Ascii.eqb c slash
  | [] => false
  end.

(** ** The disk *)

(** The disk is that of a Linux system, seen by a process that may read
    and write all of it: it holds directories and regular files only, has
    room for what is written, and sets no limit to the length of a name. *)
Inductive Node : Type :=
  | File (data : string)
  | Dir.

(** The root directory always exists and is not stored. *)
Definition node_at (d : gmap (list string) Node) (k : list string) : option Node :=
  match k with
  | [] => Some Dir
  | _ => d !! k
  end.

(** The walk of the system along the components of a path, from the
    directory [above]: every component that is a name must be a directory
    that exists.  The result is the directory reached, or the code of the
    error. *)
Fixpoint walk (d : gmap (list string) Node) (above : list string) (segments : list string)
  : string + list string :=
  match segments with
  | [] => inr above
  | segment :: rest =>
      if String.eqb segment "" then walk d above rest
      else if String.eqb segment "." then walk d above rest
      else if String.eqb segment ".." then walk d (removelast above) rest
      else match d !! (above ++ [segment]) with
           | Some Dir => walk d (above ++ [segment]) rest
           | Some (File _) => inl "ENOTDIR"
           | None => inl "ENOENT"
           end
  end.

(** What is made of a path before its last component is looked at: [fs]
    refuses it for a null byte; or the system cannot follow it; or it names
    a directory outright, being the root or ending in [.] or [..]; or it
    names the entry [k] of a directory that exists, and ends with a
    separator or not. *)
Inductive Place : Type :=
  | Unusable
  | Nowhere (code : string)
  | Directory (k : list string)
  | Entry (k : list string) (slash : bool).

Definition place (p : string) (d : gmap (list string) Node) : Place :=
  if has_null p then Unusable
  else if String.eqb p "" then Nowhere "ENOENT"
  else
    match walk d [] (removelast (components p)) with
    | inl code => Nowhere code
    | inr parent =>
        let name := List.last (components p) "." in
        if String.eqb name "." then Directory parent
        else if String.eqb name ".." then Directory (removelast parent)
        else Entry (parent ++ [name]) (trailing_slash p)
    end.

(** [mkdir -p] along the components of [p], from the directory [above]: a
    missing directory is created, a file in the way is an error ([EEXIST]
    when the path ends there, [ENOTDIR] when it goes on, be it by a
    separator only).  What was created before the error stays. *)
Fixpoint mkdirp (p : string) (above segments : list string) (d : gmap (list string) Node)
  : option Exn * gmap (list string) Node :=
  match segments with
  | [] => (None, d)
  | segment :: rest =>
      if String.eqb segment "" then mkdirp p above rest d
      else if String.eqb segment "." then mkdirp p above rest d
      else if String.eqb segment ".." then mkdirp p (removelast above) rest d
      else
        let k := above ++ [segment] in
        match d !! k with
        | Some (File _) =>
            (Some (match rest with
                   | [] => if trailing_slash p then fs_error "ENOTDIR" "mkdir" p
                           else fs_error "EEXIST" "mkdir" p
                   | _ => fs_error "ENOTDIR" "mkdir" p
                   end), d)
        | Some Dir => mkdirp p k rest d
        | None => mkdirp p k rest (<[k := Dir]> d)
        end
  end.

Definition mkdir_at (p : string) (d : gmap (list string) Node)
  : option Exn * gmap (list string) Node :=
  if has_null p then (Some (invalid_path p), d)
  else if String.eqb p "" then (Some (fs_error "ENOENT" "mkdir" p), d)
  else mkdirp p [] (components p) d.

(** Opening [p] with the flag [w] (create, truncate) and writing [bytes].
    A path that ends with a separator is refused as a directory whatever it
    names. *)
Definition write_at (p : string) (bytes : string) (d : gmap (list string) Node)
  : option Exn * gmap (list string) Node :=
  match place p d with
  | Unusable => (Some (invalid_path p), d)
  | Nowhere code => (Some (fs_error code "open" p), d)
  | Directory _ => (Some (fs_error "EISDIR" "open" p), d)
  | Entry k slash =>
      if slash then (Some (fs_error "EISDIR" "open" p), d)
      else match d !! k with
           | Some Dir => (Some (fs_error "EISDIR" "open" p), d)
           | _ => (None, <[k := File bytes]> d)
           end
  end.

Definition unlink_at (p : string) (d : gmap (list string) Node)
  : option Exn * gmap (list string) Node :=
  match place p d with
  | Unusable => (Some (invalid_path p), d)
  | Nowhere code => (Some (fs_error code "unlink" p), d)
  | Directory _ => (Some (fs_error "EISDIR" "unlink" p), d)
  | Entry k slash =>
      match d !! k with
      | None => (Some (fs_error "ENOENT" "unlink" p), d)
      | Some Dir => (Some (fs_error "EISDIR" "unlink" p), d)
      | Some (File _) =>
          if slash then (Some (fs_error "ENOTDIR" "unlink" p), d)
          else (None, delete k d)
      end
  end.

(** Opening [p] for reading and reading it to its end. *)
Definition read_at (p : string) (d : gmap (list string) Node) : Exn + string :=
  match place p d with
  | Unusable => inl (invalid_path p)
  | Nowhere code => inl (fs_error code "open" p)
  | Directory _ => inl read_error
  | Entry k slash =>
      match d !! k with
      | None => inl (fs_error "ENOENT" "open" p)
      | Some Dir => inl read_error
      | Some (File data) =>
          if slash then inl (fs_error "ENOTDIR" "open" p) else inr data
      end
  end.

(** A regular file exists at [p]: it can be read there. *)
Definition file_exists (p : string) (d : gmap (list string) Node) : Prop :=
  exists data, read_at p d = inr data.

Definition dir_exists (p : string) (d : gmap (list string) Node) : Prop :=
  node_at d (resolve p) = Some Dir.

(** ** The manifest *)

Inductive Status : Type := pending | generated | deleted.

Record ManifestFile : Type :=
  { path : string; description : string; status : Status }.

Record Manifest : Type := { files : list ManifestFile }.

Definition manifestPath : string := "./autosrc.json".

Definition status_text (s : Status) : string :=
  match s with
  | pending => "pending"
  | generated => "generated"
  | deleted => "deleted"
  end.

Definition file_json (f : ManifestFile) : JValue :=
  JObject [("path", JString (path f));
           ("description", JString (description f));
           ("status", JString (status_text (status f)))].

Definition manifest_json (m : Manifest) : JValue :=
  JObject [("files", JArray (List.map file_json (files m)))].

(** [JSON.stringify(manifest, null, 2)] *)
Definition stringify_manifest (m : Manifest) : string :=
  stringify_indented "" (manifest_json m).

(** [file.status = s] on the entry at position [i]; the other entries and
    the other fields of that entry are kept. *)
Definition set_status (s : Status) (f : ManifestFile) : ManifestFile :=
  {| path := path f; description := description f; status := s |}.

(** ** Commands *)

Record AddPayload : Type := { add_path : string; add_description : string }.

(** [path] and [why] are strings as the interface declares them; [content]
    is whatever the JSON held, because the interpreter tests its type. *)
Record UpdatePayload : Type :=
  { update_path : string; update_content : JValue; update_why : string }.

Record RemovePayload : Type := { remove_path : string }.

(** A command object, seen through the keys the two programs probe with
    [in]: a field is [Some] exactly when the object has that key. *)
Record Command : Type :=
  { cmd_add : option AddPayload;
    cmd_update : option UpdatePayload;
    cmd_remove : option RemovePayload;
    cmd_finish : option string;
    cmd_continue : option (list string) }.

Definition no_keys : Command :=
  {| cmd_add := None; cmd_update := None; cmd_remove := None;
     cmd_finish := None; cmd_continue := None |}.

Definition Add (p d : string) : Command :=
  {| cmd_add := Some {| add_path := p; add_description := d |};
     cmd_update := None; cmd_remove := None; cmd_finish := None; cmd_continue := None |}.

Definition Update (p : string) (content : JValue) (why : string) : Command :=
  {| cmd_add := None;
     cmd_update := Some {| update_path := p; update_content := content; update_why := why |};
     cmd_remove := None; cmd_finish := None; cmd_continue := None |}.

Definition Remove (p : string) : Command :=
  {| cmd_add := None; cmd_update := None;
     cmd_remove := Some {| remove_path := p |};
     cmd_finish := None; cmd_continue := None |}.

Definition Finish (report : string) : Command :=
  {| cmd_add := None; cmd_update := None; cmd_remove := None;
     cmd_finish := Some report; cmd_continue := None |}.

Definition Continue (pending_files : list string) : Command :=
  {| cmd_add := None; cmd_update := None; cmd_remove := None;
     cmd_finish := None; cmd_continue := Some pending_files |}.

(** [JSON.stringify(command.update)], keys in the order of the interface. *)
Definition stringify_update (u : UpdatePayload) : string :=
  stringify (JObject [("path", JString (update_path u));
                      ("content", update_content u);
                      ("why", JString (update_why u))]).

(** ** The runtime *)

(** What [JSON.parse] makes of the text of a command file. *)
Inductive Parsed : Type :=
  | Malformed (e : Exn)
  | NotArray
  | Batch (commands : list Command).

(** What [fs.writeFile] does with its data: it refuses the data before it
    opens the file; or it opens the file, which is created or emptied,
    writes [bytes] and then, when [failure] is an exception, throws it. *)
Inductive Data : Type :=
  | Refused (e : Exn)
  | Written (bytes : string) (failure : option Exn).

(** Where the programs rely on the runtime for more than storage: what
    [fs.writeFile] does with data that is not a string, and [JSON.parse] on
    the text of a command file. *)
Class Runtime : Type :=
  { write_data : JValue -> Data;
    JSON_parse : string -> Parsed }.

(** ** Calls into the runtime *)

(** The content of a message: a text, or the base64 encoding of the bytes
    of a file, which is not spelled out. *)
Inductive Body : Type :=
  | Text (s : string)
  | Base64 (bytes : string).

Record Message : Type := { role : string; content : Body }.

(** An argument of [console.log] or [console.error]. *)
Inductive Printed : Type :=
  | PText (s : string)
  | PError (e : Exn)
  | PList (items : list Printed).

Inductive Call : Type :=
  | stdout_write (s : string)
  | console_log (args : list Printed)
  | console_error (args : list Printed)
  | fs_mkdir (dir : string)
  | fs_writeFile (p : string) (data : JValue)
  | fs_unlink (p : string)
  | fs_readFile (p : string)
  | messages_create (messages : list (option Message))
  | process_exit (code : Z).

(** ** The state of the process *)

Record Process : Type :=
  { manifest : Manifest;
    specContent : JValue;
    disk : gmap (list string) Node;
    calls : list Call }.

Definition with_manifest (m : Manifest) (st : Process) : Process :=
  {| manifest := m; specContent := specContent st; disk := disk st; calls := calls st |}.

Definition with_disk (d : gmap (list string) Node) (st : Process) : Process :=
  {| manifest := manifest st; specContent := specContent st; disk := d; calls := calls st |}.

Definition called (c : Call) (st : Process) : Process :=
  {| manifest := manifest st; specContent := specContent st; disk := disk st;
     calls := calls st ++ [c] |}.

(** ** Programs *)

(** How a computation ends: with a value, with an exception in flight, or
    with the process gone ([process.exit]). *)
Inductive Outcome (A : Type) : Type :=
  | Value (a : A)
  | Thrown (e : Exn)
  | Exited (code : Z).
Arguments Value {A} a.
Arguments Thrown {A} e.
Arguments Exited {A} code.

Definition Prog (A : Type) : Type := Process -> Outcome A * Process.

Definition ret {A} (a : A) : Prog A := fun st => (Value a, st).

Definition bind {A B} (c : Prog A) (k : A -> Prog B) : Prog B :=
  fun st =>
    match c st with
    | (Value a, st') => k a st'
    | (Thrown e, st') => (Thrown e, st')
    | (Exited code, st') => (Exited code, st')
    end.

Definition throw {A} (e : Exn) : Prog A := fun st => (Thrown e, st).

(** [try { body } catch (error) { handler }]: an exit is not caught. *)
Definition try_catch {A} (body : Prog A) (handler : Exn -> Prog A) : Prog A :=
  fun st =>
    match body st with
    | (Thrown e, st') => handler e st'
    | r => r
    end.

Definition call (c : Call) : Prog unit := fun st => (Value tt, called c st).

(** [process.exit(code)] *)
Definition exit {A} (code : Z) : Prog A :=
  fun st => (Exited code, called (process_exit code) st).

(** An operation of the disk, lifted: the error it returns is thrown. *)
Definition on_disk (op : gmap (list string) Node -> option Exn * gmap (list string) Node)
  : Prog unit :=
  fun st =>
    match op (disk st) with
    | (None, d) => (Value tt, with_disk d st)
    | (Some e, d) => (Thrown e, with_disk d st)
    end.

Declare Scope prog_scope.
Delimit Scope prog_scope with prog.
Notation "x <- c ;; k" := (bind c (fun x => k))
  (at level 100, c at next level, right associativity) : prog_scope.
Notation "c ;; k" := (bind c (fun _ => k))
  (at level 100, right associativity) : prog_scope.
Local Open Scope prog_scope.

(** ** The calls of [fs/promises] *)

Section Programs.
Context {rt : Runtime}.

(** [fs.mkdir(dir, { recursive: true })] *)
Definition mkdir (dir : string) : Prog unit :=
  call (fs_mkdir dir);;
  on_disk (mkdir_at dir).

(** What [fs.writeFile] does with [data]: a string is written as it is. *)
Definition data_of (data : JValue) : Data :=
  match data with
  | JString s => Written s None
  | _ => write_data data
  end.

(** [fs.writeFile(p, data)] *)
Definition writeFile (p : string) (data : JValue) : Prog unit :=
  call (fs_writeFile p data);;
  match data_of data with
  | Refused e => throw e
  | Written bytes failure =>
      on_disk (write_at p bytes);;
      match failure with
      | Some e => throw e
      | None => ret tt
      end
  end.

(** [fs.unlink(p)] *)
Definition unlink (p : string) : Prog unit :=
  call (fs_unlink p);;
  on_disk (unlink_at p).

(** [fs.readFile(p)] *)
Definition readFile (p : string) : Prog string :=
  call (fs_readFile p);;
  fun st =>
    match read_at p (disk st) with
    | inr data => (Value data, st)
    | inl e => (Thrown e, st)
    end.

(** ** [SourceGenerator] *)

Definition saveManifest : Prog unit :=
  fun st => writeFile manifestPath (JString (stringify_manifest (manifest st))) st.

(** [this.manifest.files.push(entry)] *)
Definition push (entry : ManifestFile) : Prog unit :=
  fun st => (Value tt, with_manifest {| files := files (manifest st) ++ [entry] |} st).

(** [this.manifest.files.find(f => f.path === filePath)], as the position
    of the entry found. *)
Definition find (filePath : string) : Prog (option nat) :=
  fun st =>
    (Value (fst <$> list_find (fun f => path f = filePath) (files (manifest st))), st).

(** [file.status = s] on the entry that [find] returned. *)
Definition assign_status (i : nat) (s : Status) : Prog unit :=
  fun st =>
    (Value tt, with_manifest {| files := alter (set_status s) i (files (manifest st)) |} st).

(** The body of the loop of [processCommands]; [true] when the body leaves
    the function by [return true]. *)
Definition command_body (command : Command) : Prog bool :=
  match cmd_add command with
  | Some a =>
      call (stdout_write ("ADD " +:+ add_path a +:+ newline));;
      push {| path := add_path a; description := add_description a; status := pending |};;
      saveManifest;;
      ret false
  | None =>
  match cmd_update command with
  | Some u =>
      let filePath := update_path u in
      let content := update_content u in
      call (stdout_write ("UPDATE " +:+ filePath +:+ newline));;
      (if typeof_is_string content then ret tt
       else call (console_error
                    [PText ("Claude returned unexpected file content: " +:+ stringify_update u)]));;
      let dir := dirname filePath in
      mkdir dir;;
      writeFile filePath content;;
      file <- find filePath;;
      match file with
      | Some i => assign_status i generated;; saveManifest;; ret false
      | None => ret false
      end
  | None =>
  match cmd_remove command with
  | Some r =>
      let filePath := remove_path r in
      call (stdout_write ("REMOVE " +:+ filePath +:+ newline));;
      unlink filePath;;
      file <- find filePath;;
      match file with
      | Some i => assign_status i deleted;; saveManifest;; ret false
      | None => ret false
      end
  | None =>
  match cmd_finish command with
  | Some report =>
      call (stdout_write (newline +:+ "Generation complete!" +:+ newline));;
      call (stdout_write report);;
      ret true
  | None => ret false
  end end end end.

(** [for (const command of commands) { ... } return false] *)
Fixpoint for_commands (commands : list Command) : Prog bool :=
  match commands with
  | [] => ret false
  | command :: rest =>
      returned <- command_body command;;
      if returned then ret true else for_commands rest
  end.

Definition processCommands (commands : list Command) : Prog bool :=
  call (stdout_write ("Received " +:+ pretty (length commands) +:+ " commands from Claude" +:+ newline));;
  for_commands commands.

(** ** The generation loop *)

(** The two fixed texts of the request of [generate]. *)
Definition continue_text : string :=
  "Your next response must be entirely in well-formed JSON format.

Continue generating project files. Start by picking just one file to generate (or update). Skip any that are already marked in the manifest as generated.".

Definition instructions_text : string :=
  "Organize your reponse as a queue of command objects:
- If in order to comlpete the project, you need to add a file to the manifest, then queue an ADD command with format: { add: { path: 'path of file to be added', description: 'description of the file to be added' } }
- If in order to comlpete the project, you need to generate or update a file already listed as generated in the manifest, then queue an UPDATE command with format: { update: { path: 'path of file to be added', content: 'contents of generated file', why: 'reason why file is being updated' } }
- If in order to comlpete the project, you need to remove a file already in the manifest, then queue a REMOVE command with format: { remove: { path: 'path of file to be added' } }
- If in order to comlpete the project, you determine there are absolutely no more files to be added, updated, or removed, then queue a FINISH command with format: { finish: 'final report once no more files need to be added, updated, or removed' }

Include file contents in UPDATE commands.

Your response must not contain any FINISH command if you know there are more files to be added, updated, or removed.

Respond with a JSON array of command objects (of type ADD, or UPDATE, or REMOVE, or FINISH) with one the specific formats described above.

Your response must contain only the JSON array of commands, with no formatting or additional explanation.".

Definition user (text : string) : Message := {| role := "user"; content := Text text |}.

(** How a value that is no object prints in the message of an error. *)
Definition primitive_text (v : JValue) : string :=
  match v with
  | JNumber r => r
  | JBool true => "true"
  | JBool false => "false"
  | JNull => "null"
  | JUndefined => "undefined"
  | _ => ""
  end.

(** The callback of [this.specContent.map] in [preload]: the promise it
    returns, already settled, or the exception it throws at once. *)
Definition preload_clause (clause : JValue) : Prog (Exn + option Message) :=
  match clause with
  | JString s => ret (inr (Some (user s)))
  | JObject fields =>
      match property "import" fields with
      | Some (JString file) =>
          try_catch
            (buffer <- readFile file;;
             ret (inr (Some {| role := "user"; content := Base64 buffer |})))
            (fun e => ret (inl e))
      | _ => ret (inr None)
      end
  | JArray _ => ret (inr None)
  | _ => throw (TypeError ("Cannot use 'in' operator to search for 'import' in " +:+
                           primitive_text clause))
  end.

Fixpoint map_clauses (clauses : list JValue) : Prog (list (Exn + option Message)) :=
  match clauses with
  | [] => ret []
  | clause :: rest =>
      promise <- preload_clause clause;;
      promises <- map_clauses rest;;
      ret (promise :: promises)
  end.

(** [Promise.all]: the values when every promise is fulfilled, otherwise
    the rejection of the first one that is rejected. *)
Fixpoint Promise_all {A} (promises : list (Exn + A)) : Prog (list A) :=
  match promises with
  | [] => ret []
  | inl e :: _ => throw e
  | inr a :: rest => values <- Promise_all rest;; ret (a :: values)
  end.

(** The exception of [this.specContent.map(...)] on a specification that
    is not an array. *)
Definition not_mappable (spec : JValue) : Exn :=
  match spec with
  | JNull => TypeError "Cannot read properties of null (reading 'map')"
  | JUndefined => TypeError "Cannot read properties of undefined (reading 'map')"
  | _ => TypeError "this.specContent.map is not a function"
  end.

Definition preload : Prog (list (option Message)) :=
  fun st =>
    match specContent st with
    | JArray clauses => (promises <- map_clauses clauses;; Promise_all promises) st
    | spec => (Thrown (not_mappable spec), st)
    end.

(** What one call of the Content Generator comes to, once
    [anthropic.messages.create] has settled and [JSON.parse] has run on the
    text of the response.  The parsed value is taken at the type the source
    gives it, [Command[]]. *)
Inductive Reply : Type :=
  | Rejects (e : Exn)
  | Unparseable (e : Exn)
  | Parses (commands : list Command).

(** [anthropic.messages.create({ ..., messages })] followed by
    [JSON.parse(response.content[0].text)]. *)
Definition create_and_parse (messages : list (option Message)) (reply : Reply)
  : Prog (list Command) :=
  call (messages_create messages);;
  match reply with
  | Rejects e => throw e
  | Unparseable e => throw e
  | Parses commands => ret commands
  end.

Definition fix_message (error : string) : option Message :=
  Some (user ("Be sure to fix this error: " +:+ error)).

Definition manifest_message (m : Manifest) : option Message :=
  Some (user (newline +:+ "Current manifest:" +:+ newline +:+ stringify_manifest m +:+
              newline +:+ newline +:+ continue_text)).

(** The messages of one request, in the order of the source. *)
Definition request (preloads : list (option Message)) (m : Manifest) (errors : list string)
  : list (option Message) :=
  preloads ++ [manifest_message m] ++ List.map fix_message errors ++ [Some (user instructions_text)].

(** How [generate] stands when it is observed: returned after a Finish, or
    at the head of its loop with the replies given so far used up, the
    local variable [errors] holding what it holds. *)
Inductive Run : Type :=
  | Finished
  | Looping (errors : list string).

(** What the body of the loop leaves in [finished] and [errors]. *)
Definition cycle (reply : Reply) (errors : list string) : Prog (bool * list string) :=
  preloads <- preload;;
  try_catch
    (commands <- (fun st => create_and_parse (request preloads (manifest st) errors) reply st);;
     finished <- processCommands commands;;
     ret (finished, errors))
    (fun error =>
       match errors with
       | _ :: _ =>
           call (console_error [PText "Failure:"; PList (List.map PText errors ++ [PError error])]);;
           exit 1
       | [] =>
           call (console_log [PError error]);;
           ret (false, split (ascii_of_nat 10) (exn_text error))
       end).

(** [generate], run against the replies of the Content Generator in the
    order in which they arrive. *)
Fixpoint generate_from (errors : list string) (replies : list Reply) : Prog Run :=
  match replies with
  | [] => ret (Looping errors)
  | reply :: later =>
      after <- cycle reply errors;;
      if fst after then ret Finished else generate_from (snd after) later
  end.

Definition generate (replies : list Reply) : Prog Run := generate_from [] replies.

End Programs.

(** ** Start-up: [init], [generateInitialManifest] and the command line *)

(** [JSON.parse] on the text of the specification, and on the text of the
    manifest document at the type the source gives the result,
    [Manifest]. *)
Class Loader : Type :=
  { parse_spec : string -> Exn + JValue;
    parse_manifest : string -> Exn + Manifest }.

(** What the one call of [generateInitialManifest] comes to: the call
    rejected, a text that [JSON.parse] rejects, or a text that parses, taken
    at the type of [Manifest.files]. *)
Inductive Plan : Type :=
  | PlanRejects (e : Exn)
  | PlanUnparseable (e : Exn)
  | PlanParses (planned : list ManifestFile).

Definition with_specContent (spec : JValue) (st : Process) : Process :=
  {| manifest := manifest st; specContent := spec; disk := disk st; calls := calls st |}.

Definition plan_text : string :=
    "Make a plan of all of the changes you will need to perform in order to create  a completely correct project according to the specification.
Your plan should be a list of instructions:

ADD : if you need to a new file to the project, then queue an ADD command with format: { add: { path: 'path of file to be added', description: 'description of the file to be added' } }
- If in order to comlpete the project, you need to generate or update a file already listed as generated in the manifest, then queue an UPDATE command with format: { update: { path: 'path of file to be added', content: 'contents of generated file', why: 'reason why file is being updated' } }
- If in order to comlpete the project, you need to remove a file already in the manifest, then queue a REMOVE command with format: { remove: { path: 'path of file to be added' } }
- If in order to comlpete the project, you determine there are absolutely no more files to be added, updated, or removed, then queue a FINISH command with format: { finish: 'final report once no more files need to be added, updated, or removed' }

{
  " +:+ dquote +:+
     "path" +:+ dquote +:+
     ": " +:+ dquote +:+
     "relative path to the file" +:+ dquote +:+
     ",
  " +:+ dquote +:+
     "description" +:+ dquote +:+
     ": " +:+ dquote +:+
     "description of the file's purpose" +:+ dquote +:+
     ",
  " +:+ dquote +:+
     "status" +:+ dquote +:+
     ": " +:+ dquote +:+
     "pending" +:+ dquote +:+
     "
}

Respond with only the JSON array.".

Section Startup.
Context {rt : Runtime} {ld : Loader}.

Definition generateInitialManifest (plan : Plan) : Prog unit :=
  call (stdout_write ("Generating initial manifest" +:+ newline));;
  (fun st =>
     let message := "Given this project specification:" +:+ newline +:+
                    stringify_indented "" (specContent st) +:+ newline +:+ newline +:+
                    plan_text in
     (call (messages_create [Some (user message)]);;
      match plan with
      | PlanRejects e => throw e
      | PlanUnparseable e =>
          try_catch (throw e)
            (fun error =>
               call (console_error [PText "Failed to parse initial manifest:"; PError error]);;
               exit 1)
      | PlanParses planned =>
          try_catch
            ((fun st' => (Value tt, with_manifest {| files := planned |} st'));;
             saveManifest)
            (fun error =>
               call (console_error [PText "Failed to parse initial manifest:"; PError error]);;
               exit 1)
      end) st).

(** [init], for the generator made with [new SourceGenerator(specPath)]. *)
Definition init (specPath : string) (plan : Plan) : Prog unit :=
  try_catch
    (specRaw <- readFile specPath;;
     match parse_spec specRaw with
     | inl e => throw e
     | inr spec =>
         (fun st => (Value tt, with_specContent spec st));;
         try_catch
           (manifestRaw <- readFile manifestPath;;
            match parse_manifest manifestRaw with
            | inl e => throw e
            | inr m => fun st => (Value tt, with_manifest m st)
            end)
           (fun _ => generateInitialManifest plan)
     end)
    (fun error =>
       call (console_error [PText "Failed to initialize:"; PError error]);;
       exit 1).

(** The action of the command: [ANTHROPIC_API_KEY] as the environment has
    it, the argument [spec], and what the Content Generator will reply. *)
Definition action (api_key : option string) (spec : string) (plan : Plan)
    (replies : list Reply) : Prog Run :=
  if match api_key with
     | None => true
     | Some key => String.eqb key ""
     end
  then
    call (console_error [PText "Error: ANTHROPIC_API_KEY environment variable is required"]);;
    exit 1
  else
    init spec plan;;
    generate replies.

End Startup.

(** ** The single-shot variant of the generator *)

(** The earlier variant of [index.ts]: the same interpreter, reporting
    through [console.log], and a loop without retry. *)
Module SingleShot.
Section Programs.
Context {rt : Runtime}.

Definition command_body (command : Command) : Prog bool :=
  match cmd_add command with
  | Some a =>
      call (console_log [PText ("ADD " +:+ add_path a)]);;
      push {| path := add_path a; description := add_description a; status := pending |};;
      saveManifest;;
      ret false
  | None =>
  match cmd_update command with
  | Some u =>
      let filePath := update_path u in
      let content := update_content u in
      call (console_log [PText ("UPDATE " +:+ filePath)]);;
      (if typeof_is_string content then ret tt
       else call (console_error
                    [PText ("Claude returned unexpected file content: " +:+ stringify_update u)]));;
      let dir := dirname filePath in
      mkdir dir;;
      writeFile filePath content;;
      file <- find filePath;;
      match file with
      | Some i => assign_status i generated;; saveManifest;; ret false
      | None => ret false
      end
  | None =>
  match cmd_remove command with
  | Some r =>
      let filePath := remove_path r in
      call (console_log [PText ("REMOVE " +:+ filePath)]);;
      unlink filePath;;
      file <- find filePath;;
      match file with
      | Some i => assign_status i deleted;; saveManifest;; ret false
      | None => ret false
      end
  | None =>
  match cmd_finish command with
  | Some report =>
      call (console_log [PText (newline +:+ "Generation complete!")]);;
      call (console_log [PText report]);;
      ret true
  | None => ret false
  end end end end.

Fixpoint for_commands (commands : list Command) : Prog bool :=
  match commands with
  | [] => ret false
  | command :: rest =>
      returned <- command_body command;;
      if returned then ret true else for_commands rest
  end.

Definition processCommands (commands : list Command) : Prog bool :=
  call (console_log [PText ("Received " +:+ pretty (length commands) +:+ " commands from Claude")]);;
  for_commands commands.

Definition formats_text : string :=
    "Please continue generating source files, skipping any that are already marked as generated.
Respond with a JSON array of command objects with one of these formats:

ADD: { " +:+ dquote +:+
     "add" +:+ dquote +:+
     ": { " +:+ dquote +:+
     "path" +:+ dquote +:+
     ": " +:+ dquote +:+
     "file path" +:+ dquote +:+
     ", " +:+ dquote +:+
     "description" +:+ dquote +:+
     ": " +:+ dquote +:+
     "file description" +:+ dquote +:+
     " } }
UPDATE: { " +:+ dquote +:+
     "update" +:+ dquote +:+
     ": { " +:+ dquote +:+
     "path" +:+ dquote +:+
     ": " +:+ dquote +:+
     "file path" +:+ dquote +:+
     ", " +:+ dquote +:+
     "content" +:+ dquote +:+
     ": " +:+ dquote +:+
     "file contents" +:+ dquote +:+
     ", " +:+ dquote +:+
     "why" +:+ dquote +:+
     ": " +:+ dquote +:+
     "reason for update" +:+ dquote +:+
     " } }
REMOVE: { " +:+ dquote +:+
     "remove" +:+ dquote +:+
     ": { " +:+ dquote +:+
     "path" +:+ dquote +:+
     ": " +:+ dquote +:+
     "file path" +:+ dquote +:+
     " } }
FINISH: { " +:+ dquote +:+
     "finish" +:+ dquote +:+
     ": " +:+ dquote +:+
     "final report" +:+ dquote +:+
     " }

Generate only files that haven't been generated yet. Include file contents in UPDATE commands.
Respond with only the JSON array of commands.".

(** The one message of a request. *)
Definition message (spec : JValue) (m : Manifest) : string :=
  "Project specification:" +:+ newline +:+ stringify_indented "" spec +:+ newline +:+ newline +:+
  "Current manifest:" +:+ newline +:+ stringify_manifest m +:+ newline +:+ newline +:+
  formats_text.

(** A reply, with the text of the response when there is one. *)
Inductive Reply : Type :=
  | Rejects (e : Exn)
  | Unparseable (text : string) (e : Exn)
  | Parses (text : string) (commands : list Command).

Definition failure_of (reply : Reply) : option Exn :=
  match reply with
  | Rejects e => Some e
  | Unparseable _ e => Some e
  | Parses _ _ => None
  end.

(** The body of the loop: what it leaves in [finished]. *)
Definition cycle (reply : Reply) : Prog bool :=
  fun st =>
    let message := message (specContent st) (manifest st) in
    try_catch
      (call (messages_create [Some (user message)]);;
       commands <- match reply with
                   | Rejects e => throw e
                   | Unparseable text e =>
                       call (console_log [PText ("RESPONSE: " +:+ text)]);; throw e
                   | Parses text commands =>
                       call (console_log [PText ("RESPONSE: " +:+ text)]);; ret commands
                   end;;
       processCommands commands)
      (fun error =>
         call (console_error [PText "Error during generation:"; PError error]);;
         exit 1)
      st.

Fixpoint generate (replies : list Reply) : Prog Run :=
  match replies with
  | [] => ret (Looping [])
  | reply :: later =>
      finished <- cycle reply;;
      if finished then ret Finished else generate later
  end.

End Programs.
End SingleShot.

(** ** The batch-replay client ([batchDownload.ts]) *)

Section BatchDownload.
Context {rt : Runtime}.

Definition ensureDirectoryExists (filePath : string) : Prog unit :=
  try_catch (mkdir (dirname filePath))
    (fun error =>
       if bool_decide (exn_code error <> Some "EEXIST") then throw error else ret tt).

Fixpoint forEach {A} (f : A -> Prog unit) (l : list A) : Prog unit :=
  match l with
  | [] => ret tt
  | x :: rest => f x;; forEach f rest
  end.

(** The body of the loop of [processCommandFile].  The three matches are
    the tests [isUpdateCommand], [isContinueCommand] and [isFinishCommand],
    in the order of the source. *)
Definition replay_command (command : Command) : Prog unit :=
  match cmd_update command with
  | Some u =>
      let p := update_path u in
      call (stdout_write (newline +:+ "Processing file: " +:+ p +:+ newline));;
      call (stdout_write ("Reason: " +:+ update_why u +:+ newline));;
      try_catch
        (ensureDirectoryExists p;;
         writeFile p (update_content u);;
         call (stdout_write ("Successfully wrote: " +:+ p +:+ newline)))
        (fun error =>
           call (stdout_write ("Error writing file " +:+ p +:+ ": " +:+ exn_text error +:+ newline)))
  | None =>
  match cmd_continue command with
  | Some pending_files =>
      if Nat.ltb 0 (length pending_files) then
        call (stdout_write (newline +:+ "Pending files to be processed:" +:+ newline));;
        forEach (fun file => call (stdout_write ("- " +:+ file +:+ newline))) pending_files
      else ret tt
  | None =>
  match cmd_finish command with
  | Some report =>
      call (stdout_write (newline +:+ "Final Report:" +:+ newline));;
      call (stdout_write (report +:+ newline));;
      call (stdout_write (newline +:+ "Processing complete!" +:+ newline))
  | None => ret tt
  end end end.

(** [JSON.parse(fileContent)] followed by the [Array.isArray] test. *)
Definition parse_commands (fileContent : string) : Prog (list Command) :=
  match JSON_parse fileContent with
  | Malformed e => throw e
  | NotArray => throw (Error "Commands must be an array")
  | Batch commands => ret commands
  end.

Definition processCommandFile (filePath : string) : Prog unit :=
  try_catch
    (call (stdout_write ("Reading command file: " +:+ filePath +:+ "..." +:+ newline));;
     fileContent <- readFile filePath;;
     parsed <- try_catch
                 (commands <- parse_commands fileContent;; ret (Some commands))
                 (fun error =>
                    call (stdout_write ("Error parsing JSON from " +:+ filePath +:+ ": " +:+
                                        exn_text error +:+ newline));;
                    ret None);;
     match parsed with
     | None => ret tt
     | Some commands => forEach replay_command commands
     end)
    (fun error =>
       call (stdout_write ("Error processing file " +:+ filePath +:+ ": " +:+
                           exn_text error +:+ newline))).

(** [main], given [process.argv.slice(2)]. *)
Definition main (commandFiles : list string) : Prog unit :=
  if Nat.eqb (length commandFiles) 0 then
    call (stdout_write ("Please provide at least one command file as an argument." +:+ newline));;
    exit 1
  else
    call (stdout_write ("Processing " +:+ pretty (length commandFiles) +:+
                        " command file(s)..." +:+ newline +:+ newline));;
    forEach processCommandFile commandFiles.

(** [main().catch(error => { ...; process.exit(1) })] *)
Definition main_guarded (commandFiles : list string) : Prog unit :=
  try_catch (main commandFiles)
    (fun error =>
       call (stdout_write ("Unhandled error: " +:+ exn_text error +:+ newline));;
       exit 1).

End BatchDownload.

(** ** A runtime to run the programs on *)

Definition command_json (c : Command) : JValue :=
  JObject
    [("add", from_option (fun a => JObject [("path", JString (add_path a));
                                            ("description", JString (add_description a))])
               JUndefined (cmd_add c));
     ("update", from_option (fun u => JObject [("path", JString (update_path u));
                                               ("content", update_content u);
                                               ("why", JString (update_why u))])
                  JUndefined (cmd_update c));
     ("remove", from_option (fun r => JObject [("path", JString (remove_path r))])
                  JUndefined (cmd_remove c));
     ("finish", from_option JString JUndefined (cmd_finish c));
     ("continue", from_option (fun l => JArray (List.map JString l)) JUndefined (cmd_continue c))].

(** [JSON.stringify(commands)] *)
Definition batch_text (commands : list Command) : string :=
  stringify (JArray (List.map command_json commands)).

(** [JSON.parse] on the texts of the given batches, which it maps back to
    the batches; any other text is taken to be malformed at its first
    character. *)
Fixpoint parse_known (known : list (list Command)) (text : string) : Parsed :=
  match known with
  | [] =>
      Malformed (SyntaxError
                   match text with
                   | EmptyString => "Unexpected end of JSON input"
                   | String c _ =>
                       "Unexpected token " +:+ String c EmptyString +:+ " in JSON at position 0"
                   end)
  | commands :: others =>
      if String.eqb text (batch_text commands) then Batch commands
      else parse_known others text
  end.

(** The error of Node for an argument of the wrong type. *)
Definition invalid_arg_type (expected received : string) : Exn :=
  {| exn_name := "TypeError"; exn_code := Some "ERR_INVALID_ARG_TYPE";
     exn_message := expected +:+ " Received " +:+ received; exn_of_node := true |}.

Definition received (v : JValue) : string :=
  match v with
  | JString s => "type string ('" +:+ s +:+ "')"
  | JNumber r => "type number (" +:+ r +:+ ")"
  | JBool _ => "type boolean (" +:+ primitive_text v +:+ ")"
  | JNull => "null"
  | JUndefined => "undefined"
  | JArray _ => "an instance of Array"
  | JObject _ => "an instance of Object"
  end.

Definition data_expected : string :=
  "The " +:+ dquote +:+ "data" +:+ dquote +:+
  " argument must be of type string or an instance of Buffer, TypedArray, or DataView.".

Definition chunk_expected : string :=
  "The first argument must be of type string or an instance of Buffer, ArrayBuffer, or Array or an Array-like Object.".

(** The chunks of an iterable, written one after the other to the open
    file until one of them is no string. *)
Fixpoint chunks (items : list JValue) (written : string) : Data :=
  match items with
  | [] => Written written None
  | JString s :: rest => chunks rest (written +:+ s)
  | x :: _ => Written written (Some (invalid_arg_type chunk_expected (received x)))
  end.

(** [fs.writeFile] of Node on the data of the examples: a number, a
    boolean, [null] and a plain object are refused before the file is
    opened; an array is iterated with the file open, its strings written
    as they come, and a number, a boolean, [null] or a plain object among
    them ends the write with an exception.  (An array or an array-like
    object inside an array is taken to end the write too; the examples have
    none.) *)
Definition node_data (v : JValue) : Data :=
  match v with
  | JString s => Written s None
  | JArray items => chunks items ""
  | _ => Refused (invalid_arg_type data_expected (received v))
  end.

Definition node_runtime (known : list (list Command)) : Runtime :=
  {| write_data := node_data;
     JSON_parse := fun text => if String.eqb text "{}" then NotArray else parse_known known text |}.

Definition boot (m : Manifest) (d : gmap (list string) Node) : Process :=
  {| manifest := m; specContent := JArray []; disk := d; calls := [] |}.

(** * The vocabulary of the properties *)

(** The position of the first entry whose path is [p]. *)
Definition first_match (p : string) (fs : list ManifestFile) : option nat :=
  fst <$> list_find (fun f => path f = p) fs.

(** What a command may do to the sequence of entries. *)
Inductive manifest_step (c : Command) (fs : list ManifestFile) : list ManifestFile -> Prop :=
  | step_same : manifest_step c fs fs
  | step_add a :
      cmd_add c = Some a ->
      manifest_step c fs
        (fs ++ [{| path := add_path a; description := add_description a; status := pending |}])
  | step_update u i :
      cmd_add c = None -> cmd_update c = Some u ->
      first_match (update_path u) fs = Some i ->
      manifest_step c fs (alter (set_status generated) i fs)
  | step_remove r i :
      cmd_add c = None -> cmd_update c = None -> cmd_remove c = Some r ->
      first_match (remove_path r) fs = Some i ->
      manifest_step c fs (alter (set_status deleted) i fs).

(** The state [st] with the disk [d] and with the calls [more] made
    since. *)
Definition moved (st : Process) (d : gmap (list string) Node) (more : list Call) : Process :=
  {| manifest := manifest st; specContent := specContent st; disk := d;
     calls := calls st ++ more |}.

(** The calls an Update makes up to [mkdir]. *)
Definition mkdir_calls (u : UpdatePayload) : list Call :=
  [stdout_write ("UPDATE " +:+ update_path u +:+ newline)] ++
  (if typeof_is_string (update_content u) then []
   else [console_error [PText ("Claude returned unexpected file content: " +:+ stringify_update u)]]) ++
  [fs_mkdir (dirname (update_path u))].

(** The calls an Update makes before it turns to the manifest. *)
Definition update_calls (u : UpdatePayload) : list Call :=
  mkdir_calls u ++ [fs_writeFile (update_path u) (update_content u)].

(** The exception with which a reply makes the call or the parse fail. *)
Definition failure_of (reply : Reply) : option Exn :=
  match reply with
  | Rejects e => Some e
  | Unparseable e => Some e
  | Parses _ => None
  end.

(** The [catch] clause of [generate], from the state in which the
    exception was thrown. *)
Definition caught (errors : list string) (error : Exn) (st : Process)
  : Outcome (bool * list string) * Process :=
  match errors with
  | [] => (Value (false, split (ascii_of_nat 10) (exn_text error)),
           called (console_log [PError error]) st)
  | _ :: _ =>
      (Exited 1,
       called (process_exit 1)
         (called (console_error [PText "Failure:"; PList (List.map PText errors ++ [PError error])])
            st))
  end.

(** The [try] block of [generate]: the request, the parse of the reply,
    and the commands applied. *)
Definition attempt {rt : Runtime} (preloads : list (option Message)) (reply : Reply)
    (errors : list string) : Prog bool :=
  commands <- (fun st => create_and_parse (request preloads (manifest st) errors) reply st);;
  processCommands commands.

(** The state in which [processCommandFile] parses what it has read. *)
Definition opened (filePath : string) (st : Process) : Process :=
  called (fs_readFile filePath)
    (called (stdout_write ("Reading command file: " +:+ filePath +:+ "..." +:+ newline)) st).

(** The state in which the batch-replay client turns to the file of an
    Update. *)
Definition announced (u : UpdatePayload) (st : Process) : Process :=
  called (stdout_write ("Reason: " +:+ update_why u +:+ newline))
    (called (stdout_write (newline +:+ "Processing file: " +:+ update_path u +:+ newline)) st).

(** ** Inputs to run the programs on *)

Definition node : Runtime := node_runtime [].

Definition empty_disk : gmap (list string) Node := ∅.

Definition fresh : Process := boot {| files := [] |} empty_disk.

Definition bad_json : Exn := SyntaxError "Unexpected token < in JSON at position 0".

Definition overloaded : Exn := Error "529 overloaded_error".

Definition numeric_update : Command := Update "out/a.txt" (JNumber "42") "first version".

(** An Update whose content is an array of a string and a number. *)
Definition mixed_update : Command :=
  Update "src/a.ts" (JArray [JString "a"; JNumber "1"]) "second version".

(** A batch that puts a directory in the place of the manifest document
    and then adds an entry. *)
Definition displaced_document : list Command :=
  [Remove "./autosrc.json"; Update "autosrc.json/x" (JString "y") "w"; Add "p" "d"].

Definition deleted_a : Process :=
  boot {| files := [{| path := "src/a.ts"; description := "d"; status := deleted |}] |} empty_disk.

(** The state in which the loop of [processCommands] starts. *)
Definition entered (commands : list Command) (st : Process) : Process :=
  called (stdout_write ("Received " +:+ pretty (length commands) +:+
                        " commands from Claude" +:+ newline)) st.

(** The interpreter takes [c] for a Finish: it has the key and none of the
    keys probed before it. *)
Definition taken_for_finish (c : Command) : bool :=
  match cmd_add c, cmd_update c, cmd_remove c, cmd_finish c with
  | None, None, None, Some _ => true
  | _, _, _, _ => false
  end.

Definition is_create (c : Call) : bool :=
  match c with messages_create _ => true | _ => false end.

Definition remove_then_finish : list Command := [Remove "missing.txt"; Finish "done"].

Definition generated_a : Process :=
  boot {| files := [{| path := "src/a.ts"; description := "d"; status := generated |}] |}
       (<[["src"; "a.ts"] := File "export const a = 1;"]> (<[["src"] := Dir]> empty_disk)).

Definition listed_manifest : Process :=
  boot {| files := [{| path := "./autosrc.json"; description := "the manifest";
                       status := generated |}] |}
       (<[["autosrc.json"] := File "{}"]> empty_disk).

Definition pending_a : Process :=
  boot {| files := [{| path := "src/a.ts"; description := "d"; status := pending |}] |} empty_disk.

Definition hello_batch : list Command :=
  [Update "out/x.txt" (JString "hello") "test"; Finish "done";
   Update "out/y.txt" (JString "after the report") "test"].

Definition replay_node : Runtime := node_runtime [hello_batch].

(** A disk with a file that is not JSON, a file that holds an object, and
    a file that holds [hello_batch]. *)
Definition replay_disk : gmap (list string) Node :=
  <[["bad.json"] := File "<html>"]>
    (<[["object.json"] := File "{}"]>
       (<[["good.json"] := File (batch_text hello_batch)]> empty_disk)).

(** ** Invariants of the state *)

(** The manifest document holds the serialisation of the manifest in
    memory. *)
Definition in_step (st : Process) : Prop :=
  disk st !! resolve manifestPath = Some (File (stringify_manifest (manifest st))).

(** The path that the interpreter hands to [fs] for a command. *)
Definition target (c : Command) : option string :=
  match cmd_add c, cmd_update c, cmd_remove c with
  | Some _, _, _ => None
  | None, Some u, _ => Some (update_path u)
  | None, None, Some r => Some (remove_path r)
  | None, None, None => None
  end.

(** The command does not aim at the manifest document. *)
Definition spares_document (c : Command) : bool :=
  match target c with
  | Some p => bool_decide (resolve p <> resolve manifestPath)
  | None => true
  end.

(** The commands of a reply, if it has any. *)
Definition commands_of (reply : Reply) : list Command :=
  match reply with
  | Parses commands => commands
  | _ => []
  end.

(** A program keeps [I], however it ends. *)
Definition keeps (I : Process -> Prop) {A} (c : Prog A) : Prop :=
  forall st, I st -> I (snd (c st)).

(** Since the state [st0] the process has only made calls that [allowed]
    admits. *)
Definition only_called (allowed : Call -> bool) (st0 st : Process) : Prop :=
  exists l, calls st = calls st0 ++ l /\ forallb allowed l = true.

(** The calls of the interpreter: output, and [mkdir], [writeFile] and
    [unlink]. *)
Definition interpreter_call (c : Call) : bool :=
  match c with
  | stdout_write _ | console_error _ | fs_mkdir _ | fs_writeFile _ _ | fs_unlink _ => true
  | _ => false
  end.

(** The calls of the batch-replay client. *)
Definition replay_call (c : Call) : bool :=
  match c with
  | stdout_write _ | fs_readFile _ | fs_mkdir _ | fs_writeFile _ _ => true
  | _ => false
  end.

(** The number of calls of the Content Generator so far. *)
Definition invocations (st : Process) : nat :=
  length (List.filter is_create (calls st)).

(** The state after the first Add of a run: one Pending entry, and the
    manifest document on disk. *)
Definition started : Process :=
  {| manifest := {| files := [{| path := "src/a.ts"; description := "d"; status := pending |}] |};
     specContent := JArray [];
     disk := <[["autosrc.json"] :=
                 File (stringify_manifest
                         {| files := [{| path := "src/a.ts"; description := "d";
                                         status := pending |}] |})]> empty_disk;
     calls := [] |}.

(** What identifies an entry in the sequence: its path and its
    description. *)
Definition label (f : ManifestFile) : string * string := (path f, description f).

(** The labels of the entries that the Adds of a batch push. *)
Definition added (commands : list Command) : list (string * string) :=
  omap (fun c => (fun a => (add_path a, add_description a)) <$> cmd_add c) commands.

(** A manifest with two entries of one path. *)
Definition doubled : Process :=
  boot {| files := [{| path := "src/a.ts"; description := "d"; status := pending |};
                    {| path := "src/a.ts"; description := "again"; status := pending |}] |}
       empty_disk.

(** Any call at all. *)
Definition any_call (c : Call) : bool := true.

(** Any call but one of the Content Generator. *)
Definition not_create (c : Call) : bool := negb (is_create c).

(** [Array.isArray(v)] *)
Definition is_array (v : JValue) : bool :=
  match v with JArray _ => true | _ => false end.

(** The files that the clauses of a specification import, in the order of
    the clauses. *)
Definition imports (clauses : list JValue) : list string :=
  omap (fun clause =>
          match clause with
          | JObject fields =>
              match property "import" fields with
              | Some (JString file) => Some file
              | _ => None
              end
          | _ => None
          end) clauses.

(** A loader that knows the empty specification, an object as
    specification, and one manifest document. *)
Definition example_loader : Loader :=
  {| parse_spec := fun text =>
       if String.eqb text "[]" then inr (JArray [])
       else if String.eqb text "{}" then inr (JObject [])
       else inl bad_json;
     parse_manifest := fun text =>
       if String.eqb text (stringify_manifest (manifest pending_a)) then inr (manifest pending_a)
       else inl bad_json |}.


(** A disk with the two specifications and a manifest document that
    parses. *)
Definition loaded_disk : gmap (list string) Node :=
  <[["spec.json"] := File "[]"]> (<[["object.json"] := File "{}"]> (disk started)).

(** ** The disk, seen from a key *)

(** Every directory on the way to [k], [k] included, exists. *)
Definition reachable (d : gmap (list string) Node) (k : list string) : Prop :=
  forall j, j < length k -> d !! take (S j) k = Some Dir.

(** Every directory of [d] is a directory of [d']. *)
Definition keeps_directories (d d' : gmap (list string) Node) : Prop :=
  forall k, d !! k = Some Dir -> d' !! k = Some Dir.

(** The code of [unlink] on a path at which no regular file can be
    removed. *)
Definition unlink_code (p : string) (d : gmap (list string) Node) : string :=
  match place p d with
  | Unusable => "ERR_INVALID_ARG_VALUE"
  | Nowhere code => code
  | Directory _ => "EISDIR"
  | Entry k _ =>
      match d !! k with
      | None => "ENOENT"
      | Some Dir => "EISDIR"
      | Some (File _) => "ENOTDIR"
      end
  end.

(** * Properties *)

(** ** The disk *)

Arguments resolve : simpl never.
Arguments components : simpl never.
Arguments trailing_slash : simpl never.
Arguments place : simpl never.
Arguments mkdir_at : simpl never.
Arguments write_at : simpl never.
Arguments unlink_at : simpl never.
Arguments read_at : simpl never.
Arguments dirname : simpl never.
Arguments stringify_manifest : simpl never.
Arguments stringify_update : simpl never.
Arguments String.append : simpl never.

Lemma split_nonempty (sep : ascii) (s : string) : split sep s <> [].
Proof.
  destruct s as [|c s]; simpl; [discriminate|].
  destruct (Ascii.eqb c sep); [discriminate|].
  destruct (split sep s); discriminate.
Qed.

Lemma resolve_manifestPath : resolve manifestPath = ["autosrc.json"].
Proof. reflexivity. Qed.

Lemma node_at_lookup (d : gmap (list string) Node) (k : list string) :
  k <> [] -> node_at d k = d !! k.
Proof. destruct k; [congruence|reflexivity]. Qed.

(** *** Where a path leads *)

Lemma resolve_step_name (above : list string) (segment : string) :
  String.eqb segment "" = false -> String.eqb segment "." = false ->
  String.eqb segment ".." = false ->
  resolve_step above segment = above ++ [segment].
Proof. unfold resolve_step. intros -> -> ->. reflexivity. Qed.

Lemma foldl_resolve_step_filter (segments above : list string) :
  foldl resolve_step above
    (List.filter (fun segment => negb (String.eqb segment "")) segments)
  = foldl resolve_step above segments.
Proof.
  revert above. induction segments as [|segment rest IH]; intros above; [reflexivity|].
  simpl. destruct (String.eqb segment "") eqn:He; simpl.
  - rewrite IH.
    replace (resolve_step above segment) with above
      by (unfold resolve_step; rewrite He; reflexivity).
    reflexivity.
  - apply IH.
Qed.

Lemma resolve_components (p : string) :
  resolve p = foldl resolve_step [] (components p).
Proof. unfold resolve, components. symmetry. apply foldl_resolve_step_filter. Qed.

Lemma components_nonempty (p segment : string) :
  In segment (components p) -> String.eqb segment "" = false.
Proof.
  unfold components. intros H. apply List.filter_In in H as [_ H].
  apply negb_true_iff in H. exact H.
Qed.

(** A walk that arrives, arrives at the key that the path resolves to. *)
Lemma walk_arrives (d : gmap (list string) Node) (segments above k : list string) :
  walk d above segments = inr k -> k = foldl resolve_step above segments.
Proof.
  revert above. induction segments as [|segment rest IH]; intros above; simpl.
  - intros [= <-]. reflexivity.
  - unfold resolve_step.
    destruct (String.eqb segment ""); [apply IH|].
    destruct (String.eqb segment "."); [apply IH|].
    destruct (String.eqb segment ".."); [apply IH|].
    destruct (d !! (above ++ [segment])) as [[?|]|]; try discriminate. apply IH.
Qed.

(** A walk depends on the directories of the disk only. *)
Lemma walk_keeps (d d' : gmap (list string) Node) (segments above k : list string) :
  keeps_directories d d' -> walk d above segments = inr k -> walk d' above segments = inr k.
Proof.
  intros Hd. revert above. induction segments as [|segment rest IH]; intros above; simpl.
  - auto.
  - destruct (String.eqb segment ""); [apply IH|].
    destruct (String.eqb segment "."); [apply IH|].
    destruct (String.eqb segment ".."); [apply IH|].
    destruct (d !! (above ++ [segment])) as [[?|]|] eqn:Hk; try discriminate.
    rewrite (Hd _ Hk). apply IH.
Qed.

(** The entry that a path names is the one it resolves to. *)
Lemma place_Entry (p : string) (d : gmap (list string) Node) (k : list string) (slash : bool) :
  place p d = Entry k slash ->
  k = resolve p /\ k <> [] /\ slash = trailing_slash p /\
  walk d [] (removelast (components p)) = inr (removelast k).
Proof.
  unfold place. destruct (has_null p); [discriminate|].
  destruct (String.eqb p ""); [discriminate|].
  destruct (walk d [] (removelast (components p))) as [code|parent] eqn:Hw; [discriminate|].
  destruct (String.eqb (List.last (components p) ".") ".") eqn:Hdot; [discriminate|].
  destruct (String.eqb (List.last (components p) ".") "..") eqn:Hdots; [discriminate|].
  intros [= <- <-].
  assert (components p <> []) as Hne.
  { intros Hnil. rewrite Hnil in Hdot. discriminate. }
  assert (String.eqb (List.last (components p) ".") "" = false) as Hname.
  { apply (components_nonempty p). destruct (exists_last Hne) as (l & x & Hl).
    rewrite Hl, last_last. apply in_or_app. right. left. reflexivity. }
  split; [|split; [|split]].
  - rewrite resolve_components.
    rewrite (app_removelast_last "." Hne) at 2.
    rewrite foldl_app. simpl. rewrite <- (walk_arrives _ _ _ _ Hw).
    symmetry. apply resolve_step_name; assumption.
  - intros H. destruct parent; discriminate.
  - reflexivity.
  - rewrite removelast_last. reflexivity.
Qed.

Lemma place_keeps (p : string) (d d' : gmap (list string) Node) (k : list string) (slash : bool) :
  keeps_directories d d' -> place p d = Entry k slash -> place p d' = Entry k slash.
Proof.
  intros Hd. unfold place. destruct (has_null p); [discriminate|].
  destruct (String.eqb p ""); [discriminate|].
  destruct (walk d [] (removelast (components p))) as [code|parent] eqn:Hw; [discriminate|].
  rewrite (walk_keeps _ _ _ _ _ Hd Hw). auto.
Qed.

(** *** Writing *)

Lemma write_at_Some (p bytes : string) (d d' : gmap (list string) Node) (e : Exn) :
  write_at p bytes d = (Some e, d') -> d' = d /\ is_Some (exn_code e).
Proof.
  unfold write_at. destruct (place p d) as [|code| |k [|]].
  - intros [= <- <-]. split; [reflexivity|eexists; reflexivity].
  - intros [= <- <-]. split; [reflexivity|eexists; reflexivity].
  - intros [= <- <-]. split; [reflexivity|eexists; reflexivity].
  - intros [= <- <-]. split; [reflexivity|eexists; reflexivity].
  - destruct (d !! k) as [[?|]|]; intros [= <- <-] || intros [=].
    split; [reflexivity|eexists; reflexivity].
Qed.

Lemma write_at_None (p bytes : string) (d d' : gmap (list string) Node) :
  write_at p bytes d = (None, d') ->
  d' = <[resolve p := File bytes]> d /\ resolve p <> [] /\
  d !! resolve p <> Some Dir /\ place p d = Entry (resolve p) false.
Proof.
  unfold write_at. destruct (place p d) as [|code| |k [|]] eqn:Hp; try discriminate.
  destruct (place_Entry _ _ _ _ Hp) as (-> & Hne & _).
  destruct (d !! resolve p) as [[?|]|] eqn:Hn; intros [= <-] || intros [=];
    repeat split; congruence.
Qed.

(** Where a write has gone through it goes through again, on any disk that
    has kept the directories and has no directory in the place of the
    file. *)
Lemma write_at_again (p bytes bytes' : string) (d d1 d' : gmap (list string) Node) :
  write_at p bytes d = (None, d1) ->
  keeps_directories d d' -> d' !! resolve p <> Some Dir ->
  write_at p bytes' d' = (None, <[resolve p := File bytes']> d').
Proof.
  intros H Hd Hn. destruct (write_at_None _ _ _ _ H) as (_ & _ & _ & Hp).
  unfold write_at. rewrite (place_keeps _ _ _ _ _ Hd Hp).
  destruct (d' !! resolve p) as [[?|]|]; congruence.
Qed.

Lemma keeps_directories_written (d : gmap (list string) Node) (k : list string) (bytes : string) :
  d !! k <> Some Dir -> keeps_directories d (<[k := File bytes]> d).
Proof.
  intros Hn j Hj. rewrite lookup_insert_ne; [exact Hj|]. intros <-. contradiction.
Qed.

(** What has been written can be read. *)
Lemma read_at_written (p bytes : string) (d d' : gmap (list string) Node) :
  write_at p bytes d = (None, d') -> read_at p d' = inr bytes.
Proof.
  intros H. destruct (write_at_None _ _ _ _ H) as (-> & _ & Hn & Hp).
  unfold read_at.
  rewrite (place_keeps _ _ _ _ _ (keeps_directories_written _ _ bytes Hn) Hp).
  rewrite lookup_insert_eq. reflexivity.
Qed.

(** The manifest document sits in the root directory: writing it fails
    only when a directory has taken its place. *)
Lemma write_at_manifestPath (bytes : string) (d : gmap (list string) Node) :
  d !! resolve manifestPath <> Some Dir ->
  write_at manifestPath bytes d = (None, <[resolve manifestPath := File bytes]> d).
Proof.
  intros Hd. unfold write_at.
  assert (place manifestPath d = Entry ["autosrc.json"] false) as -> by reflexivity.
  rewrite resolve_manifestPath in *.
  destruct (d !! ["autosrc.json"]) as [[?|]|]; congruence.
Qed.

Lemma write_at_manifestPath_Dir (bytes : string) (d : gmap (list string) Node) :
  d !! resolve manifestPath = Some Dir ->
  write_at manifestPath bytes d = (Some (fs_error "EISDIR" "open" manifestPath), d).
Proof.
  intros Hd. unfold write_at.
  assert (place manifestPath d = Entry ["autosrc.json"] false) as -> by reflexivity.
  rewrite resolve_manifestPath in *. rewrite Hd. reflexivity.
Qed.

(** *** Reading and removing *)

Lemma file_exists_Entry (p : string) (d : gmap (list string) Node) :
  file_exists p d <->
  exists data, place p d = Entry (resolve p) false /\ d !! resolve p = Some (File data).
Proof.
  unfold file_exists, read_at. split.
  - intros [data H]. destruct (place p d) as [|code| |k slash] eqn:Hp; try discriminate.
    destruct (place_Entry _ _ _ _ Hp) as (-> & _).
    destruct (d !! resolve p) as [[data'|]|]; try discriminate.
    destruct slash; [discriminate|]. exists data'. split; reflexivity.
  - intros (data & -> & ->). exists data. reflexivity.
Qed.

Lemma file_exists_lookup (p : string) (d : gmap (list string) Node) :
  file_exists p d -> resolve p <> [] /\ exists data, d !! resolve p = Some (File data).
Proof.
  intros H. apply file_exists_Entry in H as (data & Hp & Hd).
  destruct (place_Entry _ _ _ _ Hp) as (_ & Hne & _). eauto.
Qed.

Lemma unlink_at_file (p : string) (d : gmap (list string) Node) :
  file_exists p d -> unlink_at p d = (None, delete (resolve p) d).
Proof.
  intros H. apply file_exists_Entry in H as (data & Hp & Hd).
  unfold unlink_at. rewrite Hp, Hd. reflexivity.
Qed.

Lemma unlink_at_no_file (p : string) (d : gmap (list string) Node) :
  ~ file_exists p d ->
  exists e, unlink_at p d = (Some e, d) /\ exn_code e = Some (unlink_code p d).
Proof.
  intros H. unfold unlink_at, unlink_code.
  destruct (place p d) as [|code| |k slash] eqn:Hp; try (eexists; split; reflexivity).
  destruct (d !! k) as [[data|]|] eqn:Hn; try (eexists; split; reflexivity).
  destruct slash; [eexists; split; reflexivity|].
  exfalso. apply H. apply file_exists_Entry. exists data.
  destruct (place_Entry _ _ _ _ Hp) as (-> & _). split; assumption.
Qed.

Lemma unlink_at_Some (p : string) (d d' : gmap (list string) Node) (e : Exn) :
  unlink_at p d = (Some e, d') -> d' = d.
Proof.
  unfold unlink_at. destruct (place p d) as [|code| |k slash]; try (intros [= _ <-]; reflexivity).
  destruct (d !! k) as [[data|]|]; try (intros [= _ <-]; reflexivity).
  destruct slash; [intros [= _ <-]; reflexivity|discriminate].
Qed.

Lemma unlink_at_None (p : string) (d d' : gmap (list string) Node) :
  unlink_at p d = (None, d') -> d' = delete (resolve p) d.
Proof.
  unfold unlink_at. destruct (place p d) as [|code| |k slash] eqn:Hp; try discriminate.
  destruct (place_Entry _ _ _ _ Hp) as (-> & _).
  destruct (d !! resolve p) as [[data|]|]; try discriminate.
  destruct slash; [discriminate|]. intros [= <-]. reflexivity.
Qed.

(** *** Making directories *)

(** [mkdir -p] only ever adds directories. *)
Lemma mkdirp_files (p : string) (segments above : list string) (d d' : gmap (list string) Node)
      (r : option Exn) :
  mkdirp p above segments d = (r, d') ->
  forall k data, d' !! k = Some (File data) <-> d !! k = Some (File data).
Proof.
  revert above d. induction segments as [|seg rest IH]; intros above d; simpl.
  - intros [= <- <-]. reflexivity.
  - destruct (String.eqb seg ""); [apply IH|].
    destruct (String.eqb seg "."); [apply IH|].
    destruct (String.eqb seg ".."); [apply IH|].
    destruct (d !! (above ++ [seg])) as [[?|]|] eqn:Hk.
    + intros [= <- <-]. reflexivity.
    + apply IH.
    + intros H k data. rewrite (IH _ _ H k data).
      destruct (decide (above ++ [seg] = k)) as [<-|Hne].
      * rewrite lookup_insert_eq, Hk. split; discriminate.
      * rewrite lookup_insert_ne by exact Hne. reflexivity.
Qed.

Lemma mkdir_at_files (p : string) (d d' : gmap (list string) Node) (r : option Exn) :
  mkdir_at p d = (r, d') ->
  forall k data, d' !! k = Some (File data) <-> d !! k = Some (File data).
Proof.
  unfold mkdir_at. destruct (has_null p); [intros [= <- <-]; reflexivity|].
  destruct (String.eqb p "").
  - intros [= <- <-]. reflexivity.
  - apply mkdirp_files.
Qed.

Lemma mkdirp_keeps_directories (p : string) (segments above : list string)
      (d d' : gmap (list string) Node) (r : option Exn) :
  mkdirp p above segments d = (r, d') -> keeps_directories d d'.
Proof.
  revert above d. induction segments as [|seg rest IH]; intros above d; simpl.
  - intros [= <- <-] k. auto.
  - destruct (String.eqb seg ""); [apply IH|].
    destruct (String.eqb seg "."); [apply IH|].
    destruct (String.eqb seg ".."); [apply IH|].
    destruct (d !! (above ++ [seg])) as [[?|]|] eqn:Hk.
    + intros [= <- <-] k. auto.
    + apply IH.
    + intros H k Hd. apply (IH _ _ H).
      rewrite lookup_insert_ne; [exact Hd|]. intros <-. congruence.
Qed.

Lemma mkdir_at_keeps_directories (p : string) (d d' : gmap (list string) Node) (r : option Exn) :
  mkdir_at p d = (r, d') -> keeps_directories d d'.
Proof.
  unfold mkdir_at. destruct (has_null p); [intros [= <- <-] k; auto|].
  destruct (String.eqb p "").
  - intros [= <- <-] k. auto.
  - apply mkdirp_keeps_directories.
Qed.

Lemma reachable_nil (d : gmap (list string) Node) : reachable d [].
Proof. intros j Hj. simpl in Hj. lia. Qed.

Lemma reachable_removelast (d : gmap (list string) Node) (k : list string) :
  reachable d k -> reachable d (removelast k).
Proof.
  intros H j Hj. rewrite removelast_firstn_len in *.
  rewrite length_take in Hj.
  change (firstn (Init.Nat.pred (length k)) k) with (take (Init.Nat.pred (length k)) k).
  rewrite take_take. replace (S j `min` Init.Nat.pred (length k)) with (S j) by lia.
  apply H. lia.
Qed.

Lemma reachable_snoc (d : gmap (list string) Node) (k : list string) (segment : string) :
  reachable d k -> d !! (k ++ [segment]) = Some Dir -> reachable d (k ++ [segment]).
Proof.
  intros H Hd j Hj. rewrite length_app in Hj. simpl in Hj.
  destruct (decide (j < length k)) as [Hlt|Hge].
  - rewrite take_app_le by lia. apply H. exact Hlt.
  - rewrite take_ge by (rewrite length_app; simpl; lia). exact Hd.
Qed.

Lemma reachable_keeps (d d' : gmap (list string) Node) (k : list string) :
  keeps_directories d d' -> reachable d k -> reachable d' k.
Proof. intros Hd H j Hj. apply Hd, H, Hj. Qed.

Lemma reachable_node_at (d : gmap (list string) Node) (k : list string) :
  reachable d k -> node_at d k = Some Dir.
Proof.
  intros H. destruct (decide (k = [])) as [->|Hne]; [reflexivity|].
  rewrite node_at_lookup by exact Hne.
  assert (0 < length k) as Hlen by (destruct k; [congruence|simpl; lia]).
  specialize (H (length k - 1)). rewrite take_ge in H by lia. apply H. lia.
Qed.

(** After a successful [mkdir -p] the directory asked for exists, and so
    does every directory on the way to it. *)
Lemma mkdirp_reaches (p : string) (segments above : list string) (d d' : gmap (list string) Node) :
  mkdirp p above segments d = (None, d') ->
  reachable d above -> reachable d' (foldl resolve_step above segments).
Proof.
  revert above d. induction segments as [|seg rest IH]; intros above d; simpl.
  - intros [= <-]. auto.
  - unfold resolve_step.
    destruct (String.eqb seg ""); [apply IH|].
    destruct (String.eqb seg "."); [apply IH|].
    destruct (String.eqb seg "..").
    { intros H Hr. apply (IH _ _ H). apply reachable_removelast. exact Hr. }
    destruct (d !! (above ++ [seg])) as [[?|]|] eqn:Hk; [discriminate| |].
    + intros H Hr. apply (IH _ _ H). apply reachable_snoc; assumption.
    + intros H Hr. apply (IH _ _ H). apply reachable_snoc.
      * apply (reachable_keeps d); [|exact Hr].
        intros k Hd. rewrite lookup_insert_ne; [exact Hd|]. intros <-. congruence.
      * apply lookup_insert_eq.
Qed.

Lemma mkdir_at_dir_exists (dir : string) (d d' : gmap (list string) Node) :
  mkdir_at dir d = (None, d') -> dir_exists dir d'.
Proof.
  unfold mkdir_at, dir_exists. destruct (has_null dir); [discriminate|].
  destruct (String.eqb dir ""); [discriminate|].
  intros H. rewrite resolve_components. apply reachable_node_at.
  apply (mkdirp_reaches _ _ _ _ _ H). apply reachable_nil.
Qed.

(** Where [mkdir -p] has succeeded it succeeds again, and creates nothing,
    on any disk that has the directories it left. *)
Lemma mkdirp_again (p : string) (segments above : list string)
      (d d1 d' : gmap (list string) Node) :
  mkdirp p above segments d = (None, d1) ->
  keeps_directories d1 d' ->
  mkdirp p above segments d' = (None, d').
Proof.
  revert above d. induction segments as [|seg rest IH]; intros above d; simpl; [reflexivity|].
  destruct (String.eqb seg ""); [apply IH|].
  destruct (String.eqb seg "."); [apply IH|].
  destruct (String.eqb seg ".."); [apply IH|].
  intros H Hd'.
  assert (d1 !! (above ++ [seg]) = Some Dir) as Hdir.
  { destruct (d !! (above ++ [seg])) as [[?|]|] eqn:Hk; [discriminate| |].
    - exact (mkdirp_keeps_directories _ _ _ _ _ _ H _ Hk).
    - apply (mkdirp_keeps_directories _ _ _ _ _ _ H). apply lookup_insert_eq. }
  rewrite (Hd' _ Hdir).
  destruct (d !! (above ++ [seg])) as [[?|]|]; [discriminate| |]; exact (IH _ _ H Hd').
Qed.

Lemma mkdir_at_again (p : string) (d d1 d' : gmap (list string) Node) :
  mkdir_at p d = (None, d1) -> keeps_directories d1 d' -> mkdir_at p d' = (None, d').
Proof.
  unfold mkdir_at. destruct (has_null p); [discriminate|].
  destruct (String.eqb p ""); [discriminate|]. apply mkdirp_again.
Qed.



(** ** Running the programs symbolically *)

Ltac run_step :=
  match goal with
  | |- context [match ?X with _ => _ end] =>
      lazymatch type of X with
      | (option Exn * _)%type => destruct X as [[?|] ?] eqn:?
      | option string => destruct X eqn:?
      | option nat => destruct X eqn:?
      | option Exn => destruct X eqn:?
      | (Exn + string)%type => destruct X eqn:?
      | Parsed => destruct X eqn:?
      | Data => destruct X eqn:?
      end
  | |- context [if ?b then _ else _] =>
      lazymatch type of b with bool => destruct b eqn:? end
  end.

Ltac run :=
  cbv [bind call ret throw try_catch exit on_disk]; simpl; repeat (run_step; simpl).

Lemma bind_Value {A B} (c : Prog A) (k : A -> Prog B) (st st' : Process) (a : A) :
  c st = (Value a, st') -> bind c k st = k a st'.
Proof. unfold bind. intros ->. reflexivity. Qed.

Lemma bind_Thrown {A B} (c : Prog A) (k : A -> Prog B) (st st' : Process) (e : Exn) :
  c st = (Thrown e, st') -> bind c k st = (Thrown e, st').
Proof. unfold bind. intros ->. reflexivity. Qed.

Lemma bind_Exited {A B} (c : Prog A) (k : A -> Prog B) (st st' : Process) (code : Z) :
  c st = (Exited code, st') -> bind c k st = (Exited code, st').
Proof. unfold bind. intros ->. reflexivity. Qed.

Ltac same_state :=
  unfold moved, called, with_disk, with_manifest; simpl; rewrite <- ?app_assoc; simpl;
  try reflexivity.

Section Interpreter.
Context {rt : Runtime}.

Lemma first_match_Some (p : string) (fs : list ManifestFile) (i : nat) :
  first_match p fs = Some i <->
  (exists f, fs !! i = Some f /\ path f = p) /\
  (forall k g, fs !! k = Some g -> k < i -> path g <> p).
Proof.
  unfold first_match. split.
  - destruct (list_find _ fs) as [[j f]|] eqn:H; [|discriminate].
    intros [= ->]. apply list_find_Some in H as (Hf & Hp & Hmin).
    split; [exists f; auto|]. intros k g Hg Hk. exact (Hmin k g Hg Hk).
  - intros [[f [Hf Hp]] Hmin].
    assert (list_find (fun f => path f = p) fs = Some (i, f)) as ->; [|reflexivity].
    apply list_find_Some. repeat split; auto.
Qed.

Lemma first_match_None (p : string) (fs : list ManifestFile) :
  first_match p fs = None <-> forall f, f ∈ fs -> path f <> p.
Proof.
  unfold first_match. destruct (list_find _ fs) as [[j f]|] eqn:H; simpl.
  - split; [discriminate|]. intros Hall. exfalso.
    apply list_find_Some in H as (Hf & Hp & _).
    apply (Hall f); [apply list_elem_of_lookup; eauto|exact Hp].
  - split; [|reflexivity]. intros _ f Hin Hp.
    apply list_find_None in H. rewrite Forall_forall in H. exact (H f Hin Hp).
Qed.

Lemma command_body_manifest_step (c : Command) (st : Process) :
  manifest_step c (files (manifest st)) (files (manifest (snd (command_body c st)))).
Proof.
  unfold command_body, saveManifest, writeFile, mkdir, unlink, push, find, assign_status.
  destruct (cmd_add c) as [a|] eqn:Ha.
  { run; eapply step_add; eauto. }
  destruct (cmd_update c) as [u|] eqn:Hu.
  { run; try apply step_same; eapply step_update; eauto. }
  destruct (cmd_remove c) as [r|] eqn:Hr.
  { run; try apply step_same; eapply step_remove; eauto. }
  destruct (cmd_finish c); run; apply step_same.
Qed.

Lemma alter_set_status_lookup (s : Status) (i j : nat) (fs : list ManifestFile) (f : ManifestFile) :
  fs !! j = Some f ->
  exists f', alter (set_status s) i fs !! j = Some f' /\
             path f' = path f /\ description f' = description f /\
             (status f' = status f \/ (i = j /\ status f' = s)).
Proof.
  intros Hf. destruct (decide (i = j)) as [->|Hne].
  - exists (set_status s f). rewrite list_lookup_alter_eq, Hf. simpl. repeat split; auto.
  - exists f. rewrite list_lookup_alter_ne by exact Hne. auto.
Qed.

(** One command and one entry: the entry stays where it is with its path
    and description; its status is kept, or becomes Generated when the
    command is an Update whose path it is the first to match, or Deleted
    when the command is such a Remove. *)
Lemma command_body_entry (c : Command) (st : Process) (j : nat) (f : ManifestFile) :
  files (manifest st) !! j = Some f ->
  exists f', files (manifest (snd (command_body c st))) !! j = Some f' /\
    path f' = path f /\ description f' = description f /\
    (status f' = status f \/
     (status f' = generated /\ cmd_add c = None /\
      exists u, cmd_update c = Some u /\ first_match (update_path u) (files (manifest st)) = Some j) \/
     (status f' = deleted /\ cmd_add c = None /\ cmd_update c = None /\
      exists r, cmd_remove c = Some r /\ first_match (remove_path r) (files (manifest st)) = Some j)).
Proof.
  intros Hf.
  destruct (command_body_manifest_step c st) as [|a Ha|u i Ha Hu Hi|r i Ha Hu Hr Hi].
  - exists f. auto.
  - exists f. rewrite lookup_app_l by (eapply lookup_lt_Some; eauto). auto.
  - destruct (alter_set_status_lookup generated i j _ f Hf) as (f' & H1 & H2 & H3 & [H4|[-> H4]]);
      exists f'; repeat split; eauto 10.
  - destruct (alter_set_status_lookup deleted i j _ f Hf) as (f' & H1 & H2 & H3 & [H4|[-> H4]]);
      exists f'; repeat split; eauto 10.
Qed.

(** Any batch: entries are never removed, moved or renamed, and an entry
    that has left Pending never returns to it. *)
Lemma for_commands_entry (commands : list Command) (st : Process) (j : nat) (f : ManifestFile) :
  files (manifest st) !! j = Some f ->
  exists f', files (manifest (snd (for_commands commands st))) !! j = Some f' /\
    path f' = path f /\ description f' = description f /\
    (status f <> pending -> status f' <> pending).
Proof.
  revert st f. induction commands as [|c rest IH]; intros st f Hf; simpl.
  - exists f. auto.
  - destruct (command_body_entry c st j f Hf) as (f1 & H1 & Hp & Hd & Hs).
    unfold bind. destruct (command_body c st) as [[[|]|e|code] st1]; simpl in *.
    + exists f1. repeat split; auto. intros Hn. destruct Hs as [->|[[-> _]|[-> _]]]; congruence.
    + destruct (IH st1 f1 H1) as (f' & H' & Hp' & Hd' & Hs').
      exists f'. repeat split; try congruence.
      intros Hn. apply Hs'. destruct Hs as [->|[[-> _]|[-> _]]]; congruence.
    + exists f1. repeat split; auto. intros Hn. destruct Hs as [->|[[-> _]|[-> _]]]; congruence.
    + exists f1. repeat split; auto. intros Hn. destruct Hs as [->|[[-> _]|[-> _]]]; congruence.
Qed.

(** An Add, whatever the disk: the entry is pushed and one write of the
    manifest document is attempted. *)
Lemma command_body_add (c : Command) (a : AddPayload) (st : Process) :
  cmd_add c = Some a ->
  let m' := {| files := files (manifest st) ++
                 [{| path := add_path a; description := add_description a; status := pending |}] |} in
  let said := calls st ++ [stdout_write ("ADD " +:+ add_path a +:+ newline);
                           fs_writeFile manifestPath (JString (stringify_manifest m'))] in
  command_body c st =
  match write_at manifestPath (stringify_manifest m') (disk st) with
  | (None, d) =>
      (Value false, {| manifest := m'; specContent := specContent st; disk := d; calls := said |})
  | (Some e, d) =>
      (Thrown e, {| manifest := m'; specContent := specContent st; disk := d; calls := said |})
  end.
Proof.
  intros Ha m' said. unfold command_body, saveManifest, writeFile, push. rewrite Ha.
  cbv [bind call ret throw on_disk]. simpl. fold m'.
  destruct (write_at manifestPath (stringify_manifest m') (disk st)) as [[e|] d]; simpl;
    unfold said; same_state.
Qed.

(** An Update, step by step: [mkdir], the write, and for a path with an
    entry the mark and the flush.  The first step that fails ends the
    command with its exception. *)
Lemma command_body_update (c : Command) (u : UpdatePayload) (st : Process) :
  cmd_add c = None -> cmd_update c = Some u ->
  let p := update_path u in
  command_body c st =
  match mkdir_at (dirname p) (disk st) with
  | (Some e, d1) => (Thrown e, moved st d1 (mkdir_calls u))
  | (None, d1) =>
      match data_of (update_content u) with
      | Refused e => (Thrown e, moved st d1 (update_calls u))
      | Written bytes failure =>
          match write_at p bytes d1 with
          | (Some e, d2) => (Thrown e, moved st d2 (update_calls u))
          | (None, d2) =>
              match failure with
              | Some e => (Thrown e, moved st d2 (update_calls u))
              | None =>
                  match first_match p (files (manifest st)) with
                  | None => (Value false, moved st d2 (update_calls u))
                  | Some i =>
                      let m' := {| files := alter (set_status generated) i (files (manifest st)) |} in
                      let flushed :=
                        calls st ++ update_calls u ++
                        [fs_writeFile manifestPath (JString (stringify_manifest m'))] in
                      match write_at manifestPath (stringify_manifest m') d2 with
                      | (None, d3) =>
                          (Value false,
                           {| manifest := m'; specContent := specContent st; disk := d3;
                              calls := flushed |})
                      | (Some e, d3) =>
                          (Thrown e,
                           {| manifest := m'; specContent := specContent st; disk := d3;
                              calls := flushed |})
                      end
                  end
              end
          end
      end
  end.
Proof.
  intros Ha Hu p.
  unfold command_body, saveManifest, writeFile, mkdir, find, assign_status, update_calls,
    mkdir_calls, first_match.
  rewrite Ha, Hu. fold p. cbv [bind call ret throw on_disk].
  destruct (typeof_is_string (update_content u)); simpl;
    (destruct (mkdir_at (dirname p) (disk st)) as [[e|] d1]; simpl; [same_state|]);
    (destruct (data_of (update_content u)) as [e|bytes failure]; simpl; [same_state|]);
    (destruct (write_at p bytes d1) as [[e|] d2]; simpl; [same_state|]);
    (destruct failure as [e|]; simpl; [same_state|]);
    (destruct (fst <$> list_find _ (files (manifest st))) as [i|]; simpl; [|same_state]);
    (destruct (write_at manifestPath _ d2) as [[e|] d3]; simpl; same_state).
Qed.

(** A Remove of a file that is there and is not the manifest document. *)
Lemma command_body_remove_file (c : Command) (r : RemovePayload) (st : Process) :
  cmd_add c = None -> cmd_update c = None -> cmd_remove c = Some r ->
  file_exists (remove_path r) (disk st) ->
  resolve (remove_path r) <> resolve manifestPath ->
  disk st !! resolve manifestPath <> Some Dir ->
  let gone := delete (resolve (remove_path r)) (disk st) in
  let said := calls st ++ [stdout_write ("REMOVE " +:+ remove_path r +:+ newline);
                           fs_unlink (remove_path r)] in
  command_body c st =
  (Value false,
   match first_match (remove_path r) (files (manifest st)) with
   | Some i =>
       let m' := {| files := alter (set_status deleted) i (files (manifest st)) |} in
       {| manifest := m'; specContent := specContent st;
          disk := <[resolve manifestPath := File (stringify_manifest m')]> gone;
          calls := said ++ [fs_writeFile manifestPath (JString (stringify_manifest m'))] |}
   | None =>
       {| manifest := manifest st; specContent := specContent st; disk := gone; calls := said |}
   end).
Proof.
  intros Ha Hu Hr Hfile Hother Hdoc gone said.
  unfold command_body, saveManifest, writeFile, unlink, find, assign_status.
  rewrite Ha, Hu, Hr. cbv [bind call ret on_disk]. simpl.
  rewrite (unlink_at_file _ _ Hfile). simpl. unfold first_match.
  destruct (fst <$> list_find _ (files (manifest st))) as [i|]; simpl.
  - rewrite write_at_manifestPath
      by (rewrite lookup_delete_ne by exact Hother; exact Hdoc).
    unfold said, gone. same_state.
  - unfold said, gone. same_state.
Qed.

(** A Remove where no regular file can be removed: [unlink] fails and
    nothing but the log has changed. *)
Lemma command_body_remove_no_file (c : Command) (r : RemovePayload) (st : Process) :
  cmd_add c = None -> cmd_update c = None -> cmd_remove c = Some r ->
  ~ file_exists (remove_path r) (disk st) ->
  exists e,
    command_body c st =
    (Thrown e,
     {| manifest := manifest st; specContent := specContent st; disk := disk st;
        calls := calls st ++ [stdout_write ("REMOVE " +:+ remove_path r +:+ newline);
                              fs_unlink (remove_path r)] |}) /\
    exn_code e = Some (unlink_code (remove_path r) (disk st)).
Proof.
  intros Ha Hu Hr Hfile.
  destruct (unlink_at_no_file _ _ Hfile) as (e & He & Hcode).
  exists e. split; [|assumption].
  unfold command_body, unlink. rewrite Ha, Hu, Hr. cbv [bind call ret on_disk]. simpl.
  rewrite He. simpl. same_state.
Qed.

(** A command that the interpreter takes for a Finish: the report is
    written last and the loop is left. *)
Lemma command_body_finish (c : Command) (report : string) (st : Process) :
  cmd_add c = None -> cmd_update c = None -> cmd_remove c = None ->
  cmd_finish c = Some report ->
  command_body c st =
  (Value true,
   {| manifest := manifest st; specContent := specContent st; disk := disk st;
      calls := calls st ++ [stdout_write (newline +:+ "Generation complete!" +:+ newline);
                            stdout_write report] |}).
Proof.
  intros Ha Hu Hr Hf. unfold command_body. rewrite Ha, Hu, Hr, Hf.
  cbv [bind call ret]. same_state.
Qed.

(** An object with none of the four keys. *)
Lemma command_body_unknown (c : Command) (st : Process) :
  cmd_add c = None -> cmd_update c = None -> cmd_remove c = None -> cmd_finish c = None ->
  command_body c st = (Value false, st).
Proof.
  intros Ha Hu Hr Hf. unfold command_body. rewrite Ha, Hu, Hr, Hf. reflexivity.
Qed.

(** Only a Finish makes the body return [true]. *)
Lemma command_body_true (c : Command) (st st' : Process) :
  command_body c st = (Value true, st') ->
  cmd_add c = None /\ cmd_update c = None /\ cmd_remove c = None /\ is_Some (cmd_finish c).
Proof.
  unfold command_body, saveManifest, writeFile, mkdir, unlink, push, find, assign_status.
  destruct (cmd_add c); [run; discriminate|].
  destruct (cmd_update c); [run; discriminate|].
  destruct (cmd_remove c); [run; discriminate|].
  destruct (cmd_finish c); [eauto|]. discriminate.
Qed.

Lemma for_commands_cons (c : Command) (rest : list Command) :
  for_commands (c :: rest) =
  bind (command_body c) (fun returned => if returned then ret true else for_commands rest).
Proof. reflexivity. Qed.

Lemma for_commands_app (pre post : list Command) (st : Process) :
  for_commands (pre ++ post) st =
  match for_commands pre st with
  | (Value false, st1) => for_commands post st1
  | r => r
  end.
Proof.
  revert st. induction pre as [|c pre IH]; intros st; simpl; [reflexivity|].
  unfold bind. destruct (command_body c st) as [[[|]|e|code] st1]; try reflexivity.
  apply IH.
Qed.

(** A batch of one command. *)
Lemma processCommands_one (c : Command) (st : Process) :
  processCommands [c] st =
  match command_body c (entered [c] st) with
  | (Value returned, st') => (Value returned, st')
  | r => r
  end.
Proof.
  unfold processCommands, entered. cbv [bind call]. simpl. unfold bind, ret.
  destruct (command_body c _) as [[[|]|e|code] st']; reflexivity.
Qed.

End Interpreter.

(** ** Running the generation loop *)

Section Driver.
Context {rt : Runtime}.

(** One cycle: [preload], the [try] block, and the [catch] clause for what
    the block throws. *)
Lemma cycle_attempt (reply : Reply) (errors : list string)
      (st st1 : Process) (pl : list (option Message)) :
  preload st = (Value pl, st1) ->
  cycle reply errors st =
  match attempt pl reply errors st1 with
  | (Value finished, st3) => (Value (finished, errors), st3)
  | (Thrown e, st3) => caught errors e st3
  | (Exited code, st3) => (Exited code, st3)
  end.
Proof.
  intros Hpl. unfold cycle, caught, attempt.
  rewrite (bind_Value _ _ _ _ _ Hpl).
  cbv [try_catch bind call ret exit]. simpl.
  destruct (create_and_parse _ reply st1) as [[commands|e|code] st2]; simpl;
    [|destruct errors; reflexivity|reflexivity].
  destruct (processCommands commands st2) as [[b|e|code] st3]; try reflexivity.
  destruct errors; reflexivity.
Qed.

(** The [try] block on a reply that fails in the call or in the parse. *)
Lemma attempt_failure (reply : Reply) (e : Exn) (errors : list string)
      (st : Process) (pl : list (option Message)) :
  failure_of reply = Some e ->
  attempt pl reply errors st =
  (Thrown e, called (messages_create (request pl (manifest st) errors)) st).
Proof.
  intros Hf. unfold attempt, create_and_parse. cbv [bind call throw].
  destruct reply as [e'|e'|cmds]; simpl in Hf; try discriminate; injection Hf as ->;
    reflexivity.
Qed.

(** The [try] block on a reply that parses. *)
Lemma attempt_parses (commands : list Command) (errors : list string)
      (st : Process) (pl : list (option Message)) :
  attempt pl (Parses commands) errors st =
  processCommands commands (called (messages_create (request pl (manifest st) errors)) st).
Proof. reflexivity. Qed.

Lemma cycle_failure (reply : Reply) (e : Exn) (errors : list string)
      (st st1 : Process) (pl : list (option Message)) :
  failure_of reply = Some e ->
  preload st = (Value pl, st1) ->
  cycle reply errors st =
  caught errors e (called (messages_create (request pl (manifest st1) errors)) st1).
Proof.
  intros Hf Hpl. rewrite (cycle_attempt _ _ _ _ _ Hpl), (attempt_failure _ _ _ _ _ Hf).
  reflexivity.
Qed.

Lemma cycle_parses (commands : list Command) (errors : list string)
      (st st1 : Process) (pl : list (option Message)) :
  preload st = (Value pl, st1) ->
  cycle (Parses commands) errors st =
  match processCommands commands
          (called (messages_create (request pl (manifest st1) errors)) st1) with
  | (Value finished, st3) => (Value (finished, errors), st3)
  | (Thrown e, st3) => caught errors e st3
  | (Exited code, st3) => (Exited code, st3)
  end.
Proof. intros Hpl. rewrite (cycle_attempt _ _ _ _ _ Hpl). reflexivity. Qed.

(** A cycle that goes on with feedback pending leaves the feedback as it
    found it. *)
Lemma cycle_keeps_feedback (reply : Reply) (errors errors' : list string)
      (finished : bool) (st st' : Process) :
  cycle reply errors st = (Value (finished, errors'), st') ->
  errors <> [] -> errors' = errors.
Proof.
  intros H Hne. unfold cycle in H.
  destruct (preload st) as [[pl|e|code] st1] eqn:Hpl;
    [|rewrite (bind_Thrown _ _ _ _ _ Hpl) in H; discriminate
     |rewrite (bind_Exited _ _ _ _ _ Hpl) in H; discriminate].
  rewrite (bind_Value _ _ _ _ _ Hpl) in H.
  destruct errors as [|line errors]; [congruence|].
  revert H. cbv [try_catch bind call ret exit create_and_parse]. simpl.
  destruct reply as [e|e|cmds]; simpl; try discriminate.
  destruct (processCommands cmds _) as [[b|e|code] st3]; simpl; try discriminate.
  intros [= _ <- _]. reflexivity.
Qed.

Lemma generate_from_keeps_feedback (replies : list Reply) (errors errors' : list string)
      (st st' : Process) :
  generate_from errors replies st = (Value (Looping errors'), st') ->
  errors <> [] -> errors' = errors.
Proof.
  revert errors st. induction replies as [|reply later IH]; intros errors st; simpl.
  - intros [= <- _] _. reflexivity.
  - unfold bind at 1. destruct (cycle reply errors st) as [[[fin errs]|e|code] st1] eqn:Hc;
      try discriminate. simpl.
    destruct fin; [discriminate|]. intros H Hne.
    pose proof (cycle_keeps_feedback _ _ _ _ _ _ Hc Hne) as ->.
    exact (IH _ _ H Hne).
Qed.

Lemma generate_from_app (pre post : list Reply) (errors : list string) (st : Process) :
  generate_from errors (pre ++ post) st =
  match generate_from errors pre st with
  | (Value (Looping errors'), st1) => generate_from errors' post st1
  | r => r
  end.
Proof.
  revert errors st. induction pre as [|reply pre IH]; intros errors st; simpl; [reflexivity|].
  unfold bind. destruct (cycle reply errors st) as [[[fin errs]|e|code] st1];
    try reflexivity. simpl.
  destruct fin; [reflexivity|]. apply IH.
Qed.

(** The first reply of a run that is at the head of its loop. *)
Lemma generate_from_cons (reply : Reply) (later : list Reply) (errors : list string)
      (st : Process) :
  generate_from errors (reply :: later) st =
  match cycle reply errors st with
  | (Value (true, _), st1) => (Value Finished, st1)
  | (Value (false, errors'), st1) => generate_from errors' later st1
  | (Thrown e, st1) => (Thrown e, st1)
  | (Exited code, st1) => (Exited code, st1)
  end.
Proof.
  simpl. unfold bind. destruct (cycle reply errors st) as [[[[|] errs]|e|code] st1]; reflexivity.
Qed.

Lemma request_carries_feedback (pl : list (option Message)) (m : Manifest)
      (errors : list string) (line : string) :
  line ∈ errors -> fix_message line ∈ request pl m errors.
Proof.
  intros Hin. unfold request. rewrite !elem_of_app. right. right. left.
  apply list_elem_of_In, in_map, list_elem_of_In, Hin.
Qed.

(** In the single-shot variant a failure of the call or of the parse ends
    the process at once. *)
Lemma single_shot_failure_exits (reply : SingleShot.Reply) (e : Exn)
      (later : list SingleShot.Reply) (st : Process) :
  SingleShot.failure_of reply = Some e ->
  fst (SingleShot.generate (reply :: later) st) = Exited 1.
Proof.
  intros Hf. simpl. unfold bind at 1, SingleShot.cycle.
  destruct reply as [e'|text e'|text cmds]; simpl in Hf; [| |discriminate]; reflexivity.
Qed.

(** In the single-shot variant an exception thrown while the commands are
    applied ends the process as well. *)
Lemma single_shot_apply_failure_exits (text : string) (commands : list Command) (e : Exn)
      (later : list SingleShot.Reply) (st st' : Process) :
  SingleShot.processCommands commands
    (called (console_log [PText ("RESPONSE: " +:+ text)])
       (called (messages_create
                  [Some (user (SingleShot.message (specContent st) (manifest st)))]) st))
  = (Thrown e, st') ->
  fst (SingleShot.generate (SingleShot.Parses text commands :: later) st) = Exited 1.
Proof.
  intros H. simpl. unfold bind at 1, SingleShot.cycle.
  cbv [try_catch bind call ret exit]. simpl. rewrite H. reflexivity.
Qed.

End Driver.

(** ** Running the batch-replay client *)

Section Replay.
Context {rt : Runtime}.

Lemma forEach_cons {A} (f : A -> Prog unit) (x : A) (l : list A) :
  forEach f (x :: l) = bind (f x) (fun _ => forEach f l).
Proof. reflexivity. Qed.

Lemma forEach_total {A} (f : A -> Prog unit) (l : list A) :
  (forall x st, exists st', f x st = (Value tt, st')) ->
  forall st, exists st', forEach f l st = (Value tt, st').
Proof.
  intros Hf. induction l as [|x l IH]; intros st; simpl.
  - eexists. reflexivity.
  - destruct (Hf x st) as [st1 H1]. rewrite (bind_Value _ _ _ _ _ H1). apply IH.
Qed.

Lemma forEach_app {A} (f : A -> Prog unit) (pre post : list A) :
  (forall x st, exists st', f x st = (Value tt, st')) ->
  forall st, forEach f (pre ++ post) st = forEach f post (snd (forEach f pre st)).
Proof.
  intros Hf. induction pre as [|x pre IH]; intros st; simpl; [reflexivity|].
  destruct (Hf x st) as [st1 H1]. rewrite !(bind_Value _ _ _ _ _ H1). apply IH.
Qed.

(** No command makes the loop of [processCommandFile] throw or exit. *)
Lemma replay_command_total (c : Command) (st : Process) :
  exists st', replay_command c st = (Value tt, st').
Proof.
  unfold replay_command, ensureDirectoryExists, writeFile, mkdir.
  destruct (cmd_update c) as [u|].
  { run; eexists; reflexivity. }
  destruct (cmd_continue c) as [pending_files|].
  { destruct (Nat.ltb 0 (length pending_files)); [|eexists; reflexivity].
    cbv [bind call]. apply forEach_total. intros file st1. eexists. reflexivity. }
  destruct (cmd_finish c); run; eexists; reflexivity.
Qed.

Lemma processCommandFile_total (filePath : string) (st : Process) :
  exists st', processCommandFile filePath st = (Value tt, st').
Proof.
  unfold processCommandFile, readFile, parse_commands.
  cbv [try_catch bind call ret throw]. simpl.
  destruct (read_at filePath (disk st)) as [e|text]; [eexists; reflexivity|].
  destruct (JSON_parse text) as [e| |commands]; try (eexists; reflexivity).
  destruct (forEach_total replay_command commands replay_command_total
              (called (fs_readFile filePath)
                 (called (stdout_write ("Reading command file: " +:+ filePath +:+ "..." +:+ newline)) st)))
    as [st' ->].
  eexists. reflexivity.
Qed.

Lemma main_total (commandFiles : list string) (st : Process) :
  commandFiles <> [] -> exists st', main_guarded commandFiles st = (Value tt, st').
Proof.
  intros Hne. unfold main_guarded, main, try_catch.
  destruct commandFiles as [|file others]; [congruence|].
  change (Nat.eqb (length (file :: others)) 0) with false. cbv beta iota.
  cbv [bind call].
  destruct (forEach_total processCommandFile (file :: others) processCommandFile_total
              (called (stdout_write ("Processing " +:+ pretty (length (file :: others)) +:+
                                     " command file(s)..." +:+ newline +:+ newline)) st))
    as [st' ->].
  eexists. reflexivity.
Qed.

(** Without arguments [main] prints its usage and exits with code 1. *)
Lemma main_without_arguments (st : Process) :
  main_guarded [] st =
  (Exited 1,
   called (process_exit 1)
     (called (stdout_write ("Please provide at least one command file as an argument." +:+ newline))
        st)).
Proof. reflexivity. Qed.

(** A file that cannot be read: one line of output, and the function
    returns. *)
Lemma processCommandFile_unread (filePath : string) (e : Exn) (st : Process) :
  read_at filePath (disk st) = inl e ->
  processCommandFile filePath st =
  (Value tt,
   called (stdout_write ("Error processing file " +:+ filePath +:+ ": " +:+
                         exn_text e +:+ newline)) (opened filePath st)).
Proof.
  intros Hread. unfold processCommandFile, readFile, opened.
  cbv [try_catch bind call ret throw]. simpl. rewrite Hread. reflexivity.
Qed.

(** A file that cannot be parsed, or that does not hold an array: one line
    of output, and the function returns. *)
Lemma processCommandFile_unparsed (filePath text : string) (e : Exn) (st : Process) :
  read_at filePath (disk st) = inr text ->
  JSON_parse text = Malformed e \/
  (JSON_parse text = NotArray /\ e = Error "Commands must be an array") ->
  processCommandFile filePath st =
  (Value tt,
   {| manifest := manifest st; specContent := specContent st; disk := disk st;
      calls := calls st ++
        [stdout_write ("Reading command file: " +:+ filePath +:+ "..." +:+ newline);
         fs_readFile filePath;
         stdout_write ("Error parsing JSON from " +:+ filePath +:+ ": " +:+ exn_text e +:+ newline)] |}).
Proof.
  intros Hread Hparse. unfold processCommandFile, readFile, parse_commands.
  cbv [try_catch bind call ret throw]. simpl. rewrite Hread.
  destruct Hparse as [->|[-> ->]]; same_state.
Qed.

(** A file that holds an array: its commands are replayed, all of them and
    in their order. *)
Lemma processCommandFile_parsed (filePath text : string) (commands : list Command)
      (st : Process) :
  read_at filePath (disk st) = inr text ->
  JSON_parse text = Batch commands ->
  processCommandFile filePath st = forEach replay_command commands (opened filePath st).
Proof.
  intros Hread Hparse. unfold processCommandFile, readFile, parse_commands, opened.
  cbv [try_catch bind call ret throw]. simpl. rewrite Hread, Hparse.
  destruct (forEach_total replay_command commands replay_command_total
              (called (fs_readFile filePath)
                 (called (stdout_write ("Reading command file: " +:+ filePath +:+ "..." +:+ newline)) st)))
    as [st' ->].
  reflexivity.
Qed.

(** An Update in the client: the two lines that announce it, then the
    directory and the write, and one line for how they ended. *)
Lemma replay_command_update (c : Command) (u : UpdatePayload) (st : Process) :
  cmd_update c = Some u ->
  let p := update_path u in
  replay_command c st =
  match bind (ensureDirectoryExists p) (fun _ => writeFile p (update_content u))
          (announced u st) with
  | (Value _, s) =>
      (Value tt, called (stdout_write ("Successfully wrote: " +:+ p +:+ newline)) s)
  | (Thrown e, s) =>
      (Value tt,
       called (stdout_write ("Error writing file " +:+ p +:+ ": " +:+ exn_text e +:+ newline)) s)
  | (Exited code, s) => (Exited code, s)
  end.
Proof.
  intros Hu p. unfold replay_command, announced. rewrite Hu. fold p.
  cbv [try_catch bind call]. simpl.
  destruct (ensureDirectoryExists p _) as [[[]|e|code] s1]; try reflexivity.
  destruct (writeFile p (update_content u) s1) as [[[]|e|code] s2]; reflexivity.
Qed.

(** The directory of the file of an Update, when [mkdir] succeeds. *)
Lemma ensureDirectoryExists_made (p : string) (st : Process) (d1 : gmap (list string) Node) :
  mkdir_at (dirname p) (disk st) = (None, d1) ->
  ensureDirectoryExists p st = (Value tt, moved st d1 [fs_mkdir (dirname p)]).
Proof.
  intros Hd. unfold ensureDirectoryExists, mkdir. cbv [try_catch bind call on_disk]. simpl.
  rewrite Hd. reflexivity.
Qed.

(** A write that goes through. *)
Lemma writeFile_written (p bytes : string) (data : JValue) (st : Process)
      (d2 : gmap (list string) Node) :
  data_of data = Written bytes None ->
  write_at p bytes (disk st) = (None, d2) ->
  writeFile p data st = (Value tt, moved st d2 [fs_writeFile p data]).
Proof.
  intros Hb Hw. unfold writeFile. cbv [bind call on_disk ret]. simpl.
  rewrite Hb. simpl. rewrite Hw. reflexivity.
Qed.

(** An Update whose write succeeds. *)
Lemma replay_command_writes (c : Command) (u : UpdatePayload) (st : Process)
      (d1 d2 : gmap (list string) Node) (bytes : string) :
  cmd_update c = Some u ->
  mkdir_at (dirname (update_path u)) (disk st) = (None, d1) ->
  data_of (update_content u) = Written bytes None ->
  write_at (update_path u) bytes d1 = (None, d2) ->
  replay_command c st =
  (Value tt,
   moved st d2
     [stdout_write (newline +:+ "Processing file: " +:+ update_path u +:+ newline);
      stdout_write ("Reason: " +:+ update_why u +:+ newline);
      fs_mkdir (dirname (update_path u));
      fs_writeFile (update_path u) (update_content u);
      stdout_write ("Successfully wrote: " +:+ update_path u +:+ newline)]).
Proof.
  intros Hu Hd1 Hb Hw. rewrite (replay_command_update c u st Hu).
  rewrite (bind_Value _ _ _ _ _ (ensureDirectoryExists_made _ (announced u st) d1 Hd1)).
  rewrite (writeFile_written (update_path u) bytes (update_content u)
             (moved (announced u st) d1 [fs_mkdir (dirname (update_path u))]) d2 Hb Hw).
  unfold announced. same_state.
Qed.

End Replay.

(** * The claims *)

(** ** The retry discipline of [generate] *)

(** C1, as the code has it.  Take [generate] at the head of its loop, the
    replies [pre] used up and [errs] in its variable [errors].  [preload]
    runs before the [try] block: when it fails, its exception leaves
    [generate].  The [try] block sends the request of the cycle and throws
    when the call is rejected, when the reply does not parse, and when
    applying the parsed commands throws: the one [catch] clause handles
    the three alike.  With no feedback pending the run goes on, the lines
    of the error as feedback; with feedback pending the process exits with
    code 1.  A cycle that does not throw leaves the feedback as it is.  The
    request of a cycle carries a fix message for every pending line.  And
    feedback, once pending, is what it was at every later head of the
    loop: no cycle clears it, so the second failure of a run, of whichever
    kind, is fatal however many cycles succeeded in between.  In the
    single-shot variant there is no retry: the first failure of the call,
    of the parse or of the commands exits with code 1. *)
Theorem retry_feedback_is_never_cleared {rt : Runtime}
    (pre later : list Reply) (reply : Reply) (st st1 : Process) (errs : list string) :
  generate pre st = (Value (Looping errs), st1) ->
  generate (pre ++ reply :: later) st =
    match preload st1 with
    | (Value pl, st1') =>
        match attempt pl reply errs st1' with
        | (Value true, st3) => (Value Finished, st3)
        | (Value false, st3) => generate_from errs later st3
        | (Thrown e, st3) =>
            match errs with
            | [] => generate_from (split (ascii_of_nat 10) (exn_text e)) later
                      (called (console_log [PError e]) st3)
            | _ :: _ =>
                (Exited 1,
                 called (process_exit 1)
                   (called (console_error
                              [PText "Failure:"; PList (List.map PText errs ++ [PError e])])
                      st3))
            end
        | (Exited code, st3) => (Exited code, st3)
        end
    | (Thrown e, st1') => (Thrown e, st1')
    | (Exited code, st1') => (Exited code, st1')
    end /\
  (forall pl s,
     attempt pl reply errs s =
     match reply with
     | Rejects e => (Thrown e, called (messages_create (request pl (manifest s) errs)) s)
     | Unparseable e => (Thrown e, called (messages_create (request pl (manifest s) errs)) s)
     | Parses commands =>
         processCommands commands (called (messages_create (request pl (manifest s) errs)) s)
     end) /\
  (forall e, split (ascii_of_nat 10) (exn_text e) <> []) /\
  (forall pl m line, line ∈ errs -> fix_message line ∈ request pl m errs) /\
  (forall more errs' st', errs <> [] ->
     generate_from errs more st1 = (Value (Looping errs'), st') -> errs' = errs) /\
  (forall (r : SingleShot.Reply) e' more s,
     SingleShot.failure_of r = Some e' ->
     fst (SingleShot.generate (r :: more) s) = Exited 1) /\
  (forall text commands e' more s s',
     SingleShot.processCommands commands
       (called (console_log [PText ("RESPONSE: " +:+ text)])
          (called (messages_create
                     [Some (user (SingleShot.message (specContent s) (manifest s)))]) s))
     = (Thrown e', s') ->
     fst (SingleShot.generate (SingleShot.Parses text commands :: more) s) = Exited 1).
Proof.
  intros Hpre. repeat split.
  - unfold generate. rewrite generate_from_app. fold (generate pre). rewrite Hpre.
    rewrite generate_from_cons.
    destruct (preload st1) as [[pl|e|code] st1'] eqn:Hpl.
    + rewrite (cycle_attempt _ _ _ _ _ Hpl).
      destruct (attempt pl reply errs st1') as [[[|]|e|code] st3]; try reflexivity.
      destruct errs; reflexivity.
    + unfold cycle. rewrite (bind_Thrown _ _ _ _ _ Hpl). reflexivity.
    + unfold cycle. rewrite (bind_Exited _ _ _ _ _ Hpl). reflexivity.
  - intros pl s. destruct reply as [e|e|commands]; reflexivity.
  - intros e. apply split_nonempty.
  - intros pl m line. apply request_carries_feedback.
  - intros more errs' st' Hne H. exact (generate_from_keeps_feedback _ _ _ _ _ H Hne).
  - intros r e' more s. apply single_shot_failure_exits.
  - intros text commands e' more s s'. apply single_shot_apply_failure_exits.
Qed.

Lemma retry_feedback_is_never_cleared_witness :
  fst (generate (rt := node) ([Unparseable bad_json; Parses []] ++ [Rejects overloaded]) fresh)
  = Exited 1 /\
  fst (generate (rt := node) ([Parses [Remove "missing.txt"]] ++ [Unparseable bad_json]) fresh)
  = Exited 1.
Proof.
  split.
  - pose proof (retry_feedback_is_never_cleared (rt := node)
                  [Unparseable bad_json; Parses []] [] (Rejects overloaded)
                  fresh
                  (snd (generate (rt := node) [Unparseable bad_json; Parses []] fresh))
                  ["SyntaxError: Unexpected token < in JSON at position 0"]
                  ltac:(vm_compute; reflexivity)) as (H & _).
    rewrite H. reflexivity.
  - pose proof (retry_feedback_is_never_cleared (rt := node)
                  [Parses [Remove "missing.txt"]] [] (Unparseable bad_json)
                  fresh
                  (snd (generate (rt := node) [Parses [Remove "missing.txt"]] fresh))
                  ["Error: ENOENT: no such file or directory, unlink 'missing.txt'"]
                  ltac:(vm_compute; reflexivity)) as (H & _).
    rewrite H. reflexivity.
Defined.

(** C1 as the spec has it fails: a malformed reply, then a well-formed
    batch that is applied, then a second malformed reply.  The two failures
    are separated by a successful cycle and the run is fatal all the same. *)
Lemma failures_apart_are_fatal :
  fst (generate (rt := node) [Unparseable bad_json] fresh)
    = Value (Looping ["SyntaxError: Unexpected token < in JSON at position 0"]) /\
  fst (generate (rt := node) [Unparseable bad_json; Parses [Add "src/a.ts" "d"]] fresh)
    = Value (Looping ["SyntaxError: Unexpected token < in JSON at position 0"]) /\
  fst (generate (rt := node)
         [Unparseable bad_json; Parses [Add "src/a.ts" "d"]; Unparseable bad_json] fresh)
    = Exited 1.
Proof. vm_compute. repeat split; reflexivity. Qed.

(** ** Update with content that is not a string *)

(** C2, as the code has it.  For an Update whose content is not a string
    the interpreter writes a diagnostic to the error stream and goes on as
    for any Update, skipping nothing.  It calls [mkdir] for the parent
    directory; when that fails, its exception ends the command.  Otherwise
    it calls the file write with the content as it is, and what happens to
    the file is up to the runtime: data that is refused before the file is
    opened leaves every file as it was; data that is written in part, or in
    full, leaves the file with what was written, and an exception of the
    write ends the command; after a write without exception the first
    entry of the path becomes Generated and the manifest is flushed.  However
    the command is ended by an exception, the manifest is as it was, and
    the driver treats the exception as any failure of the cycle: a retry
    when no feedback is pending and exit code 1 otherwise. *)
Theorem nonstring_content_is_logged_then_written {rt : Runtime}
    (p why : string) (content : JValue) (st : Process) :
  typeof_is_string content = false ->
  let u := {| update_path := p; update_content := content; update_why := why |} in
  let c := Update p content why in
  let diagnosed :=
    [stdout_write ("UPDATE " +:+ p +:+ newline);
     console_error [PText ("Claude returned unexpected file content: " +:+ stringify_update u)];
     fs_mkdir (dirname p)] in
  let written := diagnosed ++ [fs_writeFile p content] in
  command_body c st =
    match mkdir_at (dirname p) (disk st) with
    | (Some e, d1) => (Thrown e, moved st d1 diagnosed)
    | (None, d1) =>
        match write_data content with
        | Refused e => (Thrown e, moved st d1 written)
        | Written bytes failure =>
            match write_at p bytes d1 with
            | (Some e, d2) => (Thrown e, moved st d2 written)
            | (None, d2) =>
                match failure with
                | Some e => (Thrown e, moved st d2 written)
                | None =>
                    match first_match p (files (manifest st)) with
                    | None => (Value false, moved st d2 written)
                    | Some i =>
                        let m' :=
                          {| files := alter (set_status generated) i (files (manifest st)) |} in
                        let flushed :=
                          calls st ++ written ++
                          [fs_writeFile manifestPath (JString (stringify_manifest m'))] in
                        match write_at manifestPath (stringify_manifest m') d2 with
                        | (None, d3) =>
                            (Value false,
                             {| manifest := m'; specContent := specContent st; disk := d3;
                                calls := flushed |})
                        | (Some e, d3) =>
                            (Thrown e,
                             {| manifest := m'; specContent := specContent st; disk := d3;
                                calls := flushed |})
                        end
                    end
                end
            end
        end
    end /\
  (forall r d1, mkdir_at (dirname p) (disk st) = (r, d1) ->
     forall k data, d1 !! k = Some (File data) <-> disk st !! k = Some (File data)) /\
  (forall bytes d1 e d2, write_at p bytes d1 = (Some e, d2) -> d2 = d1) /\
  (forall bytes d1 d2, write_at p bytes d1 = (None, d2) ->
     d2 = <[resolve p := File bytes]> d1 /\ read_at p d2 = inr bytes) /\
  (forall e st' errors st0 st0' pl,
     preload st0 = (Value pl, st0') ->
     command_body c
       (entered [c] (called (messages_create (request pl (manifest st0') errors)) st0'))
     = (Thrown e, st') ->
     cycle (Parses [c]) errors st0 =
     match errors with
     | [] => (Value (false, split (ascii_of_nat 10) (exn_text e)),
              called (console_log [PError e]) st')
     | _ :: _ =>
         (Exited 1,
          called (process_exit 1)
            (called (console_error
                       [PText "Failure:"; PList (List.map PText errors ++ [PError e])])
               st'))
     end).
Proof.
  intros Hs u c diagnosed written.
  split; [|split; [|split; [|split]]].
  - rewrite (command_body_update c u st eq_refl eq_refl).
    unfold update_calls, mkdir_calls, data_of. simpl. rewrite Hs. fold diagnosed.
    change (diagnosed ++ [fs_writeFile p content]) with written.
    destruct content; try discriminate; reflexivity.
  - intros r d1 Hd. exact (mkdir_at_files _ _ _ _ Hd).
  - intros bytes d1 e d2 Hw. exact (proj1 (write_at_Some _ _ _ _ _ Hw)).
  - intros bytes d1 d2 Hw. split; [exact (proj1 (write_at_None _ _ _ _ Hw))|].
    exact (read_at_written _ _ _ _ Hw).
  - intros e st' errors st0 st0' pl Hpl Hrun.
    rewrite (cycle_parses _ _ _ _ _ Hpl), processCommands_one, Hrun.
    destruct errors; reflexivity.
Qed.

Lemma nonstring_content_is_logged_then_written_witness :
  fst (command_body (rt := node) numeric_update fresh)
  = Thrown (invalid_arg_type data_expected "type number (42)").
Proof.
  destruct (nonstring_content_is_logged_then_written (rt := node)
              "out/a.txt" "first version" (JNumber "42") fresh eq_refl) as (H & _).
  unfold numeric_update. rewrite H. reflexivity.
Defined.

(** C2 as the spec has it fails.  Nothing is skipped: the directory is
    made and [fs.writeFile] is called with the number.  The file is not
    always left as it was: an array with a string and a number empties the
    file, writes the string and then throws.  And with feedback pending the
    exception ends the run. *)
Lemma nonstring_content_is_not_skipped :
  calls (snd (command_body (rt := node) numeric_update fresh)) =
    [stdout_write ("UPDATE out/a.txt" +:+ newline);
     console_error
       [PText ("Claude returned unexpected file content: " +:+
               stringify_update {| update_path := "out/a.txt"; update_content := JNumber "42";
                                   update_why := "first version" |})];
     fs_mkdir "out";
     fs_writeFile "out/a.txt" (JNumber "42")] /\
  ~ dir_exists "out" (disk fresh) /\
  dir_exists "out" (disk (snd (command_body (rt := node) numeric_update fresh))) /\
  read_at "src/a.ts" (disk generated_a) = inr "export const a = 1;" /\
  (exists e, fst (command_body (rt := node) mixed_update generated_a) = Thrown e) /\
  read_at "src/a.ts" (disk (snd (command_body (rt := node) mixed_update generated_a))) = inr "a" /\
  fst (generate (rt := node) [Unparseable bad_json; Parses [numeric_update]] fresh) = Exited 1.
Proof.
  split; [vm_compute; reflexivity|].
  split; [vm_compute; discriminate|].
  split; [vm_compute; reflexivity|].
  split; [vm_compute; reflexivity|].
  split; [eexists; vm_compute; reflexivity|].
  split; vm_compute; reflexivity.
Qed.

(** ** The statuses of an entry *)

(** C3, as the code has it.  Under one command an entry stays at its
    position with its path and its description, and its status is kept or
    becomes Generated (the command is an Update and the entry the first to
    match its path) or Deleted (the same for a Remove), from whatever it
    was.  Under a batch no entry is removed, moved or renamed, and an entry
    that has left Pending does not return to it. *)
Theorem entries_are_kept_and_marked {rt : Runtime}
    (commands : list Command) (c : Command) (st : Process) (j : nat) (f : ManifestFile) :
  files (manifest st) !! j = Some f ->
  (exists f', files (manifest (snd (command_body c st))) !! j = Some f' /\
     path f' = path f /\ description f' = description f /\
     (status f' = status f \/
      (status f' = generated /\ cmd_add c = None /\
       exists u, cmd_update c = Some u /\
                 first_match (update_path u) (files (manifest st)) = Some j) \/
      (status f' = deleted /\ cmd_add c = None /\ cmd_update c = None /\
       exists r, cmd_remove c = Some r /\
                 first_match (remove_path r) (files (manifest st)) = Some j))) /\
  (exists f', files (manifest (snd (processCommands commands st))) !! j = Some f' /\
     path f' = path f /\ description f' = description f /\
     (status f <> pending -> status f' <> pending)).
Proof.
  intros Hf. split; [exact (command_body_entry c st j f Hf)|].
  unfold processCommands. cbv [bind call].
  apply for_commands_entry. exact Hf.
Qed.

Lemma entries_are_kept_and_marked_witness :
  exists f', files (manifest (snd (processCommands (rt := node)
                                     [Add "src/a.ts" "again"; Remove "src/b.ts"] deleted_a))) !! 0
             = Some f' /\ path f' = "src/a.ts" /\ description f' = "d".
Proof.
  destruct (entries_are_kept_and_marked (rt := node)
              [Add "src/a.ts" "again"; Remove "src/b.ts"] (Add "src/a.ts" "again") deleted_a 0
              {| path := "src/a.ts"; description := "d"; status := deleted |} eq_refl)
    as (_ & f' & H & Hp & Hd & _).
  exists f'. auto.
Defined.

(** C3 as the spec has it fails: Deleted is not terminal.  An Update on the
    path of a Deleted entry makes it Generated. *)
Lemma deleted_entry_is_revived :
  status <$> files (manifest deleted_a) !! 0 = Some deleted /\
  status <$> files (manifest (snd (processCommands (rt := node)
                                     [Update "src/a.ts" (JString "export {}") "again"]
                                     deleted_a))) !! 0
  = Some generated.
Proof. vm_compute. split; reflexivity. Qed.

(** ** Finish *)

Lemma for_commands_without_finish {rt : Runtime} (commands : list Command)
      (st st' : Process) (b : bool) :
  Forall (fun c => taken_for_finish c = false) commands ->
  for_commands commands st = (Value b, st') -> b = false.
Proof.
  intros Hall. revert st. induction Hall as [|c rest Hc _ IH]; intros st; simpl.
  - intros [= <- _]. reflexivity.
  - unfold bind. destruct (command_body c st) as [[[|]|e|code] st1] eqn:Hb; try discriminate.
    + exfalso. apply command_body_true in Hb as (Ha & Hu & Hr & [report Hf]).
      unfold taken_for_finish in Hc. rewrite Ha, Hu, Hr, Hf in Hc. discriminate.
    + apply IH.
Qed.

(** C4, as the code has it.  When the commands before the first Finish of
    a batch apply without failure, the interpreter writes the report, leaves
    the commands after the Finish alone and returns [true], and [generate]
    returns without using another reply.  A batch without a Finish that
    applies without failure returns [false], and the loop goes on with the
    next reply. *)
Theorem finish_ends_batch_and_run {rt : Runtime}
    (pre post : list Command) (c : Command) (report : string) (s st1 : Process) :
  cmd_add c = None -> cmd_update c = None -> cmd_remove c = None ->
  cmd_finish c = Some report ->
  for_commands pre (entered (pre ++ c :: post) s) = (Value false, st1) ->
  let done :=
    {| manifest := manifest st1; specContent := specContent st1; disk := disk st1;
       calls := calls st1 ++ [stdout_write (newline +:+ "Generation complete!" +:+ newline);
                              stdout_write report] |} in
  processCommands (pre ++ c :: post) s = (Value true, done) /\
  (forall errors later st0 pl st0',
     preload st0 = (Value pl, st0') ->
     s = called (messages_create (request pl (manifest st0') errors)) st0' ->
     generate_from errors (Parses (pre ++ c :: post) :: later) st0 = (Value Finished, done)) /\
  (forall commands s' b st',
     Forall (fun c => taken_for_finish c = false) commands ->
     processCommands commands s' = (Value b, st') ->
     b = false /\
     (forall errors later st0 pl st0',
        preload st0 = (Value pl, st0') ->
        s' = called (messages_create (request pl (manifest st0') errors)) st0' ->
        generate_from errors (Parses commands :: later) st0 = generate_from errors later st')).
Proof.
  intros Ha Hu Hr Hf Hpre done.
  assert (processCommands (pre ++ c :: post) s = (Value true, done)) as Hrun.
  { unfold processCommands. cbv [bind call]. fold (entered (pre ++ c :: post) s).
    rewrite for_commands_app, Hpre. simpl. unfold bind.
    rewrite (command_body_finish c report st1 Ha Hu Hr Hf). reflexivity. }
  split; [exact Hrun|]. split.
  - intros errors later st0 pl st0' Hpl ->. simpl. unfold bind at 1.
    rewrite (cycle_parses _ _ _ _ _ Hpl), Hrun. reflexivity.
  - intros commands s' b st' Hall Hb.
    assert (b = false) as ->.
    { unfold processCommands in Hb. cbv [bind call] in Hb.
      exact (for_commands_without_finish _ _ _ _ Hall Hb). }
    split; [reflexivity|].
    intros errors later st0 pl st0' Hpl ->. simpl. unfold bind at 1.
    rewrite (cycle_parses _ _ _ _ _ Hpl), Hb. reflexivity.
Qed.

Lemma finish_ends_batch_and_run_witness :
  fst (processCommands (rt := node)
         ([Add "src/a.ts" "d"] ++ Finish "All files generated" :: [Add "src/b.ts" "never"]) fresh)
  = Value true.
Proof.
  destruct (finish_ends_batch_and_run (rt := node)
              [Add "src/a.ts" "d"] [Add "src/b.ts" "never"] (Finish "All files generated")
              "All files generated" fresh
              (snd (for_commands (rt := node) [Add "src/a.ts" "d"]
                      (entered ([Add "src/a.ts" "d"] ++
                                Finish "All files generated" :: [Add "src/b.ts" "never"]) fresh)))
              eq_refl eq_refl eq_refl eq_refl ltac:(vm_compute; reflexivity)) as [H _].
  rewrite H. reflexivity.
Defined.

(** C4 as the spec has it fails: a batch with a Finish behind a Remove of a
    file that is not there.  The interpreter throws before it reaches the
    Finish, and the loop calls the Content Generator again. *)
Lemma finish_behind_a_failure_is_not_reached :
  fst (processCommands (rt := node) remove_then_finish fresh)
    = Thrown (errno "ENOENT" "no such file or directory" "unlink" "missing.txt") /\
  fst (generate (rt := node) [Parses remove_then_finish; Parses []] fresh)
    = Value (Looping ["Error: ENOENT: no such file or directory, unlink 'missing.txt'"]) /\
  length (List.filter is_create
            (calls (snd (generate (rt := node) [Parses remove_then_finish; Parses []] fresh))))
    = 2.
Proof. vm_compute. repeat split; reflexivity. Qed.

(** ** Remove *)

Lemma length_alter_status (s : Status) (i : nat) (fs : list ManifestFile) :
  length (alter (set_status s) i fs) = length fs.
Proof. apply length_alter. Qed.

(** C5, as the code has it.  A Remove of a file that exists, other than
    the manifest document, with that document writable: afterwards no file
    is at the path, the manifest has as many entries as before, the first
    entry with the path, if there is one, is Deleted, the others are as they
    were, and the document on disk is the serialisation of the manifest;
    without such an entry the manifest is what it was and only the file has
    gone from the disk.  A Remove where no regular file can be removed:
    [unlink] fails with an error of [fs], and the manifest and the disk are
    what they were.  The code of the error is [ERR_INVALID_ARG_VALUE] for
    a path with a null byte; it is that of the walk along the path when
    the walk fails ([ENOENT] for a missing directory, [ENOTDIR]
    for a file in the place of a directory); otherwise it is [ENOENT] when
    nothing is at the path, [EISDIR] when a directory is, and [ENOTDIR]
    when a file is and the path ends with a separator. *)
Theorem remove_unlinks_then_marks {rt : Runtime} (p : string) (st : Process) :
  (file_exists p (disk st) ->
   resolve p <> resolve manifestPath ->
   disk st !! resolve manifestPath <> Some Dir ->
   let st' := snd (command_body (Remove p) st) in
   fst (command_body (Remove p) st) = Value false /\
   ~ file_exists p (disk st') /\
   node_at (disk st') (resolve p) = None /\
   length (files (manifest st')) = length (files (manifest st)) /\
   (forall i, first_match p (files (manifest st)) = Some i ->
      status <$> files (manifest st') !! i = Some deleted /\
      (forall j, j <> i -> files (manifest st') !! j = files (manifest st) !! j) /\
      disk st' !! resolve manifestPath = Some (File (stringify_manifest (manifest st'))) /\
      calls st' = calls st ++ [stdout_write ("REMOVE " +:+ p +:+ newline); fs_unlink p;
                               fs_writeFile manifestPath
                                 (JString (stringify_manifest (manifest st')))]) /\
   (first_match p (files (manifest st)) = None ->
      manifest st' = manifest st /\ disk st' = delete (resolve p) (disk st) /\
      calls st' = calls st ++ [stdout_write ("REMOVE " +:+ p +:+ newline); fs_unlink p])) /\
  (~ file_exists p (disk st) ->
   exists e,
     command_body (Remove p) st =
       (Thrown e,
        {| manifest := manifest st; specContent := specContent st; disk := disk st;
           calls := calls st ++ [stdout_write ("REMOVE " +:+ p +:+ newline); fs_unlink p] |}) /\
     exn_code e =
       Some match place p (disk st) with
            | Unusable => "ERR_INVALID_ARG_VALUE"
            | Nowhere code => code
            | Directory _ => "EISDIR"
            | Entry k _ =>
                match disk st !! k with
                | None => "ENOENT"
                | Some Dir => "EISDIR"
                | Some (File _) => "ENOTDIR"
                end
            end).
Proof.
  split.
  - intros Hfile Hother Hdoc st'. subst st'.
    destruct (file_exists_lookup _ _ Hfile) as (Hk & _).
    rewrite (command_body_remove_file (Remove p) {| remove_path := p |} st
               eq_refl eq_refl eq_refl Hfile Hother Hdoc).
    simpl. destruct (first_match p (files (manifest st))) as [i|] eqn:Hi; simpl.
    + assert ((<[resolve manifestPath := File (stringify_manifest
                   {| files := alter (set_status deleted) i (files (manifest st)) |})]>
                 (delete (resolve p) (disk st))) !! resolve p = None) as Hgone.
      { rewrite lookup_insert_ne by congruence. apply lookup_delete_eq. }
      split; [reflexivity|]. split.
      { intros Hstill. apply file_exists_lookup in Hstill as (_ & data & Hdata). congruence. }
      split; [rewrite node_at_lookup by exact Hk; exact Hgone|].
      split; [apply length_alter_status|]. split; [|discriminate].
      intros i' [= <-]. apply first_match_Some in Hi as [[f [Hf _]] _].
      split; [rewrite list_lookup_alter_eq, Hf; reflexivity|].
      split; [intros j Hj; apply list_lookup_alter_ne; congruence|].
      split; [apply lookup_insert_eq|]. rewrite <- app_assoc. reflexivity.
    + assert (delete (resolve p) (disk st) !! resolve p = None) as Hgone
          by apply lookup_delete_eq.
      split; [reflexivity|]. split.
      { intros Hstill. apply file_exists_lookup in Hstill as (_ & data & Hdata). congruence. }
      split; [rewrite node_at_lookup by exact Hk; exact Hgone|].
      split; [reflexivity|]. split; [discriminate|].
      intros _. split; [destruct (manifest st); reflexivity|]. split; reflexivity.
  - intros Hfile.
    exact (command_body_remove_no_file (Remove p) {| remove_path := p |} st
             eq_refl eq_refl eq_refl Hfile).
Qed.

Lemma remove_unlinks_then_marks_witness :
  ~ file_exists "src/a.ts"
      (disk (snd (command_body (rt := node) (Remove "src/a.ts") generated_a))) /\
  exists e, fst (command_body (rt := node) (Remove "src/a.ts/") generated_a) = Thrown e /\
            exn_code e = Some "ENOTDIR".
Proof.
  split.
  - destruct (remove_unlinks_then_marks (rt := node) "src/a.ts" generated_a) as [H _].
    destruct H as (_ & H & _).
    + exists "export const a = 1;". vm_compute. reflexivity.
    + vm_compute. discriminate.
    + vm_compute. discriminate.
    + exact H.
  - destruct (remove_unlinks_then_marks (rt := node) "src/a.ts/" generated_a) as [_ H].
    destruct H as (e & H & Hcode).
    + intros [data Hdata]. vm_compute in Hdata. discriminate.
    + exists e. rewrite H. split; [reflexivity|exact Hcode].
Defined.

(** C5 as the spec has it fails: a Remove of the manifest document, which
    the manifest lists.  The file exists, [unlink] deletes it, the entry is
    marked, and the flush writes the file again: it exists afterwards. *)
Lemma removed_manifest_document_is_written_again :
  file_exists "./autosrc.json" (disk listed_manifest) /\
  fst (command_body (rt := node) (Remove "./autosrc.json") listed_manifest) = Value false /\
  file_exists "./autosrc.json"
    (disk (snd (command_body (rt := node) (Remove "./autosrc.json") listed_manifest))).
Proof.
  split; [exists "{}"; vm_compute; reflexivity|].
  split; [vm_compute; reflexivity|].
  eexists. vm_compute. reflexivity.
Qed.

(** ** Add, and the lookup by path *)

Lemma command_body_other_entries {rt : Runtime} (c : Command) (q : string) (st : Process) (j : nat) :
  cmd_add c = None ->
  (exists u, cmd_update c = Some u /\ update_path u = q) \/
  (cmd_update c = None /\ exists r, cmd_remove c = Some r /\ remove_path r = q) ->
  first_match q (files (manifest st)) <> Some j ->
  files (manifest (snd (command_body c st))) !! j = files (manifest st) !! j.
Proof.
  intros Ha Hq Hj.
  destruct (command_body_manifest_step c st) as [|a Ha'|u i _ Hu Hi|r i _ Hu Hr Hi].
  - reflexivity.
  - congruence.
  - apply list_lookup_alter_ne. intros ->. apply Hj.
    destruct Hq as [(u' & Hu' & <-)|[Hu' _]]; congruence.
  - apply list_lookup_alter_ne. intros ->. apply Hj.
    destruct Hq as [(u' & Hu' & _)|(_ & r' & Hr' & <-)]; congruence.
Qed.

(** C6, as the code has it.  An Add puts its entry, Pending, behind the
    entries there are, whatever their paths, and calls the write of the
    manifest document with the new manifest, and nothing else.  Unless a
    directory stands in the place of the document, the write goes through:
    the document holds the new manifest and nothing else on disk has
    changed.  With a directory in its place the write fails with [EISDIR]:
    the Add ends with that exception, the entry is in the manifest in
    memory, and the disk is what it was.  An Update or a Remove changes no
    entry but the one [find] returns, which is the first in the sequence
    whose path is the path of the command. *)
Theorem add_appends_and_lookup_takes_first {rt : Runtime} (p d : string) (st : Process) :
  let m' := {| files := files (manifest st) ++
                 [{| path := p; description := d; status := pending |}] |} in
  let said := calls st ++ [stdout_write ("ADD " +:+ p +:+ newline);
                           fs_writeFile manifestPath (JString (stringify_manifest m'))] in
  command_body (Add p d) st =
    match disk st !! resolve manifestPath with
    | Some Dir =>
        (Thrown (fs_error "EISDIR" "open" manifestPath),
         {| manifest := m'; specContent := specContent st; disk := disk st; calls := said |})
    | _ =>
        (Value false,
         {| manifest := m'; specContent := specContent st;
            disk := <[resolve manifestPath := File (stringify_manifest m')]> (disk st);
            calls := said |})
    end /\
  (forall q content why j,
     first_match q (files (manifest st)) <> Some j ->
     files (manifest (snd (command_body (Update q content why) st))) !! j
     = files (manifest st) !! j) /\
  (forall q j,
     first_match q (files (manifest st)) <> Some j ->
     files (manifest (snd (command_body (Remove q) st))) !! j = files (manifest st) !! j) /\
  (forall q i,
     first_match q (files (manifest st)) = Some i <->
     (exists f, files (manifest st) !! i = Some f /\ path f = q) /\
     (forall k g, files (manifest st) !! k = Some g -> k < i -> path g <> q)).
Proof.
  intros m' said. split; [|split; [|split]].
  - rewrite (command_body_add (Add p d) {| add_path := p; add_description := d |} st eq_refl).
    simpl. fold m'.
    destruct (disk st !! resolve manifestPath) as [[data|]|] eqn:Hdoc.
    + rewrite write_at_manifestPath by congruence. reflexivity.
    + rewrite (write_at_manifestPath_Dir _ _ Hdoc). reflexivity.
    + rewrite write_at_manifestPath by congruence. reflexivity.
  - intros q content why j Hj.
    apply (command_body_other_entries _ q); [reflexivity| |exact Hj].
    left. eexists. split; reflexivity.
  - intros q j Hj.
    apply (command_body_other_entries _ q); [reflexivity| |exact Hj].
    right. split; [reflexivity|]. eexists. split; reflexivity.
  - intros q i. apply first_match_Some.
Qed.

(** C6 as the spec has it fails: the manifest is not always persisted.  A
    batch that removes the manifest document and then updates a file below
    its path leaves a directory in the place of the document; the Add that
    follows pushes its entry and fails to write it. *)
Lemma add_behind_a_displaced_document_is_not_persisted :
  in_step started /\
  fst (processCommands (rt := node) displaced_document started)
    = Thrown (fs_error "EISDIR" "open" "./autosrc.json") /\
  files (manifest (snd (processCommands (rt := node) displaced_document started)))
    = [{| path := "src/a.ts"; description := "d"; status := pending |};
       {| path := "p"; description := "d"; status := pending |}] /\
  disk (snd (processCommands (rt := node) displaced_document started)) !! resolve manifestPath
    = Some Dir /\
  ~ file_exists manifestPath (disk (snd (processCommands (rt := node) displaced_document started))).
Proof.
  split; [vm_compute; reflexivity|].
  split; [vm_compute; reflexivity|].
  split; [vm_compute; reflexivity|].
  split; [vm_compute; reflexivity|].
  intros [data H]. vm_compute in H. discriminate.
Qed.

(** ** Update on a path the manifest does not list *)

(** C7, as the code has it.  An Update whose path no entry has leaves the
    manifest as it was and makes, in this order, no calls but the line of
    output, the diagnostic when the content is not a string, [mkdir] for
    the parent directory and [writeFile] for the file: the manifest
    document is not flushed.  The write is attempted as for any Update:
    the command ends with the exception of [mkdir] or of the write when one
    of them fails, and completes otherwise; when it completes the file
    holds the content and its parent directory exists. *)
Theorem unlisted_update_writes_file_only {rt : Runtime}
    (p why : string) (content : JValue) (st : Process) :
  (forall f, f ∈ files (manifest st) -> path f <> p) ->
  let u := {| update_path := p; update_content := content; update_why := why |} in
  let c := Update p content why in
  let st' := snd (command_body c st) in
  manifest st' = manifest st /\
  (exists l, calls st' = calls st ++ l /\ l `prefix_of` update_calls u) /\
  command_body c st =
    match mkdir_at (dirname p) (disk st) with
    | (Some e, d1) => (Thrown e, moved st d1 (mkdir_calls u))
    | (None, d1) =>
        match data_of content with
        | Refused e => (Thrown e, moved st d1 (update_calls u))
        | Written bytes failure =>
            match write_at p bytes d1 with
            | (Some e, d2) => (Thrown e, moved st d2 (update_calls u))
            | (None, d2) =>
                match failure with
                | Some e => (Thrown e, moved st d2 (update_calls u))
                | None => (Value false, moved st d2 (update_calls u))
                end
            end
        end
    end /\
  (fst (command_body c st) = Value false ->
   exists bytes,
     data_of content = Written bytes None /\
     read_at p (disk st') = inr bytes /\
     dir_exists (dirname p) (disk st') /\
     calls st' = calls st ++ update_calls u).
Proof.
  intros Hnone u c st'. apply first_match_None in Hnone.
  assert (command_body c st =
    match mkdir_at (dirname p) (disk st) with
    | (Some e, d1) => (Thrown e, moved st d1 (mkdir_calls u))
    | (None, d1) =>
        match data_of content with
        | Refused e => (Thrown e, moved st d1 (update_calls u))
        | Written bytes failure =>
            match write_at p bytes d1 with
            | (Some e, d2) => (Thrown e, moved st d2 (update_calls u))
            | (None, d2) =>
                match failure with
                | Some e => (Thrown e, moved st d2 (update_calls u))
                | None => (Value false, moved st d2 (update_calls u))
                end
            end
        end
    end) as Hrun.
  { rewrite (command_body_update c u st eq_refl eq_refl). simpl.
    destruct (mkdir_at (dirname p) (disk st)) as [[e|] d1]; [reflexivity|].
    destruct (data_of content) as [e|bytes failure]; [reflexivity|].
    destruct (write_at p bytes d1) as [[e|] d2]; [reflexivity|].
    destruct failure; [reflexivity|]. rewrite Hnone. reflexivity. }
  subst st'. rewrite Hrun.
  destruct (mkdir_at (dirname p) (disk st)) as [[e|] d1] eqn:Hd1.
  { repeat split; try discriminate.
    exists (mkdir_calls u). split; [reflexivity|]. exists [fs_writeFile p content]. reflexivity. }
  assert (exists l, calls st ++ update_calls u = calls st ++ l /\ l `prefix_of` update_calls u)
    as Hall by (exists (update_calls u); split; reflexivity).
  destruct (data_of content) as [e|bytes failure] eqn:Hb.
  { repeat split; try discriminate. exact Hall. }
  destruct (write_at p bytes d1) as [[e|] d2] eqn:Hd2.
  { repeat split; try discriminate. exact Hall. }
  destruct failure as [e|].
  { repeat split; try discriminate. exact Hall. }
  repeat split; try exact Hall.
  intros _. exists bytes. cbn [snd disk moved calls].
  split; [reflexivity|]. split; [exact (read_at_written _ _ _ _ Hd2)|].
  split; [|reflexivity].
  destruct (write_at_None _ _ _ _ Hd2) as (-> & Hk & Hnodir & _).
  pose proof (mkdir_at_dir_exists _ _ _ Hd1) as Hdir. unfold dir_exists in *.
  destruct (decide (resolve (dirname p) = [])) as [->|Hne]; [reflexivity|].
  rewrite node_at_lookup in * by exact Hne.
  rewrite lookup_insert_ne; [exact Hdir|]. intros Heq. rewrite Heq in Hnodir. contradiction.
Qed.

Lemma unlisted_update_writes_file_only_witness :
  read_at "src/b.ts"
    (disk (snd (command_body (rt := node)
                  (Update "src/b.ts" (JString "export const b = 2;") "new") pending_a)))
  = inr "export const b = 2;" /\
  manifest (snd (command_body (rt := node)
                   (Update "src/b.ts" (JString "export const b = 2;") "new") pending_a))
  = manifest pending_a.
Proof.
  destruct (unlisted_update_writes_file_only (rt := node)
              "src/b.ts" "new" (JString "export const b = 2;") pending_a)
    as (Hm & _ & _ & H).
  - intros f Hf. apply list_elem_of_In in Hf. destruct Hf as [<-|[]]. vm_compute. discriminate.
  - split; [|exact Hm].
    destruct (H ltac:(vm_compute; reflexivity)) as (bytes & Hb & Hread & _).
    injection Hb as <-. exact Hread.
Defined.

(** C7 as the spec has it fails: the write does not always occur.  An
    Update of a path that ends with a separator, and an Update of a path at
    which a directory stands, make their parent directory and then fail to
    open the file; no file is written. *)
Lemma unlisted_update_may_write_nothing :
  fst (command_body (rt := node) (Update "t/a.txt/" (JString "x") "w") fresh)
    = Thrown (fs_error "EISDIR" "open" "t/a.txt/") /\
  disk (snd (command_body (rt := node) (Update "t/a.txt/" (JString "x") "w") fresh))
    = <[["t"] := Dir]> empty_disk /\
  fst (command_body (rt := node) (Update "src" (JString "x") "w") generated_a)
    = Thrown (fs_error "EISDIR" "open" "src") /\
  disk (snd (command_body (rt := node) (Update "src" (JString "x") "w") generated_a))
    = disk generated_a.
Proof. vm_compute. repeat split; reflexivity. Qed.

(** ** The batch-replay client *)

(** C8.  Given at least one input file, [main] returns without an
    exception and without [process.exit], having run [processCommandFile] on
    every file in order.  [processCommandFile] never throws: a file that
    cannot be read, does not parse, or does not hold an array, costs one
    line of output and the files after it are processed as usual; on a file
    that holds an array it runs the loop over all the commands of the
    array, in their order; an Update whose directory or whose write fails
    costs one line of output, in the place of the line that reports the
    write, and the commands after it are processed as usual. *)
Theorem replay_logs_errors_and_goes_on {rt : Runtime} (commandFiles : list string) (st : Process) :
  commandFiles <> [] ->
  main_guarded commandFiles st =
    forEach processCommandFile commandFiles
      (called (stdout_write ("Processing " +:+ pretty (length commandFiles) +:+
                             " command file(s)..." +:+ newline +:+ newline)) st) /\
  fst (main_guarded commandFiles st) = Value tt /\
  (forall before file after s,
     forEach processCommandFile (before ++ file :: after) s =
     forEach processCommandFile after
       (snd (processCommandFile file (snd (forEach processCommandFile before s))))) /\
  (forall filePath e s,
     read_at filePath (disk s) = inl e ->
     processCommandFile filePath s =
       (Value tt,
        called (stdout_write ("Error processing file " +:+ filePath +:+ ": " +:+
                              exn_text e +:+ newline)) (opened filePath s))) /\
  (forall filePath text e s,
     read_at filePath (disk s) = inr text ->
     JSON_parse text = Malformed e \/
     (JSON_parse text = NotArray /\ e = Error "Commands must be an array") ->
     processCommandFile filePath s =
       (Value tt,
        called (stdout_write ("Error parsing JSON from " +:+ filePath +:+ ": " +:+
                              exn_text e +:+ newline)) (opened filePath s))) /\
  (forall filePath text commands s,
     read_at filePath (disk s) = inr text ->
     JSON_parse text = Batch commands ->
     processCommandFile filePath s = forEach replay_command commands (opened filePath s)) /\
  (forall before c after s,
     forEach replay_command (before ++ c :: after) s =
     forEach replay_command after (snd (replay_command c (snd (forEach replay_command before s))))) /\
  (forall p content why s,
     let u := {| update_path := p; update_content := content; update_why := why |} in
     replay_command (Update p content why) s =
     match bind (ensureDirectoryExists p) (fun _ => writeFile p content) (announced u s) with
     | (Value _, s') =>
         (Value tt, called (stdout_write ("Successfully wrote: " +:+ p +:+ newline)) s')
     | (Thrown e, s') =>
         (Value tt,
          called (stdout_write ("Error writing file " +:+ p +:+ ": " +:+ exn_text e +:+ newline))
            s')
     | (Exited code, s') => (Exited code, s')
     end) /\
  (forall p content s code,
     fst (bind (ensureDirectoryExists p) (fun _ => writeFile p content) s) <> Exited code).
Proof.
  intros Hne.
  assert (main_guarded commandFiles st =
          forEach processCommandFile commandFiles
            (called (stdout_write ("Processing " +:+ pretty (length commandFiles) +:+
                                   " command file(s)..." +:+ newline +:+ newline)) st)) as Hmain.
  { unfold main_guarded, main, try_catch.
    destruct commandFiles as [|file others]; [congruence|].
    change (Nat.eqb (length (file :: others)) 0) with false. cbv beta iota. cbv [bind call].
    destruct (forEach_total processCommandFile (file :: others) processCommandFile_total
                (called (stdout_write ("Processing " +:+ pretty (length (file :: others)) +:+
                                       " command file(s)..." +:+ newline +:+ newline)) st))
      as [st' H].
    rewrite H. reflexivity. }
  split; [exact Hmain|]. split.
  { destruct (main_total commandFiles st Hne) as [st' ->]. reflexivity. }
  split.
  { intros before file after s.
    rewrite (forEach_app processCommandFile before (file :: after) processCommandFile_total).
    simpl. destruct (processCommandFile_total file (snd (forEach processCommandFile before s)))
      as [s1 H1].
    rewrite (bind_Value _ _ _ _ _ H1), H1. reflexivity. }
  split; [intros filePath e s; apply processCommandFile_unread|].
  split.
  { intros filePath text e s Hread Hparse.
    rewrite (processCommandFile_unparsed _ _ _ _ Hread Hparse). unfold opened. same_state. }
  split; [intros filePath text commands s; apply processCommandFile_parsed|].
  split.
  { intros before c after s.
    rewrite (forEach_app replay_command before (c :: after) replay_command_total).
    simpl. destruct (replay_command_total c (snd (forEach replay_command before s))) as [s1 H1].
    rewrite (bind_Value _ _ _ _ _ H1), H1. reflexivity. }
  split.
  { intros p content why s u. exact (replay_command_update (Update p content why) u s eq_refl). }
  intros p content s code.
  unfold ensureDirectoryExists, writeFile, mkdir. run; discriminate.
Qed.

Lemma replay_logs_errors_and_goes_on_witness :
  fst (main_guarded (rt := replay_node) ["bad.json"; "object.json"; "missing.json"; "good.json"]
         (boot {| files := [] |} replay_disk)) = Value tt /\
  read_at "out/x.txt"
    (disk (snd (main_guarded (rt := replay_node)
                  ["bad.json"; "object.json"; "missing.json"; "good.json"]
                  (boot {| files := [] |} replay_disk)))) = inr "hello".
Proof.
  destruct (replay_logs_errors_and_goes_on (rt := replay_node)
              ["bad.json"; "object.json"; "missing.json"; "good.json"]
              (boot {| files := [] |} replay_disk)) as (Hmain & H & _).
  - discriminate.
  - split; [exact H|]. rewrite Hmain. vm_compute. reflexivity.
Defined.

(** C9.  In the batch-replay client a Finish does not end the loop.  On a
    command file whose array holds a Finish, [processCommandFile] replays
    the commands before the Finish, writes the three lines of the report,
    which is all a Finish does, and goes on to replay every command after
    it; an Update that comes next, when its directory can be made and its
    file written, writes its file.  The interpreter of the generator, given
    the same commands, returns at the Finish and applies none of the
    commands after it. *)
Theorem replay_goes_on_after_finish {rt : Runtime}
    (filePath text report : string) (before after : list Command) (st : Process) :
  read_at filePath (disk st) = inr text ->
  JSON_parse text = Batch (before ++ Finish report :: after) ->
  let reached := snd (forEach replay_command before (opened filePath st)) in
  let reported :=
    moved reached (disk reached)
      [stdout_write (newline +:+ "Final Report:" +:+ newline);
       stdout_write (report +:+ newline);
       stdout_write (newline +:+ "Processing complete!" +:+ newline)] in
  processCommandFile filePath st = forEach replay_command after reported /\
  replay_command (Finish report) reached = (Value tt, reported) /\
  (forall p content why rest bytes d1 d2,
     after = Update p content why :: rest ->
     data_of content = Written bytes None ->
     mkdir_at (dirname p) (disk reached) = (None, d1) ->
     write_at p bytes d1 = (None, d2) ->
     processCommandFile filePath st =
       forEach replay_command rest
         (moved reported d2
            [stdout_write (newline +:+ "Processing file: " +:+ p +:+ newline);
             stdout_write ("Reason: " +:+ why +:+ newline);
             fs_mkdir (dirname p);
             fs_writeFile p content;
             stdout_write ("Successfully wrote: " +:+ p +:+ newline)]) /\
     read_at p d2 = inr bytes) /\
  (forall s s1,
     for_commands before s = (Value false, s1) ->
     for_commands (before ++ Finish report :: after) s =
       (Value true,
        moved s1 (disk s1)
          [stdout_write (newline +:+ "Generation complete!" +:+ newline);
           stdout_write report])).
Proof.
  intros Hread Hparse reached reported.
  assert (forall s, replay_command (Finish report) s =
    (Value tt,
     moved s (disk s)
       [stdout_write (newline +:+ "Final Report:" +:+ newline);
        stdout_write (report +:+ newline);
        stdout_write (newline +:+ "Processing complete!" +:+ newline)]))
    as Hfin.
  { intros s. unfold replay_command. cbv [bind call]. simpl. same_state. }
  assert (processCommandFile filePath st = forEach replay_command after reported) as Hrun.
  { rewrite (processCommandFile_parsed _ _ _ _ Hread Hparse).
    rewrite (forEach_app replay_command before (Finish report :: after) replay_command_total).
    rewrite forEach_cons. fold reached. rewrite (bind_Value _ _ _ _ _ (Hfin reached)).
    reflexivity. }
  split; [exact Hrun|]. split; [apply Hfin|]. split.
  { intros p content why rest bytes d1 d2 -> Hb Hd1 Hd2. split.
    - rewrite Hrun, forEach_cons.
      rewrite (bind_Value _ _ _ _ _
                 (replay_command_writes (Update p content why)
                    {| update_path := p; update_content := content; update_why := why |}
                    reported d1 d2 bytes eq_refl Hd1 Hb Hd2)).
      reflexivity.
    - exact (read_at_written _ _ _ _ Hd2). }
  intros s s1 Hpre. rewrite for_commands_app, Hpre, for_commands_cons.
  rewrite (bind_Value _ _ _ _ _
             (command_body_finish (Finish report) report s1 eq_refl eq_refl eq_refl eq_refl)).
  reflexivity.
Qed.

Lemma replay_goes_on_after_finish_witness :
  read_at "out/y.txt"
    (disk (snd (processCommandFile (rt := replay_node) "good.json"
                  (boot {| files := [] |} replay_disk))))
  = inr "after the report".
Proof.
  destruct (replay_goes_on_after_finish (rt := replay_node) "good.json" (batch_text hello_batch)
              "done" [Update "out/x.txt" (JString "hello") "test"]
              [Update "out/y.txt" (JString "after the report") "test"]
              (boot {| files := [] |} replay_disk)
              ltac:(vm_compute; reflexivity) ltac:(vm_compute; reflexivity))
    as (Hrun & _).
  rewrite Hrun. vm_compute. reflexivity.
Defined.

(** ** Objects that are no command *)

Lemma for_commands_skip {rt : Runtime} (before after : list Command) (c : Command) (st : Process) :
  (forall s, command_body c s = (Value false, s)) ->
  for_commands (before ++ c :: after) st = for_commands (before ++ after) st.
Proof.
  intros Hc. rewrite !for_commands_app.
  destruct (for_commands before st) as [[[|]|e|code] st1]; try reflexivity.
  simpl. rewrite (bind_Value _ _ _ _ _ (Hc st1)). reflexivity.
Qed.

Lemma forEach_skip {A} (f : A -> Prog unit) (before after : list A) (x : A) (st : Process) :
  (forall s, f x s = (Value tt, s)) ->
  forEach f (before ++ x :: after) st = forEach f (before ++ after) st.
Proof.
  intros Hx. revert st. induction before as [|y before IH]; intros st; simpl.
  - rewrite (bind_Value _ _ _ _ _ (Hx st)). reflexivity.
  - unfold bind. destruct (f y st) as [[[]|e|code] st1]; try reflexivity. apply IH.
Qed.

(** The interpreter skips an object without [add], [update], [remove] and
    [finish]; the client skips one without [update], [continue] and
    [finish]. *)
Lemma command_body_skips {rt : Runtime} (k : option (list string)) (st : Process) :
  command_body {| cmd_add := None; cmd_update := None; cmd_remove := None;
                  cmd_finish := None; cmd_continue := k |} st = (Value false, st).
Proof. reflexivity. Qed.

Lemma replay_command_skips {rt : Runtime} (a : option AddPayload) (r : option RemovePayload)
      (st : Process) :
  replay_command {| cmd_add := a; cmd_update := None; cmd_remove := r;
                    cmd_finish := None; cmd_continue := None |} st = (Value tt, st).
Proof. reflexivity. Qed.

(** C10.  An object with none of the keys is passed over by the
    interpreter and by the batch-replay client alike: the state after it,
    the record of calls included, is the state before it, nothing is thrown,
    and the rest of the batch is processed as if the object were not
    there. *)
Theorem objects_without_keys_are_skipped {rt : Runtime}
    (before after : list Command) (st : Process) :
  command_body no_keys st = (Value false, st) /\
  for_commands (before ++ no_keys :: after) st = for_commands (before ++ after) st /\
  replay_command no_keys st = (Value tt, st) /\
  forEach replay_command (before ++ no_keys :: after) st
  = forEach replay_command (before ++ after) st.
Proof.
  split; [reflexivity|]. split; [apply for_commands_skip; reflexivity|].
  split; [reflexivity|]. apply forEach_skip. reflexivity.
Qed.

(** * Further properties of the programs *)

(** ** Invariants under sequencing *)

Lemma keeps_ret (I : Process -> Prop) {A} (a : A) : keeps I (ret a).
Proof. intros st H. exact H. Qed.

Lemma keeps_throw (I : Process -> Prop) {A} (e : Exn) : keeps I (@throw A e).
Proof. intros st H. exact H. Qed.

Lemma keeps_bind (I : Process -> Prop) {A B} (c : Prog A) (k : A -> Prog B) :
  keeps I c -> (forall a, keeps I (k a)) -> keeps I (bind c k).
Proof.
  intros Hc Hk st H. unfold bind. specialize (Hc st H).
  destruct (c st) as [[a|e|code] st1]; simpl in *; [apply Hk| |]; assumption.
Qed.

Lemma keeps_try_catch (I : Process -> Prop) {A} (body : Prog A) (handler : Exn -> Prog A) :
  keeps I body -> (forall e, keeps I (handler e)) -> keeps I (try_catch body handler).
Proof.
  intros Hb Hh st H. unfold try_catch. specialize (Hb st H).
  destruct (body st) as [[a|e|code] st1]; simpl in *; [|apply Hh|]; assumption.
Qed.

Lemma keeps_if (I : Process -> Prop) {A} (b : bool) (c1 c2 : Prog A) :
  keeps I c1 -> keeps I c2 -> keeps I (if b then c1 else c2).
Proof. destruct b; auto. Qed.

(** ** The manifest document stays in step with the manifest *)

Section InStep.
Context {rt : Runtime}.

Lemma in_step_call (c : Call) : keeps in_step (call c).
Proof. intros st H. exact H. Qed.

Lemma in_step_exit {A} (code : Z) : keeps in_step (@exit A code).
Proof. intros st H. exact H. Qed.

Lemma in_step_mkdir (dir : string) : keeps in_step (mkdir dir).
Proof.
  intros st H. unfold in_step, mkdir in *. cbv [bind call on_disk]. simpl.
  destruct (mkdir_at dir (disk st)) as [r d] eqn:Hd.
  pose proof (mkdir_at_files _ _ _ _ Hd (resolve manifestPath)
                (stringify_manifest (manifest st))) as Hf.
  destruct r; simpl; apply Hf; exact H.
Qed.

Lemma in_step_writeFile (p : string) (data : JValue) :
  resolve p <> resolve manifestPath -> keeps in_step (writeFile p data).
Proof.
  intros Hp st H. unfold in_step, writeFile in *. cbv [bind call on_disk throw ret]. simpl.
  destruct (data_of data) as [e|bytes failure]; simpl; [exact H|].
  destruct (write_at p bytes (disk st)) as [[e|] d] eqn:Hw; simpl.
  - destruct (write_at_Some _ _ _ _ _ Hw) as [-> _]. exact H.
  - destruct (write_at_None _ _ _ _ Hw) as (-> & _).
    destruct failure; simpl; rewrite lookup_insert_ne by exact Hp; exact H.
Qed.

Lemma in_step_unlink (p : string) :
  resolve p <> resolve manifestPath -> keeps in_step (unlink p).
Proof.
  intros Hp st H. unfold in_step, unlink in *. cbv [bind call on_disk]. simpl.
  destruct (unlink_at p (disk st)) as [[e|] d] eqn:Hu; simpl.
  - rewrite (unlink_at_Some _ _ _ _ Hu). exact H.
  - rewrite (unlink_at_None _ _ _ Hu), lookup_delete_ne by exact Hp. exact H.
Qed.

Lemma in_step_readFile (p : string) : keeps in_step (readFile p).
Proof.
  intros st H. unfold readFile. cbv [bind call]. simpl.
  destruct (read_at p (disk st)); exact H.
Qed.

(** Whatever the manifest has become, a flush puts the document in step,
    provided the document was in step before the manifest changed. *)
Lemma saveManifest_in_step (st : Process) (m : Manifest) :
  in_step st -> in_step (snd (saveManifest (with_manifest m st))).
Proof.
  intros H. unfold in_step in *. unfold saveManifest, writeFile. cbv [bind call on_disk ret]. simpl.
  rewrite write_at_manifestPath by (rewrite H; discriminate). simpl. apply lookup_insert_eq.
Qed.

Lemma in_step_marked (filePath : string) (s : Status) :
  keeps in_step
    (bind (find filePath)
       (fun file => match file with
                    | Some i => bind (assign_status i s)
                                  (fun _ => bind saveManifest (fun _ => ret false))
                    | None => ret false
                    end)).
Proof.
  intros st H. unfold find, assign_status. cbv [bind ret]. simpl.
  destruct (fst <$> list_find _ (files (manifest st))) as [i|]; simpl; [|exact H].
  pose proof (saveManifest_in_step st {| files := alter (set_status s) i (files (manifest st)) |} H)
    as Hs.
  destruct (saveManifest _) as [[[]|e|code] st']; exact Hs.
Qed.

Lemma in_step_command_body (c : Command) :
  spares_document c = true -> keeps in_step (command_body c).
Proof.
  unfold spares_document, target, command_body.
  destruct (cmd_add c) as [a|].
  { intros _ st H. unfold push. cbv [bind call ret]. simpl.
    pose proof (saveManifest_in_step (called (stdout_write ("ADD " +:+ add_path a +:+ newline)) st)
                  {| files := files (manifest st) ++
                       [{| path := add_path a; description := add_description a;
                           status := pending |}] |} H) as Hs.
    unfold with_manifest in Hs. simpl in Hs.
    destruct (saveManifest _) as [[[]|e|code] st']; exact Hs. }
  destruct (cmd_update c) as [u|].
  { intros Hp. apply bool_decide_eq_true in Hp.
    apply keeps_bind; [apply in_step_call|intros _].
    apply keeps_bind; [apply keeps_if; [apply keeps_ret|apply in_step_call]|intros _].
    apply keeps_bind; [apply in_step_mkdir|intros _].
    apply keeps_bind; [apply in_step_writeFile; exact Hp|intros _].
    apply in_step_marked. }
  destruct (cmd_remove c) as [r|].
  { intros Hp. apply bool_decide_eq_true in Hp.
    apply keeps_bind; [apply in_step_call|intros _].
    apply keeps_bind; [apply in_step_unlink; exact Hp|intros _].
    apply in_step_marked. }
  intros _. destruct (cmd_finish c).
  - apply keeps_bind; [apply in_step_call|intros _].
    apply keeps_bind; [apply in_step_call|intros _]. apply keeps_ret.
  - apply keeps_ret.
Qed.

Lemma in_step_for_commands (commands : list Command) :
  forallb spares_document commands = true -> keeps in_step (for_commands commands).
Proof.
  induction commands as [|c rest IH]; simpl; [intros _; apply keeps_ret|].
  intros H. apply andb_true_iff in H as [Hc Hrest].
  apply keeps_bind; [apply in_step_command_body; exact Hc|].
  intros [|]; [apply keeps_ret|apply IH; exact Hrest].
Qed.

Lemma in_step_processCommands (commands : list Command) :
  forallb spares_document commands = true -> keeps in_step (processCommands commands).
Proof.
  intros H. apply keeps_bind; [apply in_step_call|intros _].
  apply in_step_for_commands. exact H.
Qed.

Lemma in_step_map_clauses (clauses : list JValue) : keeps in_step (map_clauses clauses).
Proof.
  induction clauses as [|clause rest IH]; simpl; [apply keeps_ret|].
  apply keeps_bind.
  - unfold preload_clause. destruct clause as [s|r|b| | |items|fields];
      try apply keeps_ret; try apply keeps_throw.
    destruct (property "import" fields) as [[file|r|b| | |items|fields']|];
      try apply keeps_ret.
    apply keeps_try_catch; [|intros e; apply keeps_ret].
    apply keeps_bind; [apply in_step_readFile|intros buffer; apply keeps_ret].
  - intros promise. apply keeps_bind; [exact IH|intros promises; apply keeps_ret].
Qed.

Lemma in_step_Promise_all {A} (promises : list (Exn + A)) : keeps in_step (Promise_all promises).
Proof.
  induction promises as [|[e|a] rest IH]; simpl;
    [apply keeps_ret|apply keeps_throw|].
  apply keeps_bind; [exact IH|intros values; apply keeps_ret].
Qed.

Lemma in_step_preload : keeps in_step preload.
Proof.
  intros st H. unfold preload. destruct (specContent st); try exact H.
  apply (keeps_bind in_step); [apply in_step_map_clauses| |exact H].
  intros promises. apply in_step_Promise_all.
Qed.

Lemma in_step_caught (errors : list string) (e : Exn) (st : Process) :
  in_step st -> in_step (snd (caught errors e st)).
Proof. intros H. destruct errors; exact H. Qed.

Lemma in_step_cycle (reply : Reply) (errors : list string) :
  forallb spares_document (commands_of reply) = true -> keeps in_step (cycle reply errors).
Proof.
  intros Hr st H. pose proof (in_step_preload st H) as H1.
  destruct (preload st) as [[pl|e|code] st1] eqn:Hpl; simpl in H1.
  - destruct reply as [e|e|commands].
    + rewrite (cycle_failure (Rejects e) e errors st st1 pl eq_refl Hpl).
      apply in_step_caught. exact H1.
    + rewrite (cycle_failure (Unparseable e) e errors st st1 pl eq_refl Hpl).
      apply in_step_caught. exact H1.
    + rewrite (cycle_parses commands errors st st1 pl Hpl).
      pose proof (in_step_processCommands commands Hr
                    (called (messages_create (request pl (manifest st1) errors)) st1) H1) as H3.
      destruct (processCommands commands _) as [[b|e|code] st3]; simpl in *;
        [exact H3|apply in_step_caught; exact H3|exact H3].
  - unfold cycle. rewrite (bind_Thrown _ _ _ _ _ Hpl). exact H1.
  - unfold cycle. rewrite (bind_Exited _ _ _ _ _ Hpl). exact H1.
Qed.

Lemma in_step_generate_from (replies : list Reply) :
  forallb (fun reply => forallb spares_document (commands_of reply)) replies = true ->
  forall errors, keeps in_step (generate_from errors replies).
Proof.
  induction replies as [|reply later IH]; simpl; [intros _ errors; apply keeps_ret|].
  intros H errors. apply andb_true_iff in H as [Hr Hlater].
  apply keeps_bind; [apply in_step_cycle; exact Hr|].
  intros [fin errs]. simpl. destruct fin; [apply keeps_ret|apply IH; exact Hlater].
Qed.

(** X1.  A batch none of whose Updates and Removes aims at the manifest
    document leaves the document in step with the manifest, whether the
    batch is applied to its end, stops at a Finish or is cut short by an
    exception. *)
Theorem document_in_step_after_batch (commands : list Command) (st : Process) :
  in_step st ->
  forallb spares_document commands = true ->
  in_step (snd (processCommands commands st)).
Proof. intros H Hc. exact (in_step_processCommands commands Hc st H). Qed.

(** X2.  The same for a run of [generate]: with replies whose commands
    spare the manifest document, the document is in step with the manifest
    when the run finishes, exits, is thrown out of by [preload], or waits
    for the next reply. *)
Theorem document_in_step_after_run (replies : list Reply) (st : Process) :
  in_step st ->
  forallb (fun reply => forallb spares_document (commands_of reply)) replies = true ->
  in_step (snd (generate replies st)).
Proof. intros H Hr. exact (in_step_generate_from replies Hr [] st H). Qed.

End InStep.

Lemma document_in_step_after_batch_witness :
  in_step (snd (processCommands (rt := node)
                  [Update "src/a.ts" (JString "export {}") "first"; Remove "src/b.ts";
                   Add "src/c.ts" "never reached"] started)).
Proof.
  apply (document_in_step_after_batch (rt := node)); vm_compute; reflexivity.
Defined.

Lemma document_in_step_after_run_witness :
  in_step (snd (generate (rt := node)
                  [Parses [Add "src/b.ts" "b"]; Unparseable bad_json;
                   Parses [Update "src/b.ts" (JNumber "1") "bad"]] started)).
Proof.
  apply (document_in_step_after_run (rt := node)); vm_compute; reflexivity.
Defined.

(** ** Entries behind an entry of the same path *)

Section Entries.
Context {rt : Runtime}.

Lemma set_status_same (f f' : ManifestFile) :
  path f' = path f -> description f' = description f -> status f' = status f -> f' = f.
Proof. destruct f, f'; simpl; intros -> -> ->; reflexivity. Qed.

Lemma command_body_shadowed (c : Command) (st : Process) (i j : nat) (g f : ManifestFile) :
  i < j ->
  files (manifest st) !! i = Some g -> files (manifest st) !! j = Some f ->
  path g = path f ->
  files (manifest (snd (command_body c st))) !! j = Some f.
Proof.
  intros Hij Hg Hf Hp.
  destruct (command_body_entry c st j f Hf) as (f' & Hf' & Hpath & Hdesc & Hs).
  rewrite Hf'. f_equal. apply set_status_same; try assumption.
  destruct Hs as [Hs|[(_ & _ & u & _ & Hm)|(_ & _ & _ & r & _ & Hm)]]; [exact Hs| |];
    exfalso; apply first_match_Some in Hm as [[f0 [Hf0 Hp0]] Hmin];
    rewrite Hf in Hf0; injection Hf0 as <-;
    apply (Hmin i g Hg Hij); congruence.
Qed.

(** X3.  An entry that stands behind an entry of the same path is never
    touched: whatever the batch, it is afterwards at its position exactly
    as it was, status included. *)
Theorem shadowed_entry_is_frozen (commands : list Command) (st : Process)
    (i j : nat) (g f : ManifestFile) :
  i < j ->
  files (manifest st) !! i = Some g -> files (manifest st) !! j = Some f ->
  path g = path f ->
  files (manifest (snd (processCommands commands st))) !! j = Some f.
Proof.
  intros Hij Hg Hf Hp. unfold processCommands. cbv [bind call].
  change (files (manifest st)) with
    (files (manifest (called (stdout_write ("Received " +:+ pretty (length commands) +:+
                                            " commands from Claude" +:+ newline)) st))) in Hg, Hf.
  revert Hg Hf. generalize (called (stdout_write ("Received " +:+ pretty (length commands) +:+
                                                  " commands from Claude" +:+ newline)) st).
  clear st. intros st. revert st g Hp.
  induction commands as [|c rest IH]; intros st g Hp Hg Hf; simpl; [exact Hf|].
  pose proof (command_body_shadowed c st i j g f Hij Hg Hf Hp) as Hf1.
  destruct (command_body_entry c st i g Hg) as (g1 & Hg1 & Hpg & _).
  unfold bind. destruct (command_body c st) as [[[|]|e|code] st1]; simpl in *; try exact Hf1.
  apply (IH st1 g1); congruence.
Qed.

End Entries.

Lemma shadowed_entry_is_frozen_witness :
  files (manifest (snd (processCommands (rt := node)
                          [Update "src/a.ts" (JString "x") "w"; Remove "src/a.ts"] doubled))) !! 1
  = Some {| path := "src/a.ts"; description := "again"; status := pending |}.
Proof.
  apply (shadowed_entry_is_frozen (rt := node) _ doubled 0 1
           {| path := "src/a.ts"; description := "d"; status := pending |});
    [lia|reflexivity|reflexivity|reflexivity].
Defined.

(** ** What a batch adds to the sequence *)

Section Growth.
Context {rt : Runtime}.

Lemma label_alter (s : Status) (i : nat) (fs : list ManifestFile) :
  label <$> alter (set_status s) i fs = label <$> fs.
Proof.
  revert i. induction fs as [|f fs IH]; intros [|i]; simpl; try reflexivity.
  f_equal. apply IH.
Qed.

Lemma command_body_labels (c : Command) (st : Process) :
  label <$> files (manifest (snd (command_body c st))) =
  (label <$> files (manifest st)) ++ added [c].
Proof.
  unfold added, command_body, saveManifest, writeFile, mkdir, unlink, push, find, assign_status.
  simpl. destruct (cmd_add c) as [a|]; simpl.
  { run; rewrite fmap_app; reflexivity. }
  rewrite app_nil_r.
  destruct (cmd_update c) as [u|]; [run; rewrite ?label_alter; reflexivity|].
  destruct (cmd_remove c) as [r|]; [run; rewrite ?label_alter; reflexivity|].
  destruct (cmd_finish c); run; reflexivity.
Qed.

Lemma added_cons (c : Command) (rest : list Command) : added (c :: rest) = added [c] ++ added rest.
Proof. unfold added. simpl. destruct (cmd_add c); reflexivity. Qed.

Lemma command_body_true_adds_nothing (c : Command) (st st' : Process) :
  command_body c st = (Value true, st') -> added [c] = [].
Proof.
  intros H. apply command_body_true in H as (Ha & _). unfold added. simpl. rewrite Ha. reflexivity.
Qed.

(** X4.  A batch changes the sequence of labels (path and description) of
    the manifest only by appending to it, in their order, the labels of its
    Adds: all of them when the batch is applied to its end without a
    Finish, a first part of them otherwise. *)
Theorem batch_appends_its_adds (commands : list Command) (st : Process) :
  (exists n, label <$> files (manifest (snd (processCommands commands st))) =
             (label <$> files (manifest st)) ++ take n (added commands)) /\
  (fst (processCommands commands st) = Value false ->
   label <$> files (manifest (snd (processCommands commands st))) =
   (label <$> files (manifest st)) ++ added commands).
Proof.
  unfold processCommands. cbv [bind call].
  change (files (manifest st)) with
    (files (manifest (called (stdout_write ("Received " +:+ pretty (length commands) +:+
                                            " commands from Claude" +:+ newline)) st))).
  generalize (called (stdout_write ("Received " +:+ pretty (length commands) +:+
                                    " commands from Claude" +:+ newline)) st).
  clear st. induction commands as [|c rest IH]; intros st.
  - simpl. split; [exists 0|intros _]; rewrite ?app_nil_r; reflexivity.
  - rewrite for_commands_cons, added_cons. pose proof (command_body_labels c st) as Hc.
    unfold bind. destruct (command_body c st) as [[[|]|e|code] st1] eqn:Hb; cbn [fst snd] in *.
    + rewrite (command_body_true_adds_nothing _ _ _ Hb) in *. cbn [app].
      split; [exists 0; rewrite take_0; exact Hc|discriminate].
    + destruct (IH st1) as [[n Hn] Hall]. split.
      * exists (length (added [c]) + n).
        rewrite Hn, Hc, <- app_assoc, take_app_add'; reflexivity.
      * intros Hv. rewrite (Hall Hv), Hc, <- app_assoc. reflexivity.
    + split; [|discriminate]. exists (length (added [c])).
      rewrite take_app_length. exact Hc.
    + split; [|discriminate]. exists (length (added [c])).
      rewrite take_app_length. exact Hc.
Qed.

End Growth.

Lemma batch_appends_its_adds_witness :
  label <$> files (manifest (snd (processCommands (rt := node)
                                    [Add "src/b.ts" "b"; Update "src/a.ts" (JString "x") "w";
                                     Add "src/a.ts" "again"] pending_a)))
  = [("src/a.ts", "d"); ("src/b.ts", "b"); ("src/a.ts", "again")].
Proof.
  destruct (batch_appends_its_adds (rt := node)
              [Add "src/b.ts" "b"; Update "src/a.ts" (JString "x") "w"; Add "src/a.ts" "again"]
              pending_a) as [_ H].
  rewrite H; [reflexivity|vm_compute; reflexivity].
Defined.

(** ** Commands applied twice *)

Section Twice.
Context {rt : Runtime}.

Lemma first_match_alter (p : string) (s : Status) (k : nat) (fs : list ManifestFile) :
  first_match p (alter (set_status s) k fs) = first_match p fs.
Proof.
  unfold first_match. revert k. induction fs as [|f fs IH]; intros k; [reflexivity|].
  destruct k as [|k]; simpl.
  - destruct (decide (path f = p)); [reflexivity|].
    destruct (list_find _ fs) as [[? ?]|]; reflexivity.
  - destruct (decide (path f = p)); [reflexivity|].
    specialize (IH k). simpl in IH.
    change (alter (set_status s) k fs) with (list_alter (set_status s) k fs) in IH.
    destruct (list_find _ (list_alter (set_status s) k fs)) as [[? ?]|];
      destruct (list_find _ fs) as [[? ?]|]; simpl in *; congruence.
Qed.

Lemma alter_set_status_twice (s : Status) (i : nat) (fs : list ManifestFile) :
  alter (set_status s) i (alter (set_status s) i fs) = alter (set_status s) i fs.
Proof.
  revert i. induction fs as [|f fs IH]; intros [|i]; simpl; try reflexivity.
  f_equal. apply IH.
Qed.

(** An Update of a listed path whose content [fs.writeFile] writes, on a
    disk that lets the directory be made and the two files be written. *)
Lemma command_body_update_listed (c : Command) (u : UpdatePayload) (st : Process)
      (bytes : string) (d1 d2 : gmap (list string) Node) (i : nat) :
  cmd_add c = None -> cmd_update c = Some u ->
  data_of (update_content u) = Written bytes None ->
  mkdir_at (dirname (update_path u)) (disk st) = (None, d1) ->
  write_at (update_path u) bytes d1 = (None, d2) ->
  first_match (update_path u) (files (manifest st)) = Some i ->
  d2 !! resolve manifestPath <> Some Dir ->
  let m' := {| files := alter (set_status generated) i (files (manifest st)) |} in
  command_body c st =
  (Value false,
   {| manifest := m'; specContent := specContent st;
      disk := <[resolve manifestPath := File (stringify_manifest m')]> d2;
      calls := calls st ++ update_calls u ++
               [fs_writeFile manifestPath (JString (stringify_manifest m'))] |}).
Proof.
  intros Ha Hu Hb Hd1 Hd2 Hi Hdoc m'.
  rewrite (command_body_update c u st Ha Hu). cbv zeta.
  rewrite Hd1, Hb, Hd2, Hi. fold m'. rewrite (write_at_manifestPath _ _ Hdoc). reflexivity.
Qed.

(** X5.  An Update is idempotent.  Take an Update of a listed path, other
    than the manifest document, that succeeds: the file holds the bytes,
    the first entry of the path is Generated, the document is in step.
    Applied again in the state it left, it succeeds again and leaves the
    manifest and the disk exactly as they are. *)
Theorem update_is_idempotent (p why bytes : string) (content : JValue) (st : Process)
    (d1 d2 : gmap (list string) Node) (i : nat) :
  data_of content = Written bytes None ->
  mkdir_at (dirname p) (disk st) = (None, d1) ->
  write_at p bytes d1 = (None, d2) ->
  first_match p (files (manifest st)) = Some i ->
  resolve p <> resolve manifestPath ->
  d2 !! resolve manifestPath <> Some Dir ->
  let st1 := snd (command_body (Update p content why) st) in
  let st2 := snd (command_body (Update p content why) st1) in
  fst (command_body (Update p content why) st) = Value false /\
  read_at p (disk st1) = inr bytes /\
  status <$> files (manifest st1) !! i = Some generated /\
  in_step st1 /\
  fst (command_body (Update p content why) st1) = Value false /\
  manifest st2 = manifest st1 /\
  disk st2 = disk st1.
Proof.
  intros Hb Hd1 Hd2 Hi Hp Hdoc st1 st2.
  set (u := {| update_path := p; update_content := content; update_why := why |}).
  pose proof (command_body_update_listed (Update p content why) u st bytes d1 d2 i
                eq_refl eq_refl Hb Hd1 Hd2 Hi Hdoc) as Hrun1.
  destruct (write_at_None _ _ _ _ Hd2) as (Hd2eq & Hk & Hnodir & Hplace).
  set (m1 := {| files := alter (set_status generated) i (files (manifest st)) |}) in *.
  set (d3 := <[resolve manifestPath := File (stringify_manifest m1)]> d2) in *.
  assert (keeps_directories d1 d2) as Hdirs2.
  { rewrite Hd2eq. apply keeps_directories_written. exact Hnodir. }
  assert (keeps_directories d2 d3) as Hdirs3.
  { apply keeps_directories_written. exact Hdoc. }
  assert (keeps_directories d1 d3) as Hdirs.
  { intros k Hdir. apply Hdirs3, Hdirs2, Hdir. }
  assert (d3 !! resolve p = Some (File bytes)) as Hfile.
  { unfold d3. rewrite lookup_insert_ne by congruence. rewrite Hd2eq. apply lookup_insert_eq. }
  assert (mkdir_at (dirname p) d3 = (None, d3)) as Hd1'.
  { exact (mkdir_at_again _ _ _ _ Hd1 Hdirs). }
  assert (write_at p bytes d3 = (None, d3)) as Hd2'.
  { rewrite (write_at_again _ _ bytes _ _ d3 Hd2 Hdirs) by (rewrite Hfile; discriminate).
    rewrite insert_id by exact Hfile. reflexivity. }
  assert (read_at p d3 = inr bytes) as Hread.
  { unfold read_at. rewrite (place_keeps _ _ _ _ _ Hdirs Hplace), Hfile. reflexivity. }
  assert (first_match p (files m1) = Some i) as Hi'.
  { unfold m1. simpl. rewrite first_match_alter. exact Hi. }
  assert (d3 !! resolve manifestPath <> Some Dir) as Hdoc'.
  { unfold d3. rewrite lookup_insert_eq. discriminate. }
  assert (<[resolve manifestPath := File (stringify_manifest m1)]> d3 = d3) as Hsame.
  { apply insert_id. unfold d3. apply lookup_insert_eq. }
  subst st2 st1. rewrite Hrun1. cbn [fst snd].
  match goal with
  | |- context [command_body _ ?s1] =>
      pose proof (command_body_update_listed (Update p content why) u s1 bytes d3 d3 i
                    eq_refl eq_refl Hb Hd1' Hd2' Hi' Hdoc') as Hrun2
  end.
  cbn [manifest files disk specContent calls] in Hrun2.
  assert ({| files := alter (set_status generated) i (files m1) |} = m1) as Hm.
  { unfold m1. simpl. rewrite alter_set_status_twice. reflexivity. }
  rewrite Hm, Hsame in Hrun2.
  rewrite Hrun2. cbn [fst snd manifest disk].
  split; [reflexivity|].
  split; [exact Hread|].
  split.
  { apply first_match_Some in Hi as [[f [Hf _]] _].
    unfold m1. simpl. rewrite list_lookup_alter_eq, Hf. reflexivity. }
  split; [unfold in_step, d3; simpl; apply lookup_insert_eq|].
  repeat split.
Qed.

(** X6.  A Remove is not idempotent.  After a Remove that succeeded, of a
    file other than the manifest document, the same Remove throws [ENOENT]
    and changes neither the manifest nor the disk. *)
Theorem remove_again_throws (p : string) (st : Process) :
  file_exists p (disk st) ->
  resolve p <> resolve manifestPath ->
  disk st !! resolve manifestPath <> Some Dir ->
  let st1 := snd (command_body (Remove p) st) in
  exists e,
    command_body (Remove p) st1 =
      (Thrown e,
       {| manifest := manifest st1; specContent := specContent st1; disk := disk st1;
          calls := calls st1 ++ [stdout_write ("REMOVE " +:+ p +:+ newline); fs_unlink p] |}) /\
    exn_code e = Some "ENOENT".
Proof.
  intros Hfile Hp Hdoc st1.
  apply file_exists_Entry in Hfile as Hentry. destruct Hentry as (data & Hplace & Hdata).
  assert (keeps_directories (disk st) (disk st1) /\ disk st1 !! resolve p = None) as [Hdirs Hgone].
  { unfold st1.
    rewrite (command_body_remove_file (Remove p) {| remove_path := p |} st
               eq_refl eq_refl eq_refl Hfile Hp Hdoc). simpl.
    assert (keeps_directories (disk st) (delete (resolve p) (disk st))) as Hdel.
    { intros k Hk. rewrite lookup_delete_ne; [exact Hk|]. intros <-. congruence. }
    destruct (first_match p (files (manifest st))); simpl.
    - split.
      + intros k Hk. apply keeps_directories_written; [|apply Hdel, Hk].
        rewrite lookup_delete_ne by exact Hp. exact Hdoc.
      + rewrite lookup_insert_ne by congruence. apply lookup_delete_eq.
    - split; [exact Hdel|apply lookup_delete_eq]. }
  destruct (command_body_remove_no_file (Remove p) {| remove_path := p |} st1
              eq_refl eq_refl eq_refl) as (e & Hrun & Hcode).
  { intros Hstill. apply file_exists_lookup in Hstill as (_ & data' & Hdata'). simpl in Hdata'.
    congruence. }
  exists e. split; [exact Hrun|]. rewrite Hcode. simpl. unfold unlink_code.
  rewrite (place_keeps _ _ _ _ _ Hdirs Hplace), Hgone. reflexivity.
Qed.

End Twice.

Lemma update_is_idempotent_witness :
  disk (snd (command_body (rt := node) (Update "src/a.ts" (JString "export {}") "first")
               (snd (command_body (rt := node) (Update "src/a.ts" (JString "export {}") "first")
                       started))))
  = disk (snd (command_body (rt := node) (Update "src/a.ts" (JString "export {}") "first")
                 started)).
Proof.
  destruct (update_is_idempotent (rt := node) "src/a.ts" "first" "export {}"
              (JString "export {}") started
              (snd (mkdir_at "src" (disk started)))
              (snd (write_at "src/a.ts" "export {}" (snd (mkdir_at "src" (disk started)))))
              0 eq_refl ltac:(vm_compute; reflexivity) ltac:(vm_compute; reflexivity)
              ltac:(vm_compute; reflexivity) ltac:(vm_compute; discriminate)
              ltac:(vm_compute; discriminate)) as (_ & _ & _ & _ & _ & _ & H).
  exact H.
Defined.

Lemma remove_again_throws_witness :
  exists e,
    fst (command_body (rt := node) (Remove "src/a.ts")
           (snd (command_body (rt := node) (Remove "src/a.ts") generated_a))) = Thrown e /\
    exn_code e = Some "ENOENT".
Proof.
  destruct (remove_again_throws (rt := node) "src/a.ts" generated_a) as (e & H & Hcode).
  - exists "export const a = 1;". vm_compute. reflexivity.
  - vm_compute. discriminate.
  - vm_compute. discriminate.
  - exists e. rewrite H. split; [reflexivity|exact Hcode].
Defined.

(** ** What the programs call *)

Lemma only_called_refl (allowed : Call -> bool) (st0 : Process) : only_called allowed st0 st0.
Proof. exists []. split; [rewrite app_nil_r|]; reflexivity. Qed.

Lemma only_called_trans (allowed : Call -> bool) (st0 st1 st2 : Process) :
  only_called allowed st0 st1 -> only_called allowed st1 st2 -> only_called allowed st0 st2.
Proof.
  intros (l1 & H1 & A1) (l2 & H2 & A2). exists (l1 ++ l2).
  rewrite H2, H1, app_assoc, forallb_app, A1, A2. split; reflexivity.
Qed.

Lemma keeps_only_called_call (allowed : Call -> bool) (st0 : Process) (c : Call) :
  allowed c = true -> keeps (only_called allowed st0) (call c).
Proof.
  intros Hc st (l & Hl & Hall). exists (l ++ [c]). simpl.
  rewrite Hl, app_assoc, forallb_app, Hall. simpl. rewrite Hc. split; reflexivity.
Qed.

(** A program that makes no call keeps every such invariant. *)
Lemma keeps_only_called_silent (allowed : Call -> bool) (st0 : Process) {A} (c : Prog A) :
  (forall st, calls (snd (c st)) = calls st) -> keeps (only_called allowed st0) c.
Proof. intros Hc st (l & Hl & Hall). exists l. rewrite Hc. split; assumption. Qed.

Lemma on_disk_silent (op : gmap (list string) Node -> option Exn * gmap (list string) Node)
      (st : Process) :
  calls (snd (on_disk op st)) = calls st.
Proof. unfold on_disk. destruct (op (disk st)) as [[e|] d]; reflexivity. Qed.

Section Calls.
Context {rt : Runtime}.
Variable allowed : Call -> bool.
Variable st0 : Process.

Lemma keeps_only_called_mkdir (dir : string) :
  allowed (fs_mkdir dir) = true -> keeps (only_called allowed st0) (mkdir dir).
Proof.
  intros H. apply keeps_bind; [apply keeps_only_called_call; exact H|intros _].
  apply keeps_only_called_silent, on_disk_silent.
Qed.

Lemma keeps_only_called_writeFile (p : string) (data : JValue) :
  allowed (fs_writeFile p data) = true -> keeps (only_called allowed st0) (writeFile p data).
Proof.
  intros H. apply keeps_bind; [apply keeps_only_called_call; exact H|intros _].
  destruct (data_of data) as [e|bytes failure]; [apply keeps_throw|].
  apply keeps_bind; [apply keeps_only_called_silent, on_disk_silent|intros _].
  destruct failure; [apply keeps_throw|apply keeps_ret].
Qed.

Lemma keeps_only_called_unlink (p : string) :
  allowed (fs_unlink p) = true -> keeps (only_called allowed st0) (unlink p).
Proof.
  intros H. apply keeps_bind; [apply keeps_only_called_call; exact H|intros _].
  apply keeps_only_called_silent, on_disk_silent.
Qed.

Lemma keeps_only_called_readFile (p : string) :
  allowed (fs_readFile p) = true -> keeps (only_called allowed st0) (readFile p).
Proof.
  intros H. apply keeps_bind; [apply keeps_only_called_call; exact H|intros _].
  apply keeps_only_called_silent. intros st. destruct (read_at p (disk st)); reflexivity.
Qed.

Lemma keeps_only_called_saveManifest :
  (forall p data, allowed (fs_writeFile p data) = true) ->
  keeps (only_called allowed st0) saveManifest.
Proof. intros H st. apply keeps_only_called_writeFile, H. Qed.

Hypothesis admits_interpreter : forall c, interpreter_call c = true -> allowed c = true.

Lemma keeps_only_called_marked (filePath : string) (s : Status) :
  keeps (only_called allowed st0)
    (bind (find filePath)
       (fun file => match file with
                    | Some i => bind (assign_status i s)
                                  (fun _ => bind saveManifest (fun _ => ret false))
                    | None => ret false
                    end)).
Proof.
  apply keeps_bind; [apply keeps_only_called_silent; reflexivity|].
  intros [i|]; [|apply keeps_ret].
  apply keeps_bind; [apply keeps_only_called_silent; reflexivity|intros _].
  apply keeps_bind; [|intros _; apply keeps_ret].
  apply keeps_only_called_saveManifest. intros p data. apply admits_interpreter. reflexivity.
Qed.

Lemma keeps_only_called_command_body (c : Command) :
  keeps (only_called allowed st0) (command_body c).
Proof.
  unfold command_body.
  destruct (cmd_add c) as [a|].
  { apply keeps_bind; [apply keeps_only_called_call, admits_interpreter; reflexivity|intros _].
    apply keeps_bind; [apply keeps_only_called_silent; reflexivity|intros _].
    apply keeps_bind; [|intros _; apply keeps_ret].
    apply keeps_only_called_saveManifest. intros p data. apply admits_interpreter. reflexivity. }
  destruct (cmd_update c) as [u|].
  { apply keeps_bind; [apply keeps_only_called_call, admits_interpreter; reflexivity|intros _].
    apply keeps_bind;
      [apply keeps_if;
       [apply keeps_ret|apply keeps_only_called_call, admits_interpreter; reflexivity]
      |intros _].
    apply keeps_bind; [apply keeps_only_called_mkdir, admits_interpreter; reflexivity|intros _].
    apply keeps_bind;
      [apply keeps_only_called_writeFile, admits_interpreter; reflexivity|intros _].
    apply keeps_only_called_marked. }
  destruct (cmd_remove c) as [r|].
  { apply keeps_bind; [apply keeps_only_called_call, admits_interpreter; reflexivity|intros _].
    apply keeps_bind; [apply keeps_only_called_unlink, admits_interpreter; reflexivity|intros _].
    apply keeps_only_called_marked. }
  destruct (cmd_finish c); [|apply keeps_ret].
  apply keeps_bind; [apply keeps_only_called_call, admits_interpreter; reflexivity|intros _].
  apply keeps_bind; [apply keeps_only_called_call, admits_interpreter; reflexivity|intros _].
  apply keeps_ret.
Qed.

Lemma keeps_only_called_processCommands (commands : list Command) :
  keeps (only_called allowed st0) (processCommands commands).
Proof.
  apply keeps_bind; [apply keeps_only_called_call, admits_interpreter; reflexivity|intros _].
  induction commands as [|c rest IH]; simpl; [apply keeps_ret|].
  apply keeps_bind; [apply keeps_only_called_command_body|].
  intros [|]; [apply keeps_ret|exact IH].
Qed.

End Calls.

Section InterpreterCalls.
Context {rt : Runtime}.

Lemma command_body_never_exits (c : Command) (st : Process) (code : Z) :
  fst (command_body c st) <> Exited code.
Proof.
  unfold command_body, saveManifest, writeFile, mkdir, unlink, push, find, assign_status.
  destruct (cmd_add c); [run; discriminate|].
  destruct (cmd_update c); [run; discriminate|].
  destruct (cmd_remove c); [run; discriminate|].
  destruct (cmd_finish c); run; discriminate.
Qed.

Lemma for_commands_never_exits (commands : list Command) (st : Process) (code : Z) :
  fst (for_commands commands st) <> Exited code.
Proof.
  revert st. induction commands as [|c rest IH]; intros st; simpl; [discriminate|].
  unfold bind. pose proof (command_body_never_exits c st code) as Hc.
  destruct (command_body c st) as [[[|]|e|code'] st1]; simpl in *;
    [discriminate|apply IH|discriminate|exact Hc].
Qed.

(** X7.  Whatever the batch, the interpreter calls nothing but the output
    streams, [mkdir], [writeFile] and [unlink]: it reads no file, does not
    call the Content Generator, and never ends the process; a failure
    leaves it as an exception. *)
Theorem interpreter_prints_and_writes_only (commands : list Command) (st : Process) :
  only_called interpreter_call st (snd (processCommands commands st)) /\
  (forall code, fst (processCommands commands st) <> Exited code).
Proof.
  split.
  - apply (keeps_only_called_processCommands interpreter_call st); [auto|].
    apply only_called_refl.
  - intros code. unfold processCommands. cbv [bind call]. apply for_commands_never_exits.
Qed.

End InterpreterCalls.

(** ** One call of the Content Generator for each reply *)

Lemma invocations_called (c : Call) (st : Process) :
  invocations (called c st) = invocations st + (if is_create c then 1 else 0).
Proof.
  unfold invocations, called. simpl. rewrite List.filter_app, length_app. simpl.
  destruct (is_create c); reflexivity.
Qed.

Lemma invocations_only_called (st0 st : Process) :
  only_called not_create st0 st -> invocations st = invocations st0.
Proof.
  intros (l & Hl & Hall). unfold invocations. rewrite Hl, List.filter_app, length_app.
  assert (List.filter is_create l = []) as ->; [|simpl; lia].
  clear Hl. induction l as [|c l IH]; [reflexivity|]. simpl in *.
  apply andb_true_iff in Hall as [Hc Hall]. unfold not_create in Hc.
  destruct (is_create c); [discriminate|]. apply IH. exact Hall.
Qed.

Section Invocations.
Context {rt : Runtime}.

Lemma keeps_not_create_preload (st0 : Process) : keeps (only_called not_create st0) preload.
Proof.
  intros st H. unfold preload. destruct (specContent st) as [| | | | |clauses|]; try exact H.
  revert st H. apply keeps_bind.
  - induction clauses as [|clause rest IH]; simpl; [apply keeps_ret|].
    apply keeps_bind.
    + unfold preload_clause. destruct clause as [s|r|b| | |items|fields];
        try apply keeps_ret; try apply keeps_throw.
      destruct (property "import" fields) as [[file|r|b| | |items|fields']|];
        try apply keeps_ret.
      apply keeps_try_catch; [|intros e; apply keeps_ret].
      apply keeps_bind; [apply keeps_only_called_readFile; reflexivity|].
      intros buffer; apply keeps_ret.
    + intros promise. apply keeps_bind; [exact IH|intros promises; apply keeps_ret].
  - intros promises. induction promises as [|[e|a] rest IH]; simpl;
      [apply keeps_ret|apply keeps_throw|].
    apply keeps_bind; [exact IH|intros values; apply keeps_ret].
Qed.

Lemma preload_invocations (st : Process) : invocations (snd (preload st)) = invocations st.
Proof.
  apply invocations_only_called, keeps_not_create_preload, only_called_refl.
Qed.

Lemma processCommands_invocations (commands : list Command) (st : Process) :
  invocations (snd (processCommands commands st)) = invocations st.
Proof.
  apply invocations_only_called.
  apply (keeps_only_called_processCommands not_create st); [|apply only_called_refl].
  intros [] H; try discriminate; reflexivity.
Qed.

Lemma caught_invocations (errors : list string) (e : Exn) (st : Process) :
  invocations (snd (caught errors e st)) = invocations st.
Proof.
  destruct errors; simpl; rewrite !invocations_called; simpl; lia.
Qed.

Lemma cycle_invocations (reply : Reply) (errors : list string) (st : Process) :
  invocations (snd (cycle reply errors st)) <= invocations st + 1 /\
  (forall v, fst (cycle reply errors st) = Value v ->
             invocations (snd (cycle reply errors st)) = invocations st + 1).
Proof.
  pose proof (preload_invocations st) as Hp.
  destruct (preload st) as [[pl|e|code] st1] eqn:Hpl; simpl in Hp.
  - assert (invocations (snd (cycle reply errors st)) = invocations st + 1) as ->;
      [|split; [lia|reflexivity]].
    destruct reply as [e|e|commands].
    + rewrite (cycle_failure (Rejects e) e errors st st1 pl eq_refl Hpl).
      rewrite caught_invocations, invocations_called. simpl. lia.
    + rewrite (cycle_failure (Unparseable e) e errors st st1 pl eq_refl Hpl).
      rewrite caught_invocations, invocations_called. simpl. lia.
    + rewrite (cycle_parses commands errors st st1 pl Hpl).
      pose proof (processCommands_invocations commands
                    (called (messages_create (request pl (manifest st1) errors)) st1)) as Hc.
      rewrite invocations_called in Hc. simpl in Hc.
      destruct (processCommands commands _) as [[b|e|code] st3]; simpl in *;
        rewrite ?caught_invocations; lia.
  - unfold cycle. rewrite (bind_Thrown _ _ _ _ _ Hpl). simpl. split; [lia|discriminate].
  - unfold cycle. rewrite (bind_Exited _ _ _ _ _ Hpl). simpl. split; [lia|discriminate].
Qed.

(** X9.  A run of [generate] calls the Content Generator at most once for
    each reply it is given, and exactly once for each when it is back at the
    head of its loop with all replies used. *)
Theorem one_invocation_for_each_reply (replies : list Reply) (st : Process) :
  invocations (snd (generate replies st)) <= invocations st + length replies /\
  (forall errs, fst (generate replies st) = Value (Looping errs) ->
                invocations (snd (generate replies st)) = invocations st + length replies).
Proof.
  unfold generate. generalize (@nil string) as errors. revert st.
  induction replies as [|reply later IH]; intros st errors; simpl.
  - split; [lia|intros; lia].
  - destruct (cycle_invocations reply errors st) as [Hle Heq]. unfold bind.
    destruct (cycle reply errors st) as [[[fin errs]|e|code] st1]; simpl in *.
    + specialize (Heq _ eq_refl). destruct fin; simpl.
      * split; [lia|discriminate].
      * destruct (IH st1 errs) as [Hle' Heq']. split; [lia|].
        intros errs' H. rewrite (Heq' _ H). lia.
    + split; [lia|discriminate].
    + split; [lia|discriminate].
Qed.

End Invocations.

Lemma one_invocation_for_each_reply_witness :
  invocations (snd (generate (rt := node)
                      [Parses [Add "src/a.ts" "d"]; Unparseable bad_json; Parses []] fresh)) = 3.
Proof.
  destruct (one_invocation_for_each_reply (rt := node)
              [Parses [Add "src/a.ts" "d"]; Unparseable bad_json; Parses []] fresh) as [_ H].
  rewrite (H ["SyntaxError: Unexpected token < in JSON at position 0"]); [reflexivity|].
  vm_compute. reflexivity.
Defined.

(** ** What the batch-replay client calls *)

Section ReplayCalls.
Context {rt : Runtime}.
Variable st0 : Process.

Lemma keeps_forEach (I : Process -> Prop) {A} (f : A -> Prog unit) (l : list A) :
  (forall x, keeps I (f x)) -> keeps I (forEach f l).
Proof.
  intros Hf. induction l as [|x l IH]; simpl; [apply keeps_ret|].
  apply keeps_bind; [apply Hf|intros _; exact IH].
Qed.

Lemma keeps_replay_call_replay_command (c : Command) :
  keeps (only_called replay_call st0) (replay_command c).
Proof.
  unfold replay_command.
  destruct (cmd_update c) as [u|].
  { apply keeps_bind; [apply keeps_only_called_call; reflexivity|intros _].
    apply keeps_bind; [apply keeps_only_called_call; reflexivity|intros _].
    apply keeps_try_catch; [|intros e; apply keeps_only_called_call; reflexivity].
    apply keeps_bind.
    - apply keeps_try_catch; [apply keeps_only_called_mkdir; reflexivity|].
      intros e. apply keeps_if; [apply keeps_throw|apply keeps_ret].
    - intros _. apply keeps_bind; [apply keeps_only_called_writeFile; reflexivity|intros _].
      apply keeps_only_called_call; reflexivity. }
  destruct (cmd_continue c) as [pending_files|].
  { apply keeps_if; [|apply keeps_ret].
    apply keeps_bind; [apply keeps_only_called_call; reflexivity|intros _].
    apply keeps_forEach. intros file. apply keeps_only_called_call; reflexivity. }
  destruct (cmd_finish c); [|apply keeps_ret].
  apply keeps_bind; [apply keeps_only_called_call; reflexivity|intros _].
  apply keeps_bind; [apply keeps_only_called_call; reflexivity|intros _].
  apply keeps_only_called_call; reflexivity.
Qed.

Lemma keeps_replay_call_processCommandFile (filePath : string) :
  keeps (only_called replay_call st0) (processCommandFile filePath).
Proof.
  unfold processCommandFile.
  apply keeps_try_catch; [|intros e; apply keeps_only_called_call; reflexivity].
  apply keeps_bind; [apply keeps_only_called_call; reflexivity|intros _].
  apply keeps_bind; [apply keeps_only_called_readFile; reflexivity|intros fileContent].
  apply keeps_bind.
  - apply keeps_try_catch.
    + apply keeps_bind; [|intros commands; apply keeps_ret].
      unfold parse_commands. destruct (JSON_parse fileContent);
        try apply keeps_throw; apply keeps_ret.
    + intros e. apply keeps_bind; [apply keeps_only_called_call; reflexivity|intros _].
      apply keeps_ret.
  - intros [commands|]; [|apply keeps_ret].
    apply keeps_forEach, keeps_replay_call_replay_command.
Qed.

End ReplayCalls.

Section ReplayFrame.
Context {rt : Runtime}.

Lemma replay_command_disk (c : Command) (st : Process) :
  cmd_update c = None -> disk (snd (replay_command c st)) = disk st.
Proof.
  intros Hu.
  assert (keeps (fun s => disk s = disk st) (replay_command c)) as K;
    [|exact (K st eq_refl)].
  unfold replay_command. rewrite Hu.
  destruct (cmd_continue c) as [pending_files|].
  { apply keeps_if; [|apply keeps_ret].
    apply keeps_bind; [intros ? ?; assumption|intros _].
    apply keeps_forEach. intros file ? ?. assumption. }
  destruct (cmd_finish c); [|apply keeps_ret].
  apply keeps_bind; [intros ? ?; assumption|intros _].
  apply keeps_bind; [intros ? ?; assumption|intros _].
  intros ? ?; assumption.
Qed.

(** X8.  Given at least one input file, the batch-replay client calls
    nothing but [stdout.write], [readFile], [mkdir] and [writeFile]: it
    deletes nothing, does not call the Content Generator and does not end
    the process.  A command without the [update] key (a Continue, a Finish,
    an object that is no command) leaves the disk as it is. *)
Theorem replay_reads_and_writes_only (commandFiles : list string) (st : Process) :
  commandFiles <> [] ->
  only_called replay_call st (snd (main_guarded commandFiles st)) /\
  (forall c s, cmd_update c = None -> disk (snd (replay_command c s)) = disk s).
Proof.
  intros Hne. split; [|intros c s; apply replay_command_disk].
  destruct commandFiles as [|file others]; [congruence|].
  assert (keeps (only_called replay_call st) (main (file :: others))) as K.
  { unfold main. change (Nat.eqb (length (file :: others)) 0) with false. cbv beta iota.
    apply keeps_bind; [apply keeps_only_called_call; reflexivity|intros _].
    apply keeps_forEach. intros f. apply keeps_replay_call_processCommandFile. }
  assert (exists s', main (file :: others) st = (Value tt, s')) as [s' Hm].
  { unfold main. change (Nat.eqb (length (file :: others)) 0) with false. cbv beta iota.
    cbv [bind call]. apply forEach_total. exact processCommandFile_total. }
  pose proof (K st (only_called_refl _ _)) as H.
  unfold main_guarded, try_catch. rewrite Hm in *. exact H.
Qed.

End ReplayFrame.

Lemma replay_reads_and_writes_only_witness :
  only_called replay_call (boot {| files := [] |} replay_disk)
    (snd (main_guarded (rt := replay_node) ["bad.json"; "good.json"]
            (boot {| files := [] |} replay_disk))).
Proof.
  destruct (replay_reads_and_writes_only (rt := replay_node) ["bad.json"; "good.json"]
              (boot {| files := [] |} replay_disk)) as [H _]; [discriminate|exact H].
Defined.

(** ** Start-up *)

Section StartupProperties.
Context {rt : Runtime} {ld : Loader}.

(** X10.  [init] ends in one of two ways: it returns, or the process exits
    with code 1 and the disk is as it was.  It never throws. *)
Theorem init_returns_or_exits (specPath : string) (plan : Plan) (st : Process) :
  fst (init specPath plan st) = Value tt \/
  (fst (init specPath plan st) = Exited 1 /\ disk (snd (init specPath plan st)) = disk st).
Proof.
  unfold init, generateInitialManifest, saveManifest, writeFile, readFile.
  cbv [bind call ret throw try_catch exit on_disk]. simpl.
  destruct (read_at specPath (disk st)) as [e|specRaw]; simpl; [right; split; reflexivity|].
  destruct (parse_spec specRaw) as [e|spec]; simpl; [right; split; reflexivity|].
  destruct (read_at manifestPath (disk st)) as [e|manifestRaw]; simpl.
  - destruct plan as [e'|e'|planned]; simpl; try (right; split; reflexivity).
    destruct (write_at manifestPath _ (disk st)) as [[e'|] d] eqn:Hw; simpl; [|left; reflexivity].
    right. destruct (write_at_Some _ _ _ _ _ Hw) as [-> _]. split; reflexivity.
  - destruct (parse_manifest manifestRaw) as [e|m]; simpl; [|left; reflexivity].
    destruct plan as [e'|e'|planned]; simpl; try (right; split; reflexivity).
    destruct (write_at manifestPath _ (disk st)) as [[e'|] d] eqn:Hw; simpl; [|left; reflexivity].
    right. destruct (write_at_Some _ _ _ _ _ Hw) as [-> _]. split; reflexivity.
Qed.

Lemma init_from_document (specPath specRaw manifestRaw : string) (spec : JValue)
      (m : Manifest) (plan : Plan) (st : Process) :
  read_at specPath (disk st) = inr specRaw ->
  parse_spec specRaw = inr spec ->
  read_at manifestPath (disk st) = inr manifestRaw ->
  parse_manifest manifestRaw = inr m ->
  init specPath plan st =
  (Value tt,
   {| manifest := m; specContent := spec; disk := disk st;
      calls := calls st ++ [fs_readFile specPath; fs_readFile manifestPath] |}).
Proof.
  intros Hs Hps Hm Hpm. unfold init, readFile.
  cbv [bind call ret throw try_catch]. simpl. rewrite Hs. simpl. rewrite Hps. simpl.
  rewrite Hm. simpl. rewrite Hpm. same_state.
Qed.

(** X11.  With a manifest document that reads and parses, [init] takes
    the manifest from it: it reads the two files and does nothing else, so
    that the Content Generator is not called, whatever it would have
    replied, and the disk is untouched. *)
Theorem init_loads_the_document (specPath specRaw manifestRaw : string) (spec : JValue)
    (m : Manifest) (plan : Plan) (st : Process) :
  read_at specPath (disk st) = inr specRaw ->
  parse_spec specRaw = inr spec ->
  read_at manifestPath (disk st) = inr manifestRaw ->
  parse_manifest manifestRaw = inr m ->
  init specPath plan st =
  (Value tt,
   {| manifest := m; specContent := spec; disk := disk st;
      calls := calls st ++ [fs_readFile specPath; fs_readFile manifestPath] |}).
Proof. apply init_from_document. Qed.


Lemma generate_without_array (reply : Reply) (later : list Reply) (st : Process) :
  is_array (specContent st) = false ->
  generate (reply :: later) st = (Thrown (not_mappable (specContent st)), st).
Proof.
  intros H. unfold generate. simpl. unfold bind at 1, cycle, bind at 1, preload.
  destruct (specContent st); try reflexivity. discriminate.
Qed.

(** X13.  A specification that is not an array stops the context-
    accumulating generator before its first request.  With the credential
    set and a manifest document that loads, the command initialises and
    then [generate] throws a [TypeError] out of [preload], whose message
    says that [map] cannot be read of [null] when the specification is
    [null], and that [this.specContent.map] is not a function otherwise:
    the Content Generator is never called, the disk is untouched, and the
    process ends by the exception, not by [process.exit(1)]. *)
Theorem specification_must_be_an_array (key specPath specRaw manifestRaw : string)
    (spec : JValue) (m : Manifest) (plan : Plan) (reply : Reply) (later : list Reply)
    (st : Process) :
  key <> "" ->
  read_at specPath (disk st) = inr specRaw ->
  parse_spec specRaw = inr spec ->
  is_array spec = false ->
  read_at manifestPath (disk st) = inr manifestRaw ->
  parse_manifest manifestRaw = inr m ->
  action (Some key) specPath plan (reply :: later) st =
  (Thrown (TypeError match spec with
                     | JNull => "Cannot read properties of null (reading 'map')"
                     | JUndefined => "Cannot read properties of undefined (reading 'map')"
                     | _ => "this.specContent.map is not a function"
                     end),
   {| manifest := m; specContent := spec; disk := disk st;
      calls := calls st ++ [fs_readFile specPath; fs_readFile manifestPath] |}).
Proof.
  intros Hkey Hs Hps Harr Hm Hpm. unfold action.
  assert (String.eqb key "" = false) as -> by (apply String.eqb_neq; exact Hkey).
  rewrite (bind_Value _ _ _ _ _ (init_from_document _ _ _ _ _ plan st Hs Hps Hm Hpm)).
  rewrite generate_without_array by exact Harr. simpl.
  destruct spec; reflexivity.
Qed.

End StartupProperties.

Lemma init_loads_the_document_witness :
  fst (init (rt := node) (ld := example_loader) "spec.json" (PlanRejects overloaded)
         (boot {| files := [] |} loaded_disk)) = Value tt.
Proof.
  rewrite (init_loads_the_document (rt := node) (ld := example_loader)
             "spec.json" "[]" (stringify_manifest (manifest pending_a)) (JArray [])
             (manifest pending_a) (PlanRejects overloaded) (boot {| files := [] |} loaded_disk)
             ltac:(vm_compute; reflexivity) ltac:(vm_compute; reflexivity)
             ltac:(vm_compute; reflexivity) ltac:(vm_compute; reflexivity)).
  reflexivity.
Defined.


Lemma specification_must_be_an_array_witness :
  fst (action (rt := node) (ld := example_loader) (Some "sk-ant") "object.json"
         (PlanRejects overloaded) [Parses [Finish "done"]]
         (boot {| files := [] |} loaded_disk))
  = Thrown (TypeError "this.specContent.map is not a function").
Proof.
  rewrite (specification_must_be_an_array (rt := node) (ld := example_loader)
             "sk-ant" "object.json" "{}" (stringify_manifest (manifest pending_a)) (JObject [])
             (manifest pending_a) (PlanRejects overloaded) (Parses [Finish "done"]) []
             (boot {| files := [] |} loaded_disk)
             ltac:(discriminate) ltac:(vm_compute; reflexivity) ltac:(vm_compute; reflexivity)
             eq_refl ltac:(vm_compute; reflexivity) ltac:(vm_compute; reflexivity)).
  reflexivity.
Defined.

(** ** [preload] *)

Section Preload.
Context {rt : Runtime}.

Lemma imports_cons (clause : JValue) (rest : list JValue) :
  imports (clause :: rest) = imports [clause] ++ imports rest.
Proof.
  unfold imports. simpl. destruct clause as [| | | | | |fields]; try reflexivity.
  destruct (property "import" fields) as [[]|]; reflexivity.
Qed.

Lemma preload_clause_reads (clause : JValue) (st st' : Process) (promise : Exn + option Message) :
  preload_clause clause st = (Value promise, st') ->
  st' = {| manifest := manifest st; specContent := specContent st; disk := disk st;
           calls := calls st ++ (fs_readFile <$> imports [clause]) |}.
Proof.
  unfold preload_clause, imports, readFile. simpl.
  destruct clause as [s|r|b| | |items|fields]; simpl;
    try (intros [= _ <-]; rewrite app_nil_r; destruct st; reflexivity);
    try discriminate.
  destruct (property "import" fields) as [[file|r|b| | |items|fields']|]; simpl;
    try (intros [= _ <-]; rewrite app_nil_r; destruct st; reflexivity).
  cbv [try_catch bind call ret]. simpl.
  destruct (read_at file (disk st)); intros [= _ <-]; reflexivity.
Qed.

Lemma map_clauses_reads (clauses : list JValue) (st st' : Process)
      (promises : list (Exn + option Message)) :
  map_clauses clauses st = (Value promises, st') ->
  length promises = length clauses /\
  st' = {| manifest := manifest st; specContent := specContent st; disk := disk st;
           calls := calls st ++ (fs_readFile <$> imports clauses) |}.
Proof.
  revert st st' promises. induction clauses as [|clause rest IH]; intros st st' promises.
  - simpl. intros [= <- <-]. split; [reflexivity|]. rewrite app_nil_r. destruct st; reflexivity.
  - rewrite imports_cons. cbn [map_clauses length].
    unfold bind at 1. destruct (preload_clause clause st) as [[promise|e|code] st1] eqn:Hc;
      try discriminate.
    unfold bind at 1. destruct (map_clauses rest st1) as [[ps|e|code] st2] eqn:Hr;
      try discriminate.
    intros [= <- <-]. destruct (IH _ _ _ Hr) as [Hlen ->].
    rewrite (preload_clause_reads _ _ _ _ Hc). cbn [manifest specContent disk calls length].
    split; [congruence|]. rewrite fmap_app, app_assoc. reflexivity.
Qed.

Lemma Promise_all_values {A} (promises : list (Exn + A)) (st st' : Process) (values : list A) :
  Promise_all promises st = (Value values, st') ->
  st' = st /\ length values = length promises.
Proof.
  revert values. induction promises as [|[e|a] rest IH]; intros values; simpl.
  - intros [= <- <-]. split; reflexivity.
  - discriminate.
  - unfold bind. destruct (Promise_all rest st) as [[vs|e|code] st1]; try discriminate.
    intros [= <- <-]. destruct (IH vs eq_refl) as [-> Hlen]. split; [reflexivity|].
    simpl. congruence.
Qed.

(** X14.  When [preload] fulfils, it has read the files that the clauses
    import, each once and in the order of the clauses, and has done nothing
    else: the manifest and the disk are as they were; and its result has
    one entry for each clause of the specification. *)
Theorem preload_reads_the_imports (clauses : list JValue) (st st' : Process)
    (preloads : list (option Message)) :
  specContent st = JArray clauses ->
  preload st = (Value preloads, st') ->
  length preloads = length clauses /\
  st' = {| manifest := manifest st; specContent := specContent st; disk := disk st;
           calls := calls st ++ (fs_readFile <$> imports clauses) |}.
Proof.
  intros Hspec Hall. unfold preload in Hall. rewrite Hspec in Hall. unfold bind in Hall.
  destruct (map_clauses clauses st) as [[promises|e|code] st1] eqn:Hm; try discriminate. destruct (map_clauses_reads _ _ _ _ Hm) as [Hlen ->].
  destruct (Promise_all_values _ _ _ _ Hall) as [-> Hlen']. split; [congruence|reflexivity].
Qed.

End Preload.

(** ** The feedback carries the whole error *)

Lemma concat_split (sep : ascii) (s : string) :
  String.concat (String sep EmptyString) (split sep s) = s.
Proof.
  induction s as [|c s IH]; [reflexivity|]. simpl.
  destruct (Ascii.eqb c sep) eqn:Hc.
  - apply Ascii.eqb_eq in Hc as ->.
    pose proof (split_nonempty sep s) as Hne.
    destruct (split sep s) as [|w ws]; [congruence|].
    change (String.concat (String sep EmptyString) (EmptyString :: w :: ws))
      with (String sep (String.concat (String sep EmptyString) (w :: ws))).
    rewrite IH. reflexivity.
  - pose proof (split_nonempty sep s) as Hne.
    destruct (split sep s) as [|w ws]; [congruence|].
    rewrite <- IH. destruct ws; reflexivity.
Qed.

Section Feedback.
Context {rt : Runtime}.

Lemma keeps_any_call_preload (st0 : Process) : keeps (only_called any_call st0) preload.
Proof.
  intros st H. apply (only_called_trans _ _ st); [exact H|].
  destruct (keeps_not_create_preload st st (only_called_refl _ _)) as (l & Hl & _).
  exists l. split; [exact Hl|]. clear Hl. induction l; [reflexivity|exact IHl].
Qed.

Lemma keeps_any_call_caught (st0 : Process) (errors : list string) (e : Exn) (st : Process) :
  only_called any_call st0 st -> only_called any_call st0 (snd (caught errors e st)).
Proof.
  intros H. destruct errors; simpl.
  - exact (keeps_only_called_call any_call st0 _ eq_refl st H).
  - apply (keeps_only_called_call any_call st0 _ eq_refl).
    exact (keeps_only_called_call any_call st0 _ eq_refl st H).
Qed.

(** The [try] block begins with the request of the cycle. *)
Lemma attempt_begins (pl : list (option Message)) (reply : Reply) (errors : list string)
      (st : Process) :
  only_called any_call (called (messages_create (request pl (manifest st) errors)) st)
    (snd (attempt pl reply errors st)).
Proof.
  destruct reply as [e|e|commands]; try apply only_called_refl.
  rewrite attempt_parses.
  apply (keeps_only_called_processCommands any_call); [reflexivity|apply only_called_refl].
Qed.

Lemma keeps_any_call_generate_from (st0 : Process) (replies : list Reply) :
  forall errors, keeps (only_called any_call st0) (generate_from errors replies).
Proof.
  induction replies as [|reply later IH]; intros errors; [apply keeps_ret|].
  intros st H. rewrite generate_from_cons.
  pose proof (keeps_any_call_preload st0 st H) as H1.
  destruct (preload st) as [[pl|e|code] st1] eqn:Hpl; simpl in H1.
  - rewrite (cycle_attempt _ _ _ _ _ Hpl).
    pose proof (only_called_trans _ _ _ _
                  (keeps_only_called_call any_call st0
                     (messages_create (request pl (manifest st1) errors)) eq_refl st1 H1)
                  (attempt_begins pl reply errors st1)) as H2.
    destruct (attempt pl reply errors st1) as [[[|]|e|code] st3]; simpl in *; try exact H2.
    + apply IH. exact H2.
    + pose proof (keeps_any_call_caught st0 errors e st3 H2) as H3.
      destruct errors; simpl in *; [apply IH|]; exact H3.
  - unfold cycle. rewrite (bind_Thrown _ _ _ _ _ Hpl). exact H1.
  - unfold cycle. rewrite (bind_Exited _ _ _ _ _ Hpl). exact H1.
Qed.

(** A run at the head of its loop with a reply to come: whatever the
    reply, the first call after [preload] is the request of the cycle. *)
Lemma generate_from_asks (reply : Reply) (later : list Reply) (errors : list string)
      (st st1 : Process) (pl : list (option Message)) :
  preload st = (Value pl, st1) ->
  exists l,
    calls (snd (generate_from errors (reply :: later) st)) =
    calls st1 ++ messages_create (request pl (manifest st1) errors) :: l.
Proof.
  intros Hpl.
  assert (only_called any_call (called (messages_create (request pl (manifest st1) errors)) st1)
            (snd (generate_from errors (reply :: later) st))) as (l & Hl & _).
  { rewrite generate_from_cons, (cycle_attempt _ _ _ _ _ Hpl).
    pose proof (attempt_begins pl reply errors st1) as H2.
    destruct (attempt pl reply errors st1) as [[[|]|e|code] st3]; simpl in *; try exact H2.
    - apply keeps_any_call_generate_from. exact H2.
    - pose proof (keeps_any_call_caught _ errors e st3 H2) as H3.
      destruct errors; simpl in *; [apply keeps_any_call_generate_from|]; exact H3. }
  exists l. rewrite Hl. simpl. rewrite <- app_assoc. reflexivity.
Qed.

(** X15.  After the first failure of a cycle, be it of the call, of the
    parse or of the commands, the lines kept as feedback are the text of
    the error, cut at its line breaks: joined by line breaks they give that
    text again.  And the next cycle sends them: whatever the next reply, the
    first call after its [preload] is the request, which carries one fix
    message for each line, in their order, between the message of the
    manifest and the instructions. *)
Theorem feedback_is_the_error_text (reply next : Reply) (later : list Reply) (e : Exn)
    (st st1 st2 st3 : Process) (pl pl' : list (option Message)) :
  preload st = (Value pl, st1) ->
  attempt pl reply [] st1 = (Thrown e, st2) ->
  preload (called (console_log [PError e]) st2) = (Value pl', st3) ->
  exists lines,
    cycle reply [] st = (Value (false, lines), called (console_log [PError e]) st2) /\
    String.concat newline lines = exn_text e /\
    exists l,
      calls (snd (generate (reply :: next :: later) st)) =
      calls st3 ++
      messages_create (pl' ++ [manifest_message (manifest st3)] ++ (fix_message <$> lines) ++
                       [Some (user instructions_text)]) :: l.
Proof.
  intros Hpl Hfail Hpl'. exists (split (ascii_of_nat 10) (exn_text e)).
  assert (cycle reply [] st =
          (Value (false, split (ascii_of_nat 10) (exn_text e)),
           called (console_log [PError e]) st2)) as Hcycle.
  { rewrite (cycle_attempt _ _ _ _ _ Hpl), Hfail. reflexivity. }
  split; [exact Hcycle|]. split; [apply concat_split|].
  unfold generate. rewrite generate_from_cons, Hcycle.
  exact (generate_from_asks next later _ _ _ _ Hpl').
Qed.

End Feedback.

Lemma feedback_is_the_error_text_witness :
  exists l,
    calls (snd (generate (rt := node) [Rejects overloaded; Parses [Finish "done"]] fresh)) =
    calls (called (console_log [PError overloaded])
             (called (messages_create (request [] (manifest fresh) [])) fresh)) ++
    messages_create ([] ++ [manifest_message (manifest fresh)] ++
                     [fix_message "Error: 529 overloaded_error"] ++
                     [Some (user instructions_text)]) :: l.
Proof.
  destruct (feedback_is_the_error_text (rt := node) (Rejects overloaded) (Parses [Finish "done"]) []
              overloaded fresh fresh
              (called (messages_create (request [] (manifest fresh) [])) fresh)
              (called (console_log [PError overloaded])
                 (called (messages_create (request [] (manifest fresh) [])) fresh))
              [] []
              ltac:(vm_compute; reflexivity) ltac:(vm_compute; reflexivity)
              ltac:(vm_compute; reflexivity)) as (lines & Hcycle & Hjoin & l & Hl).
  exists l. rewrite Hl.
  assert (lines = ["Error: 529 overloaded_error"]) as ->; [|reflexivity].
  assert (cycle (rt := node) (Rejects overloaded) [] fresh =
          (Value (false, ["Error: 529 overloaded_error"]),
           called (console_log [PError overloaded])
             (called (messages_create (request [] (manifest fresh) [])) fresh))) as Hc
    by (vm_compute; reflexivity).
  rewrite Hc in Hcycle. injection Hcycle as <-. reflexivity.
Defined.

Lemma preload_reads_the_imports_witness :
  calls (snd (preload
                (with_specContent
                   (JArray [JString "Build it"; JObject [("import", JString "src/a.ts")];
                            JObject []])
                   generated_a)))
  = [fs_readFile "src/a.ts"].
Proof.
  destruct (preload_reads_the_imports
              [JString "Build it"; JObject [("import", JString "src/a.ts")]; JObject []]
              (with_specContent
                 (JArray [JString "Build it"; JObject [("import", JString "src/a.ts")];
                          JObject []])
                 generated_a)
              (snd (preload
                      (with_specContent
                         (JArray [JString "Build it"; JObject [("import", JString "src/a.ts")];
                                  JObject []])
                         generated_a)))
              [Some (user "Build it");
               Some {| role := "user"; content := Base64 "export const a = 1;" |}; None]
              eq_refl ltac:(vm_compute; reflexivity)) as [_ H].
  rewrite H. reflexivity.
Defined.

(** ** [ensureDirectoryExists] *)


(** ** The two variants of the interpreter *)

Section Variants.
Context {rt : Runtime}.

Lemma variants_agree_on_a_command (c : Command) (m : Manifest) (sp : JValue)
      (d : gmap (list string) Node) (cs cs' : list Call) :
  let r := command_body c {| manifest := m; specContent := sp; disk := d; calls := cs |} in
  let r' := SingleShot.command_body c
              {| manifest := m; specContent := sp; disk := d; calls := cs' |} in
  fst r = fst r' /\ manifest (snd r) = manifest (snd r') /\
  specContent (snd r) = specContent (snd r') /\ disk (snd r) = disk (snd r').
Proof.
  unfold command_body, SingleShot.command_body, saveManifest, writeFile, mkdir, unlink, push,
    find, assign_status.
  destruct (cmd_add c); [run; repeat split|].
  destruct (cmd_update c); [run; repeat split|].
  destruct (cmd_remove c); [run; repeat split|].
  destruct (cmd_finish c); run; repeat split.
Qed.

(** X17.  The interpreter of the single-shot variant and the interpreter
    of [index.ts] differ in what they print and in nothing else: on any
    batch, from states with the same manifest and disk, they end the same
    way (the same value, or the same exception) with the same manifest and
    the same disk. *)
Theorem variants_differ_in_output_only (commands : list Command) (st st' : Process) :
  manifest st = manifest st' -> specContent st = specContent st' -> disk st = disk st' ->
  fst (processCommands commands st) = fst (SingleShot.processCommands commands st') /\
  manifest (snd (processCommands commands st))
  = manifest (snd (SingleShot.processCommands commands st')) /\
  disk (snd (processCommands commands st))
  = disk (snd (SingleShot.processCommands commands st')).
Proof.
  unfold processCommands, SingleShot.processCommands. cbv [bind call].
  generalize (stdout_write ("Received " +:+ pretty (length commands) +:+
                            " commands from Claude" +:+ newline)).
  generalize (console_log [PText ("Received " +:+ pretty (length commands) +:+
                                  " commands from Claude")]).
  intros c2 c1 Hm Hs Hd.
  assert (manifest (called c1 st) = manifest (called c2 st')) as Hm' by exact Hm.
  assert (specContent (called c1 st) = specContent (called c2 st')) as Hs' by exact Hs.
  assert (disk (called c1 st) = disk (called c2 st')) as Hd' by exact Hd.
  revert Hm' Hs' Hd'. generalize (called c1 st) (called c2 st'). clear.
  induction commands as [|c rest IH]; intros s s' Hm Hs Hd; simpl; [auto|].
  destruct s as [m sp d cs], s' as [m' sp' d' cs']. simpl in Hm, Hs, Hd. subst m' sp' d'.
  destruct (variants_agree_on_a_command c m sp d cs cs') as (Ho & Hm & Hs & Hd).
  unfold bind.
  destruct (command_body c _) as [[[|]|e|code] s1];
    destruct (SingleShot.command_body c _) as [[[|]|e'|code'] s1'];
    simpl in *; try discriminate; auto.
Qed.

End Variants.

Lemma variants_differ_in_output_only_witness :
  disk (snd (processCommands (rt := node)
               [Update "src/a.ts" (JString "x") "w"; Remove "src/b.ts"] started))
  = disk (snd (SingleShot.processCommands (rt := node)
                 [Update "src/a.ts" (JString "x") "w"; Remove "src/b.ts"] started)).
Proof.
  destruct (variants_differ_in_output_only (rt := node)
              [Update "src/a.ts" (JString "x") "w"; Remove "src/b.ts"] started started
              eq_refl eq_refl eq_refl) as (_ & _ & H).
  exact H.
Defined.

(** ** Which entry a path finds after an Add *)

Lemma first_match_app (q : string) (fs : list ManifestFile) (f : ManifestFile) :
  first_match q (fs ++ [f]) =
  match first_match q fs with
  | Some i => Some i
  | None => if decide (path f = q) then Some (length fs) else None
  end.
Proof.
  unfold first_match. induction fs as [|g fs IH]; simpl.
  - destruct (decide (path f = q)); reflexivity.
  - destruct (decide (path g = q)); [reflexivity|].
    destruct (list_find _ (fs ++ [f])) as [[? ?]|];
      destruct (list_find _ fs) as [[? ?]|]; simpl in *;
      try destruct (decide (path f = q)); congruence.
Qed.

(** X18.  An Add does not change which entry a path finds, with one
    exception: a path that no entry had, when it is the path added, finds
    the new entry, at the end of the sequence.  So an Update or a Remove
    after an Add of a path already listed still goes to the old entry. *)
Theorem add_is_found_only_if_new {rt : Runtime} (p d q : string) (st : Process) :
  first_match q (files (manifest (snd (command_body (Add p d) st)))) =
  match first_match q (files (manifest st)) with
  | Some i => Some i
  | None => if decide (p = q) then Some (length (files (manifest st))) else None
  end.
Proof.
  assert (files (manifest (snd (command_body (Add p d) st))) =
          files (manifest st) ++ [{| path := p; description := d; status := pending |}]) as ->.
  { unfold command_body, saveManifest, writeFile, push. simpl. run; reflexivity. }
  apply first_match_app.
Qed.
